(** * mat64: a dense row-major matrix over one flat buffer

    A shallow embedding of the Go package [mat64] (type [Mat], its
    constructors and its methods) and the properties of its storage and
    indexing discipline.

    - Go's [int] is a 64-bit two's complement integer: module [GoInt].
    - Go's [float64] is IEEE 754 binary64: module [F64], on the Standard
      Library's executable specification of binary floating point.
    - A [*Mat] is a pointer: the methods take locations of a store of [Mat]
      objects, so that a receiver that is also an argument ([m.Div(m)]) is
      one object, and "a new Mat" is a fresh location.
    - [os.Exit(1)] after an error message and the run-time panics of the
      language end the run: computations live in a state monad whose
      outcomes are [Done] or [Exit], both carrying the store.

    The repository keeps three revisions of the file that defines [Mat].
    The embedding follows the latest one (the one with [FromData], whose
    operators take a scalar or a matrix and work in place).  Module
    [Legacy] has the two methods of the first revision that the later ones
    changed in substance, [Div] with its test for a zero divisor and [Std]
    with the length of the slice as divisor, and the functions of that
    revision that the later ones renamed or merged: [From1DSlice],
    [From2DSlice], [Scale], [Sum] and [Average].  The revision in between
    differs from the latest in that its operators return a copy: module
    [Copying]. *)

From Stdlib Require Import ZArith Lia Bool.
From Stdlib Require Import Floats.SpecFloat.
From stdpp Require Import base numbers list.

Local Open Scope Z_scope.

(** ** Machine integers *)

Module GoInt.

Definition min_int : Z := - 2 ^ 63.
Definition max_int : Z := 2 ^ 63 - 1.

(** The value of an integer expression after wrap-around. *)
Definition wrap (z : Z) : Z := (z + 2 ^ 63) mod 2 ^ 64 - 2 ^ 63.

Definition add (x y : Z) : Z := wrap (x + y).
Definition sub (x y : Z) : Z := wrap (x - y).
Definition mul (x y : Z) : Z := wrap (x * y).
Definition neg (x : Z) : Z := wrap (- x).

Definition in_range (z : Z) : Prop := min_int <= z <= max_int.

End GoInt.

Infix "+!" := GoInt.add (at level 50, left associativity).
Infix "-!" := GoInt.sub (at level 50, left associativity).
Infix "*!" := GoInt.mul (at level 40, left associativity).

(** ** Floating point *)

Module F64.

Definition t : Type := spec_float.

Definition prec : Z := 53.
Definition emax : Z := 1024.

Definition add : t -> t -> t := SFadd prec emax.
Definition sub : t -> t -> t := SFsub prec emax.
Definition mul : t -> t -> t := SFmul prec emax.
Definition div : t -> t -> t := SFdiv prec emax.
Definition sqrt : t -> t := SFsqrt prec emax.

(** [x == y] and [x != y] of the language. *)
Definition eqb (x y : t) : bool := SFeqb x y.
Definition neqb (x y : t) : bool := negb (SFeqb x y).

(** The conversion [float64(n)] of an [int]. *)
Definition of_int (n : Z) : t := binary_normalize prec emax n 0 false.

(** The zero value of the type, with which [make] fills a slice. *)
Definition zero : t := S754_zero false.

Definition nan : t := S754_nan.

Definition is_nan (x : t) : bool :=
  match x with S754_nan => true | _ => false end.

End F64.

Abbreviation float64 := F64.t.

(** ** The store and the monad of computations *)

(** The struct [Mat]: [r] rows, [c] columns, and the values. *)
Record Mat : Type := mkMat { r : Z; c : Z; vals : list float64 }.

(** Locations are positions in the store; an object is never freed. *)
Abbreviation loc := nat.
Abbreviation heap := (list Mat).

(** Why a run ended early.  The package prints a message and calls
    [os.Exit(1)]; the kinds classify the messages:
    - [ShapeMismatch]: the dimensions of the operands do not fit;
    - [IndexOutOfRange]: a row or column index outside its bounds;
    - [InvalidArgument]: wrong number or type of arguments, bad axis;
    - [DivisionByZero]: a zero in the divisor;
    - [RuntimePanic]: a panic of the language itself (slice index out of
      range, [make] with a bad length or capacity, nil dereference). *)
Inductive failure : Type :=
| ShapeMismatch
| IndexOutOfRange
| InvalidArgument
| DivisionByZero
| RuntimePanic.

Inductive outcome (A : Type) : Type :=
| Done (a : A) (h : heap)
| Exit (e : failure) (h : heap).
Arguments Done {A} a h.
Arguments Exit {A} e h.

Definition M (A : Type) : Type := heap -> outcome A.

Definition ret {A : Type} (a : A) : M A := fun h => Done a h.

Definition bind {A B : Type} (m : M A) (k : A -> M B) : M B :=
  fun h => match m h with
           | Done a h' => k a h'
           | Exit e h' => Exit e h'
           end.

Definition exit {A : Type} (e : failure) : M A := fun h => Exit e h.

Notation "x <- m ;; k" := (bind m (fun x => k))
  (at level 100, m at next level, right associativity).
Notation "m ;;; k" := (bind m (fun _ => k))
  (at level 100, right associativity).

(** [if cond { print; os.Exit(1) }]. *)
Definition exit_if (cond : bool) (e : failure) : M unit :=
  if cond then exit e else ret tt.

(** Dereferencing a [*Mat]. *)
Definition deref (p : loc) : M Mat :=
  fun h => match h !! p with
           | Some m => Done m h
           | None => Exit RuntimePanic h
           end.

Definition assign (p : loc) (m : Mat) : M unit :=
  fun h => match h !! p with
           | Some _ => Done tt (<[p := m]> h)
           | None => Exit RuntimePanic h
           end.

(** [&Mat{...}]: a new object, at a location that was not in use. *)
Definition alloc (m : Mat) : M loc :=
  fun h => Done (length h) (h ++ [m]).

Definition get_r (p : loc) : M Z := m <- deref p ;; ret (r m).
Definition get_c (p : loc) : M Z := m <- deref p ;; ret (c m).
Definition get_vals (p : loc) : M (list float64) := m <- deref p ;; ret (vals m).

Definition set_r (p : loc) (z : Z) : M unit :=
  m <- deref p ;; assign p (mkMat z (c m) (vals m)).
Definition set_c (p : loc) (z : Z) : M unit :=
  m <- deref p ;; assign p (mkMat (r m) z (vals m)).
Definition set_vals (p : loc) (l : list float64) : M unit :=
  m <- deref p ;; assign p (mkMat (r m) (c m) l).

(** [len(s)] as an [int]. *)
Definition len {A : Type} (s : list A) : Z := Z.of_nat (length s).

(** [s[i]] on a slice value, with the bounds check of the language. *)
Definition index {A : Type} (s : list A) (i : Z) : M A :=
  if (0 <=? i) && (i <? len s) then
    match s !! Z.to_nat i with
    | Some x => ret x
    | None => exit RuntimePanic
    end
  else exit RuntimePanic.

(** [s[i] = x] on a slice value held in a local variable. *)
Definition update {A : Type} (s : list A) (i : Z) (x : A) : M (list A) :=
  if (0 <=? i) && (i <? len s) then ret (<[Z.to_nat i := x]> s)
  else exit RuntimePanic.

(** [p.vals[i]]. *)
Definition load (p : loc) (i : Z) : M float64 :=
  s <- get_vals p ;; index s i.

(** [p.vals[i] = x]. *)
Definition store (p : loc) (i : Z) (x : float64) : M unit :=
  s <- get_vals p ;; s' <- update s i x ;; set_vals p s'.

(** [make([]float64, n, cap)]: [n] zero values; panics when the length is
    negative or the capacity is smaller than the length.  The capacity has
    no other effect on the values of a slice and is not kept; the limit that
    the allocator puts on the size of a slice is not modelled. *)
Definition make (n cap : Z) : M (list float64) :=
  if (n <? 0) || (cap <? n) then exit RuntimePanic
  else ret (replicate (Z.to_nat n) F64.zero).

(** ** Loops *)

(** [n] rounds of a loop body from index [i] on, the body threading the
    local variables [s] that it updates. *)
Fixpoint for_loop {S : Type} (n : nat) (i : Z) (body : Z -> S -> M S) (s : S)
  : M S :=
  match n with
  | O => ret s
  | Datatypes.S n' => s' <- body i s ;; for_loop n' (i + 1) body s'
  end.

(** [for i := 0; i < hi; i++ { body }].  No loop body of the package
    changes the bound of its loop, which is read once. *)
Definition for_upto {S : Type} (hi : Z) (body : Z -> S -> M S) (s : S) : M S :=
  for_loop (Z.to_nat hi) 0 body s.

(** [for i := range s { body }]: the length is read once. *)
Definition for_range {A S : Type} (l : list A) (body : Z -> S -> M S) (s : S)
  : M S :=
  for_loop (length l) 0 body s.

(** A loop whose body may [return] from the enclosing function: the body
    yields [Some v] to return [v], [None] to go on. *)
Fixpoint for_return {R : Type} (n : nat) (i : Z) (body : Z -> M (option R))
  (after : M R) : M R :=
  match n with
  | O => after
  | Datatypes.S n' =>
      o <- body i ;;
      match o with
      | Some v => ret v
      | None => for_return n' (i + 1) body after
      end
  end.

(** [append(s, v...)] and [copy(dst, src)] on slice values. *)
Definition append {A : Type} (s v : list A) : list A := s ++ v.

Definition copy {A : Type} (dst src : list A) : list A :=
  take (length dst) src ++ drop (length src) dst.

(** ** Construction *)

(** [New(dims...)].  The [&Mat{}] that the function first binds to [m] is
    dropped before anyone can reach it and is not put in the store. *)
Definition New (dims : list Z) : M loc :=
  match dims with
  | [] => s <- make 0 0 ;; alloc (mkMat 0 0 s)
  | [x] => s <- make (x *! x) (2 *! x *! x) ;; alloc (mkMat x x s)
  | [x; y] => s <- make (x *! y) (2 *! x *! y) ;; alloc (mkMat x y s)
  | [x; y; z] => s <- make (x *! y) z ;; alloc (mkMat x y s)
  | _ => exit InvalidArgument
  end.

(** The dynamic type of the first argument of [FromData]. *)
Inductive data : Type :=
| Flat (v : list float64)
| Nested (v : list (list float64))
| OtherData.

(** The copy loop of the three [[][]float64] cases of [FromData]:
    [for i := range v { for j := range v[i] { m.vals[i*len(v[0])+j] = v[i][j] } }]. *)
Definition fill_nested (m : loc) (v : list (list float64)) : M unit :=
  for_range v (fun i _ =>
    vi <- index v i ;;
    for_range vi (fun j _ =>
      v0 <- index v 0 ;;
      x <- index vi j ;;
      store m (i *! len v0 +! j) x) tt) tt.

Definition FromData (d : data) (dims : list Z) : M loc :=
  m <- New [] ;;
  match d with
  | Flat v =>
      match dims with
      | [] =>
          s <- make (len v) (len v *! 2) ;;
          set_vals m s ;;;
          mv <- get_vals m ;; set_vals m (copy mv v) ;;;
          set_r m 1 ;;; set_c m (len v) ;;; ret m
      | [a] =>
          exit_if (negb (a =? len v)) ShapeMismatch ;;;
          s <- make a (a *! 2) ;;
          set_vals m s ;;;
          mv <- get_vals m ;; set_vals m (copy mv v) ;;;
          set_r m a ;;; set_c m 1 ;;; ret m
      | [a; b] =>
          exit_if (negb (a *! b =? len v)) ShapeMismatch ;;;
          s <- make (a *! b) (a *! b *! 2) ;;
          set_vals m s ;;;
          mv <- get_vals m ;; set_vals m (copy mv v) ;;;
          set_r m a ;;; set_c m b ;;; ret m
      | _ => exit InvalidArgument
      end
  | Nested v =>
      match dims with
      | [] =>
          v0 <- index v 0 ;;
          s <- make (len v *! len v0) (len v *! len v0 *! 2) ;;
          set_vals m s ;;;
          fill_nested m v ;;;
          set_r m (len v) ;;; set_c m (len v0) ;;; ret m
      | [a] =>
          v0 <- index v 0 ;;
          exit_if (negb (a *! 2 =? len v *! len v0)) ShapeMismatch ;;;
          s <- make (a *! a) (a *! a *! 2) ;;
          set_vals m s ;;;
          fill_nested m v ;;;
          set_r m (len v) ;;; set_c m (len v0) ;;; ret m
      | [a; b] =>
          exit_if (negb (a =? len v)) ShapeMismatch ;;;
          v0 <- index v 0 ;;
          exit_if (negb (b =? len v0)) ShapeMismatch ;;;
          s <- make (a *! b) (a *! b *! 2) ;;
          set_vals m s ;;;
          fill_nested m v ;;;
          set_r m (len v) ;;; set_c m (len v0) ;;; ret m
      | _ => exit InvalidArgument
      end
  | OtherData => exit InvalidArgument
  end.

(** ** Shape queries and element access *)

Definition Reshape (m : loc) (rows cols : Z) : M loc :=
  mr <- get_r m ;; mc <- get_c m ;;
  if negb (rows *! cols =? mr *! mc) then exit ShapeMismatch
  else set_r m rows ;;; set_c m cols ;;; ret m.

Definition Dims (m : loc) : M (Z * Z) :=
  mr <- get_r m ;; mc <- get_c m ;; ret (mr, mc).

Definition Vals (m : loc) : M (list float64) :=
  mv <- get_vals m ;;
  s <- make (len mv) (len mv) ;;
  ret (copy s mv).

(** [make([][]float64, n)]: [n] nil slices. *)
Definition make_rows (n : Z) : M (list (list float64)) :=
  if n <? 0 then exit RuntimePanic else ret (replicate (Z.to_nat n) []).

Definition ToSlice (m : loc) : M (list (list float64)) :=
  mr <- get_r m ;;
  s <- make_rows mr ;;
  for_range s (fun i s =>
    mc <- get_c m ;;
    row <- make mc mc ;;
    row <- for_range row (fun j row =>
             mc <- get_c m ;;
             x <- load m (i *! mc +! j) ;;
             update row j x) row ;;
    update s i row) s.

Definition At (m : loc) (row col : Z) : M float64 :=
  mc <- get_c m ;; load m (row *! mc +! col).

Definition SetAll (m : loc) (val : float64) : M loc :=
  mv <- get_vals m ;;
  for_range mv (fun i _ => store m i val) tt ;;;
  ret m.

(** The method [Set] ([Set] alone is a reserved word here). *)
Definition Set_ (m : loc) (row col : Z) (val : float64) : M loc :=
  mr <- get_r m ;;
  store m (row *! mr +! col) val ;;;
  ret m.

(** ** Rows and columns *)

Definition Col (m : loc) (x : Z) : M loc :=
  mc <- get_c m ;;
  exit_if ((x >=? mc) || (x <? GoInt.neg mc)) IndexOutOfRange ;;;
  mr <- get_r m ;;
  v <- New [mr; 1] ;;
  (if x >=? 0 then
     for_upto mr (fun i _ =>
       mc <- get_c m ;;
       e <- load m (i *! mc +! x) ;;
       store v i e) tt
   else
     for_upto mr (fun i _ =>
       mc <- get_c m ;;
       e <- load m (i *! mc +! (mc +! x)) ;;
       store v i e) tt) ;;;
  ret v.

Definition Row (m : loc) (x : Z) : M loc :=
  mr <- get_r m ;;
  exit_if ((x >=? mr) || (x <? GoInt.neg mr)) IndexOutOfRange ;;;
  mc <- get_c m ;;
  v <- New [1; mc] ;;
  (if x >=? 0 then
     for_upto mc (fun i _ =>
       mc <- get_c m ;;
       e <- load m (x *! mc +! i) ;;
       store v i e) tt
   else
     for_upto mc (fun i _ =>
       mr <- get_r m ;; mc <- get_c m ;;
       e <- load m ((mr +! x) *! mc +! i) ;;
       store v i e) tt) ;;;
  ret v.

(** ** Comparison, copy, transpose *)

Definition Equals (m n : loc) : M bool :=
  mr <- get_r m ;; nr <- get_r n ;;
  if negb (mr =? nr) then ret false else
  mc <- get_c m ;; nc <- get_c n ;;
  if negb (mc =? nc) then ret false else
  for_return (Z.to_nat (mr *! mc)) 0 (fun i =>
    x <- load m i ;;
    y <- load n i ;;
    if F64.neqb x y then ret (Some false) else ret None)
  (ret true).

Definition Copy (m : loc) : M loc :=
  mr <- get_r m ;; mc <- get_c m ;;
  n <- New [mr; mc] ;;
  nv <- get_vals n ;; mv <- get_vals m ;;
  set_vals n (copy nv mv) ;;;
  ret n.

Definition T (m : loc) : M loc :=
  mc <- get_c m ;; mr <- get_r m ;;
  n <- New [mc; mr] ;;
  for_upto mc (fun i idx =>
    for_upto mr (fun j idx =>
      mc <- get_c m ;;
      x <- load m (j *! mc +! i) ;;
      store n idx x ;;;
      ret (idx +! 1)) idx) 0 ;;;
  ret n.

(** [Any(f)], for a predicate that only reads the value it is given. *)
Definition Any (m : loc) (f : float64 -> bool) : M bool :=
  mv <- get_vals m ;;
  for_return (length mv) 0 (fun i =>
    x <- load m i ;;
    if f x then ret (Some true) else ret None)
  (ret false).

(** ** Element-wise arithmetic *)

(** The dynamic type of the argument of [Mul], [Add], [Sub] and [Div]. *)
Inductive operand : Type :=
| OFloat (v : float64)
| OMat (v : loc)
| OOther.

(** The four methods have one body up to the operator; [arith op] is that
    body with [m.vals[i] op= ...]. *)
Definition arith (op : float64 -> float64 -> float64) (m : loc) (a : operand)
  : M loc :=
  match a with
  | OFloat v =>
      mv <- get_vals m ;;
      for_range mv (fun i _ =>
        x <- load m i ;;
        store m i (op x v)) tt ;;;
      ret m
  | OMat v =>
      vr <- get_r v ;; mr <- get_r m ;;
      exit_if (negb (vr =? mr)) ShapeMismatch ;;;
      vc <- get_c v ;; mc <- get_c m ;;
      exit_if (negb (vc =? mc)) ShapeMismatch ;;;
      mv <- get_vals m ;;
      for_range mv (fun i _ =>
        x <- load m i ;;
        y <- load v i ;;
        store m i (op x y)) tt ;;;
      ret m
  | OOther => exit InvalidArgument
  end.

Definition Mul : loc -> operand -> M loc := arith F64.mul.
Definition Add : loc -> operand -> M loc := arith F64.add.
Definition Sub : loc -> operand -> M loc := arith F64.sub.
Definition Div : loc -> operand -> M loc := arith F64.div.

(** ** Reductions *)

Definition Sum (m : loc) (args : list Z) : M float64 :=
  match args with
  | [] =>
      mv <- get_vals m ;;
      for_range mv (fun i sum => x <- load m i ;; ret (F64.add sum x)) F64.zero
  | [axis; slice] =>
      if axis =? 0 then
        mr <- get_r m ;;
        exit_if ((slice >=? mr) || (slice <? 0)) IndexOutOfRange ;;;
        mc <- get_c m ;;
        for_upto mc (fun i sum =>
          mc <- get_c m ;;
          x <- load m (slice *! mc +! i) ;;
          ret (F64.add sum x)) F64.zero
      else if axis =? 1 then
        mc <- get_c m ;;
        exit_if ((slice >=? mc) || (slice <? 0)) IndexOutOfRange ;;;
        mr <- get_r m ;;
        for_upto mr (fun i sum =>
          mc <- get_c m ;;
          x <- load m (i *! mc +! slice) ;;
          ret (F64.add sum x)) F64.zero
      else exit InvalidArgument
  | _ => exit InvalidArgument
  end.

Definition Avg (m : loc) (args : list Z) : M float64 :=
  match args with
  | [] =>
      mv <- get_vals m ;;
      sum <- for_range mv (fun i sum =>
               x <- load m i ;; ret (F64.add sum x)) F64.zero ;;
      mv <- get_vals m ;;
      ret (F64.div sum (F64.of_int (len mv)))
  | [axis; slice] =>
      if axis =? 0 then
        mr <- get_r m ;;
        exit_if ((slice >=? mr) || (slice <? 0)) IndexOutOfRange ;;;
        mc <- get_c m ;;
        sum <- for_upto mc (fun i sum =>
                 mc <- get_c m ;;
                 x <- load m (slice *! mc +! i) ;;
                 ret (F64.add sum x)) F64.zero ;;
        mc <- get_c m ;;
        ret (F64.div sum (F64.of_int mc))
      else if axis =? 1 then
        mc <- get_c m ;;
        exit_if ((slice >=? mc) || (slice <? 0)) IndexOutOfRange ;;;
        mr <- get_r m ;;
        sum <- for_upto mr (fun i sum =>
                 mc <- get_c m ;;
                 x <- load m (i *! mc +! slice) ;;
                 ret (F64.add sum x)) F64.zero ;;
        mr <- get_r m ;;
        ret (F64.div sum (F64.of_int mr))
      else exit InvalidArgument
  | _ => exit InvalidArgument
  end.

(** One round of [sum += ((avg - x) * (avg - x))]. *)
Definition sq_dev (avg sum x : float64) : float64 :=
  F64.add sum (F64.mul (F64.sub avg x) (F64.sub avg x)).

Definition Std (m : loc) (args : list Z) : M float64 :=
  match args with
  | [] =>
      avg <- Avg m [] ;;
      mv <- get_vals m ;;
      sum <- for_range mv (fun i sum =>
               x <- load m i ;; ret (sq_dev avg sum x)) F64.zero ;;
      mv <- get_vals m ;;
      ret (F64.sqrt (F64.div sum (F64.of_int (len mv))))
  | [axis; slice] =>
      if axis =? 0 then
        mr <- get_r m ;;
        exit_if ((slice >=? mr) || (slice <? 0)) IndexOutOfRange ;;;
        avg <- Avg m [axis; slice] ;;
        mc <- get_c m ;;
        sum <- for_upto mc (fun i sum =>
                 mc <- get_c m ;;
                 x <- load m (slice *! mc +! i) ;;
                 ret (sq_dev avg sum x)) F64.zero ;;
        mv <- get_vals m ;;
        ret (F64.sqrt (F64.div sum (F64.of_int (len mv))))
      else if axis =? 1 then
        mc <- get_c m ;;
        exit_if ((slice >=? mc) || (slice <? 0)) IndexOutOfRange ;;;
        avg <- Avg m [axis; slice] ;;
        mr <- get_r m ;;
        sum <- for_upto mr (fun i sum =>
                 mc <- get_c m ;;
                 x <- load m (i *! mc +! slice) ;;
                 ret (sq_dev avg sum x)) F64.zero ;;
        mv <- get_vals m ;;
        ret (F64.sqrt (F64.div sum (F64.of_int (len mv))))
      else exit InvalidArgument
  | _ => exit InvalidArgument
  end.

(** ** Matrix product *)

Definition Dot (m n : loc) : M loc :=
  mc <- get_c m ;; nr <- get_r n ;;
  exit_if (negb (mc =? nr)) ShapeMismatch ;;;
  mr <- get_r m ;; nc <- get_c n ;;
  o <- New [mr; nc] ;;
  for_upto mr (fun i _ =>
    for_upto nc (fun j _ =>
      for_upto mc (fun k _ =>
        oc <- get_c o ;; mc <- get_c m ;; nc <- get_c n ;;
        acc <- load o (i *! oc +! j) ;;
        a <- load m (i *! mc +! k) ;;
        b <- load n (k *! nc +! j) ;;
        store o (i *! oc +! j) (F64.add acc (F64.mul a b))) tt) tt) tt ;;;
  ret o.

(** ** Growth *)

(** The loop that ends [AppendCol] and [Concat]:
    [for i < m.r { for j < m.c { m.vals[i*m.c+j] = q[i][j] } }]. *)
Definition restride (m : loc) (q : list (list float64)) : M unit :=
  mr <- get_r m ;;
  for_upto mr (fun i _ =>
    mc <- get_c m ;;
    for_upto mc (fun j _ =>
      mc <- get_c m ;;
      qi <- index q i ;;
      x <- index qi j ;;
      store m (i *! mc +! j) x) tt) tt.

Definition AppendCol (m : loc) (v : list float64) : M loc :=
  mr <- get_r m ;;
  exit_if (negb (mr =? len v)) ShapeMismatch ;;;
  q <- ToSlice m ;;
  q <- for_range q (fun i q =>
         qi <- index q i ;;
         vi <- index v i ;;
         update q i (append qi [vi])) q ;;
  mc <- get_c m ;; set_c m (mc +! 1) ;;;
  mv <- get_vals m ;; set_vals m (append mv v) ;;;
  restride m q ;;;
  ret m.

(** [AppendRow].  The capacity of a slice is not part of the model: the
    outcome of the test [cap(m.vals) < len(m.vals)+len(v)] is the argument
    [grow]. *)
Definition AppendRow (grow : bool) (m : loc) (v : list float64) : M loc :=
  mc <- get_c m ;;
  exit_if (negb (mc =? len v)) ShapeMismatch ;;;
  mv <- get_vals m ;;
  (if grow then
     newVals <- make (len mv +! len v) (len mv +! len v *! 2) ;;
     let lastElem := len mv in
     newVals <- for_range mv (fun i nv =>
                  x <- load m i ;; update nv i x) newVals ;;
     newVals <- for_range v (fun i nv =>
                  x <- index v i ;; update nv (lastElem +! i) x) newVals ;;
     set_vals m newVals
   else
     set_vals m (append mv v)) ;;;
  mr <- get_r m ;; set_r m (mr +! 1) ;;;
  ret m.

Definition Concat (m n : loc) : M loc :=
  mr <- get_r m ;; nr <- get_r n ;;
  exit_if (negb (mr =? nr)) ShapeMismatch ;;;
  q <- ToSlice m ;;
  t <- Vals n ;;
  rr <- ToSlice n ;;
  mv <- get_vals m ;; set_vals m (append mv t) ;;;
  q <- for_range q (fun i q =>
         qi <- index q i ;;
         ri <- index rr i ;;
         update q i (append qi ri)) q ;;
  mc <- get_c m ;; nc <- get_c n ;; set_c m (mc +! nc) ;;;
  restride m q ;;;
  ret m.

(** ** Scans, in-place maps and products *)

(** [All(f)], for a predicate that only reads the value it is given. *)
Definition All (m : loc) (f : float64 -> bool) : M bool :=
  mv <- get_vals m ;;
  for_return (length mv) 0 (fun i =>
    x <- load m i ;;
    if negb (f x) then ret (Some false) else ret None)
  (ret true).

(** [Foreach(f)], for a function that only reads and writes the value it
    is given a pointer to: [f] is what it makes of that value. *)
Definition Foreach (m : loc) (f : float64 -> float64) : M loc :=
  mr <- get_r m ;; mc <- get_c m ;;
  for_upto (mr *! mc) (fun i _ =>
    x <- load m i ;;
    store m i (f x)) tt ;;;
  ret m.

(** The constant [1.0]. *)
Definition one : float64 := F64.of_int 1.

Definition Prd (m : loc) (args : list Z) : M float64 :=
  match args with
  | [] =>
      mv <- get_vals m ;;
      for_range mv (fun i prd => x <- load m i ;; ret (F64.mul prd x)) one
  | [axis; slice] =>
      if axis =? 0 then
        mr <- get_r m ;;
        exit_if ((slice >=? mr) || (slice <? 0)) IndexOutOfRange ;;;
        mc <- get_c m ;;
        for_upto mc (fun i prd =>
          mc <- get_c m ;;
          x <- load m (slice *! mc +! i) ;;
          ret (F64.mul prd x)) one
      else if axis =? 1 then
        mc <- get_c m ;;
        exit_if ((slice >=? mc) || (slice <? 0)) IndexOutOfRange ;;;
        mr <- get_r m ;;
        for_upto mr (fun i prd =>
          mc <- get_c m ;;
          x <- load m (i *! mc +! slice) ;;
          ret (F64.mul prd x)) one
      else exit InvalidArgument
  | _ => exit InvalidArgument
  end.

(** The predicates [Positive] ([*i > 0]) and [Negative] ([*i < 0]). *)
Definition Positive (x : float64) : bool := SFltb F64.zero x.
Definition Negative (x : float64) : bool := SFltb x F64.zero.

(** ** The earlier revision of the package

    The first revision of the file has [Div] on a [*Mat] only, with a test
    for zero divisors, and [Std] with the length of the slice it reduces. *)

Module Legacy.

Definition Div (m n : loc) : M loc :=
  mr <- get_r m ;; nr <- get_r n ;;
  exit_if (negb (mr =? nr)) ShapeMismatch ;;;
  mc <- get_c m ;; nc <- get_c n ;;
  exit_if (negb (mc =? nc)) ShapeMismatch ;;;
  let zero := fun x => F64.eqb x F64.zero in
  z <- Any n zero ;;
  exit_if z DivisionByZero ;;;
  mr <- get_r m ;; mc <- get_c m ;;
  for_upto (mr *! mc) (fun i _ =>
    x <- load m i ;;
    y <- load n i ;;
    store m i (F64.div x y)) tt ;;;
  ret m.

Definition precheckedSum (m : loc) (axis slice : Z) : M float64 :=
  if axis =? 0 then
    mc <- get_c m ;;
    for_upto mc (fun i x =>
      mc <- get_c m ;;
      e <- load m (slice *! mc +! i) ;;
      ret (F64.add x e)) F64.zero
  else if axis =? 1 then
    mr <- get_r m ;;
    for_upto mr (fun i x =>
      mc <- get_c m ;;
      e <- load m (i *! mc +! slice) ;;
      ret (F64.add x e)) F64.zero
  else ret F64.zero.

Definition precheckedAverage (m : loc) (axis slice : Z) : M float64 :=
  sum <- precheckedSum m axis slice ;;
  if axis =? 0 then mc <- get_c m ;; ret (F64.div sum (F64.of_int mc))
  else mr <- get_r m ;; ret (F64.div sum (F64.of_int mr)).

Definition Std (m : loc) (axis slice : Z) : M float64 :=
  exit_if (negb (axis =? 0) && negb (axis =? 1)) InvalidArgument ;;;
  (if axis =? 0 then
     mr <- get_r m ;;
     exit_if ((slice >=? mr) || (slice <? 0)) IndexOutOfRange
   else if axis =? 1 then
     mc <- get_c m ;;
     exit_if ((slice >=? mc) || (slice <? 0)) IndexOutOfRange
   else ret tt) ;;;
  avg <- precheckedAverage m axis slice ;;
  s <- (if axis =? 0 then
          mc <- get_c m ;;
          s <- make mc mc ;;
          for_upto mc (fun i s =>
            mc <- get_c m ;;
            e <- load m (slice *! mc +! i) ;;
            s <- update s i (F64.sub avg e) ;;
            si <- index s i ;;
            update s i (F64.mul si si)) s
        else
          mr <- get_r m ;;
          s <- make mr mr ;;
          for_upto mr (fun i s =>
            mc <- get_c m ;;
            e <- load m (i *! mc +! slice) ;;
            s <- update s i (F64.sub avg e) ;;
            si <- index s i ;;
            update s i (F64.mul si si)) s) ;;
  sum <- for_range s (fun i sum =>
           si <- index s i ;; ret (F64.add sum si)) F64.zero ;;
  ret (F64.sqrt (F64.div sum (F64.of_int (len s)))).

(** [From1DSlice] and [From2DSlice].  [New] with two or three dimensions is
    the same function in this revision. *)
Definition From1DSlice (s : list float64) : M loc :=
  m <- New [1; len s] ;;
  mv <- get_vals m ;; set_vals m (copy mv s) ;;;
  ret m.

Definition From2DSlice (s : list (list float64)) : M loc :=
  s0 <- index s 0 ;;
  m <- New [len s; len s0; len s *! len s0 *! 2] ;;
  fill_nested m s ;;;
  ret m.

Definition Scale (m : loc) (f : float64) : M loc :=
  mr <- get_r m ;; mc <- get_c m ;;
  for_upto (mr *! mc) (fun i _ =>
    x <- load m i ;;
    store m i (F64.mul x f)) tt ;;;
  ret m.

(** The bounds tests that open [Sum], [Average], [Prod] and [Std]. *)
Definition precheck (m : loc) (axis slice : Z) : M unit :=
  exit_if (negb (axis =? 0) && negb (axis =? 1)) InvalidArgument ;;;
  if axis =? 0 then
    mr <- get_r m ;;
    exit_if ((slice >=? mr) || (slice <? 0)) IndexOutOfRange
  else if axis =? 1 then
    mc <- get_c m ;;
    exit_if ((slice >=? mc) || (slice <? 0)) IndexOutOfRange
  else ret tt.

Definition Sum (m : loc) (axis slice : Z) : M float64 :=
  precheck m axis slice ;;; precheckedSum m axis slice.

Definition Average (m : loc) (axis slice : Z) : M float64 :=
  precheck m axis slice ;;; precheckedAverage m axis slice.

End Legacy.

(** ** The revision in between

    Its operators work on a copy of the receiver and return the copy. *)

Module Copying.

Definition arith (op : float64 -> float64 -> float64) (m : loc) (a : operand)
  : M loc :=
  n <- Copy m ;;
  match a with
  | OFloat v =>
      nv <- get_vals n ;;
      for_range nv (fun i _ =>
        x <- load n i ;;
        store n i (op x v)) tt ;;;
      ret n
  | OMat v =>
      vr <- get_r v ;; nr <- get_r n ;;
      exit_if (negb (vr =? nr)) ShapeMismatch ;;;
      vc <- get_c v ;; nc <- get_c n ;;
      exit_if (negb (vc =? nc)) ShapeMismatch ;;;
      nv <- get_vals n ;;
      for_range nv (fun i _ =>
        x <- load n i ;;
        y <- load v i ;;
        store n i (op x y)) tt ;;;
      ret n
  | OOther => exit InvalidArgument
  end.

Definition Mul : loc -> operand -> M loc := arith F64.mul.
Definition Add : loc -> operand -> M loc := arith F64.add.
Definition Sub : loc -> operand -> M loc := arith F64.sub.
Definition Div : loc -> operand -> M loc := arith F64.div.

End Copying.

(** ** Well-formed matrices and the vocabulary of the statements *)

(** The shape invariant of the data model. *)
Definition shaped (m : Mat) : Prop := len (vals m) = r m * c m.

(** A matrix as the constructors make it: dimensions that are not negative,
    a buffer of [r * c] values, and a size that [New] can allocate with its
    reserve of twice the length (no buffer of the address space is larger). *)
Record wf (m : Mat) : Prop := mk_wf {
  wf_rows : 0 <= r m <= GoInt.max_int;
  wf_cols : 0 <= c m <= GoInt.max_int;
  wf_len : len (vals m) = r m * c m;
  wf_fits : 2 * (r m * c m) <= GoInt.max_int
}.

(** The element of row [i] and column [j] in the row-major layout. *)
Definition cell (m : Mat) (i j : Z) : option float64 :=
  vals m !! Z.to_nat (i * c m + j).

Definition has_nan (m : Mat) : Prop :=
  exists i, vals m !! i = Some F64.nan.

Definition no_nan (m : Mat) : Prop :=
  forall i x, vals m !! i = Some x -> F64.is_nan x = false.

(** Small matrices of integers for the examples. *)
Definition fl (n : Z) : float64 := F64.of_int n.

Definition matrix (rows cols : Z) (l : list Z) : Mat :=
  mkMat rows cols (map fl l).

(** The four operators that take a scalar or a matrix, each with the
    floating-point operation it applies. *)
Definition operators
  : list ((loc -> operand -> M loc) * (float64 -> float64 -> float64)) :=
  [(Add, F64.add); (Sub, F64.sub); (Mul, F64.mul); (Div, F64.div)].

(** The values of the receiver while an element-wise loop is at index [i]:
    combined below [i], as they were from [i] on. *)
Definition combined (op : float64 -> float64 -> float64)
    (vm vn : list float64) (i : nat) : list float64 :=
  zip_with op (take i vm) (take i vn) ++ drop i vm.

(** The element of row [i] and column [j], for indices within the matrix. *)
Definition el (m : Mat) (i j : Z) : float64 := default F64.zero (cell m i j).

(** The accumulation [0 + m[i][0]*n[0][j] + ... + m[i][k-1]*n[k-1][j]],
    added from left to right, each product and each sum rounded. *)
Fixpoint dot_sum (m n : Mat) (i j : Z) (k : nat) : float64 :=
  match k with
  | O => F64.zero
  | Datatypes.S k' =>
      F64.add (dot_sum m n i j k')
              (F64.mul (el m i (Z.of_nat k')) (el n (Z.of_nat k') j))
  end.

(** The value of cell [(a, b)] of the product while the loops of [Dot] are
    at [(i, j, k)]: complete before [(i, j)], [k] terms at [(i, j)], zero
    after. *)
Definition dot_progress (m n : Mat) (i j k a b : Z) : float64 :=
  if (a <? i) || ((a =? i) && (b <? j)) then dot_sum m n a b (Z.to_nat (c m))
  else if (a =? i) && (b =? j) then dot_sum m n a b (Z.to_nat k)
  else F64.zero.

(** The population standard deviation of a slice of values, in two passes:
    the mean, then the square root of the mean of the squared distances to
    it; both means divide by the number of values of the slice. *)
Definition fsum (xs : list float64) : float64 := fold_left F64.add xs F64.zero.

Definition mean (xs : list float64) : float64 :=
  F64.div (fsum xs) (F64.of_int (len xs)).

Definition population_std (xs : list float64) : float64 :=
  let avg := mean xs in
  F64.sqrt (mean (map (fun x => F64.mul (F64.sub x avg) (F64.sub x avg)) xs)).

(** Row [i] and column [j] of a matrix, as lists of values. *)
Definition row_of (m : Mat) (i : Z) : list float64 :=
  map (fun j => el m i (Z.of_nat j)) (seq 0 (Z.to_nat (c m))).

Definition col_of (m : Mat) (j : Z) : list float64 :=
  map (fun i => el m (Z.of_nat i) j) (seq 0 (Z.to_nat (r m))).

(** A nested slice whose rows all have [w] values ("not jagged"). *)
Definition rectangular (v : list (list float64)) (w : Z) : Prop :=
  forall i vi, v !! i = Some vi -> len vi = w.

(** The value of row [i], column [j] of a nested slice. *)
Definition nested_el (v : list (list float64)) (i j : Z) : float64 :=
  match v !! Z.to_nat i with
  | Some vi => default F64.zero (vi !! Z.to_nat j)
  | None => F64.zero
  end.

(** * Properties *)

(** ** Integers that do not wrap *)

Lemma wrap_small (z : Z) : GoInt.in_range z -> GoInt.wrap z = z.
Proof.
  unfold GoInt.in_range, GoInt.min_int, GoInt.max_int, GoInt.wrap.
  intros Hz. rewrite Z.mod_small; lia.
Qed.

Lemma add_small (x y : Z) : GoInt.in_range (x + y) -> x +! y = x + y.
Proof. apply wrap_small. Qed.

Lemma sub_small (x y : Z) : GoInt.in_range (x - y) -> x -! y = x - y.
Proof. apply wrap_small. Qed.

Lemma mul_small (x y : Z) : GoInt.in_range (x * y) -> x *! y = x * y.
Proof. apply wrap_small. Qed.

Lemma neg_small (x : Z) : GoInt.in_range (- x) -> GoInt.neg x = - x.
Proof. apply wrap_small. Qed.

Lemma in_range_intro (z : Z) : - 2 ^ 63 <= z <= 2 ^ 63 - 1 -> GoInt.in_range z.
Proof. intros Hz. exact Hz. Qed.

(** A linear index [i * w + j] into [h] rows of width [w]. *)
Lemma cell_bounds (h w i j : Z) :
  0 <= i < h -> 0 <= j < w -> 0 <= i * w /\ i * w + j < h * w /\ 0 <= i * w + j.
Proof. intros Hi Hj. nia. Qed.

Lemma cell_index (h w i j : Z) :
  0 <= i < h -> 0 <= j < w -> h * w <= GoInt.max_int ->
  i *! w +! j = i * w + j.
Proof.
  intros Hi Hj Hmax.
  destruct (cell_bounds h w i j Hi Hj) as (H1 & H2 & H3).
  assert (Hiw : i * w <= i * w + j) by lia.
  rewrite mul_small, add_small; [reflexivity | |];
    apply in_range_intro; unfold GoInt.max_int in Hmax; lia.
Qed.

(** The element of a cell within a well-formed matrix. *)
Lemma el_at (m : Mat) (i j : Z) (x : float64) :
  vals m !! Z.to_nat (i * c m + j) = Some x -> el m i j = x.
Proof. intros Hx. unfold el, cell. rewrite Hx. reflexivity. Qed.

Lemma el_cell (mm : Mat) (i j : Z) :
  wf mm -> 0 <= i < r mm -> 0 <= j < c mm -> cell mm i j = Some (el mm i j).
Proof.
  intros [Hr Hc Hlen Hfit] Hi Hj. unfold el, cell.
  destruct (cell_bounds (r mm) (c mm) i j Hi Hj) as (B1 & B2 & B3).
  destruct (lookup_lt_is_Some_2 (vals mm) (Z.to_nat (i * c mm + j))) as [x Hx];
    [unfold len in Hlen; lia|].
  rewrite Hx. reflexivity.
Qed.

(** ** Running computations *)

Section Running.

Context {A B : Type}.

Lemma bind_done (m : M A) (k : A -> M B) (h h' : heap) (a : A) :
  m h = Done a h' -> (x <- m ;; k x) h = k a h'.
Proof. intros Hm. unfold bind. rewrite Hm. reflexivity. Qed.

Lemma bind_exit (m : M A) (k : A -> M B) (h h' : heap) (e : failure) :
  m h = Exit e h' -> (x <- m ;; k x) h = Exit e h'.
Proof. intros Hm. unfold bind. rewrite Hm. reflexivity. Qed.

End Running.

(** One step of a run: replace the first computation of a sequence by its
    outcome. *)
Ltac run H := rewrite (bind_done _ _ _ _ _ H).

Lemma exit_if_pass (cond : bool) (e : failure) (h : heap) :
  cond = false -> exit_if cond e h = Done tt h.
Proof. intros ->. reflexivity. Qed.

Lemma exit_if_fail (cond : bool) (e : failure) (h : heap) :
  cond = true -> exit_if cond e h = Exit e h.
Proof. intros ->. reflexivity. Qed.

Lemma deref_at (h : heap) (p : loc) (m : Mat) :
  h !! p = Some m -> deref p h = Done m h.
Proof. intros Hp. unfold deref. rewrite Hp. reflexivity. Qed.

Lemma get_r_at (h : heap) (p : loc) (m : Mat) :
  h !! p = Some m -> get_r p h = Done (r m) h.
Proof. intros Hp. unfold get_r. rewrite (bind_done _ _ _ _ _ (deref_at _ _ _ Hp)). reflexivity. Qed.

Lemma get_c_at (h : heap) (p : loc) (m : Mat) :
  h !! p = Some m -> get_c p h = Done (c m) h.
Proof. intros Hp. unfold get_c. rewrite (bind_done _ _ _ _ _ (deref_at _ _ _ Hp)). reflexivity. Qed.

Lemma get_vals_at (h : heap) (p : loc) (m : Mat) :
  h !! p = Some m -> get_vals p h = Done (vals m) h.
Proof. intros Hp. unfold get_vals. rewrite (bind_done _ _ _ _ _ (deref_at _ _ _ Hp)). reflexivity. Qed.

Lemma assign_at (h : heap) (p : loc) (m m' : Mat) :
  h !! p = Some m -> assign p m' h = Done tt (<[p := m']> h).
Proof. intros Hp. unfold assign. rewrite Hp. reflexivity. Qed.

Lemma set_r_at (h : heap) (p : loc) (m : Mat) (z : Z) :
  h !! p = Some m -> set_r p z h = Done tt (<[p := mkMat z (c m) (vals m)]> h).
Proof.
  intros Hp. unfold set_r. rewrite (bind_done _ _ _ _ _ (deref_at _ _ _ Hp)).
  apply (assign_at _ _ _ _ Hp).
Qed.

Lemma set_c_at (h : heap) (p : loc) (m : Mat) (z : Z) :
  h !! p = Some m -> set_c p z h = Done tt (<[p := mkMat (r m) z (vals m)]> h).
Proof.
  intros Hp. unfold set_c. rewrite (bind_done _ _ _ _ _ (deref_at _ _ _ Hp)).
  apply (assign_at _ _ _ _ Hp).
Qed.

Lemma set_vals_at (h : heap) (p : loc) (m : Mat) (l : list float64) :
  h !! p = Some m -> set_vals p l h = Done tt (<[p := mkMat (r m) (c m) l]> h).
Proof.
  intros Hp. unfold set_vals. rewrite (bind_done _ _ _ _ _ (deref_at _ _ _ Hp)).
  apply (assign_at _ _ _ _ Hp).
Qed.

Lemma index_at {A : Type} (s : list A) (i : Z) (x : A) (h : heap) :
  0 <= i -> s !! Z.to_nat i = Some x -> index s i h = Done x h.
Proof.
  intros Hi Hx. unfold index, len.
  assert (Hlt : (Z.to_nat i < length s)%nat) by (eapply lookup_lt_Some; eauto).
  assert (H1 : (0 <=? i) = true) by lia.
  assert (H2 : (i <? Z.of_nat (length s)) = true) by lia.
  rewrite H1, H2, Hx. reflexivity.
Qed.

Lemma index_out {A : Type} (s : list A) (i : Z) (h : heap) :
  i < 0 \/ len s <= i -> index s i h = Exit RuntimePanic h.
Proof.
  intros Hi. unfold index.
  destruct ((0 <=? i) && (i <? len s)) eqn:E; [lia | reflexivity].
Qed.

Lemma update_at {A : Type} (s : list A) (i : Z) (x : A) (h : heap) :
  0 <= i < len s -> update s i x h = Done (<[Z.to_nat i := x]> s) h.
Proof.
  intros Hi. unfold update.
  destruct ((0 <=? i) && (i <? len s)) eqn:E; [reflexivity | lia].
Qed.

Lemma update_out {A : Type} (s : list A) (i : Z) (x : A) (h : heap) :
  i < 0 \/ len s <= i -> update s i x h = Exit RuntimePanic h.
Proof.
  intros Hi. unfold update.
  destruct ((0 <=? i) && (i <? len s)) eqn:E; [lia | reflexivity].
Qed.

Lemma load_at (h : heap) (p : loc) (m : Mat) (i : Z) (x : float64) :
  h !! p = Some m -> 0 <= i -> vals m !! Z.to_nat i = Some x ->
  load p i h = Done x h.
Proof.
  intros Hp Hi Hx. unfold load.
  rewrite (bind_done _ _ _ _ _ (get_vals_at _ _ _ Hp)).
  apply index_at; assumption.
Qed.

Lemma load_out (h : heap) (p : loc) (m : Mat) (i : Z) :
  h !! p = Some m -> i < 0 \/ len (vals m) <= i ->
  load p i h = Exit RuntimePanic h.
Proof.
  intros Hp Hi. unfold load.
  rewrite (bind_done _ _ _ _ _ (get_vals_at _ _ _ Hp)).
  apply index_out; assumption.
Qed.

Lemma store_at (h : heap) (p : loc) (m : Mat) (i : Z) (x : float64) :
  h !! p = Some m -> 0 <= i < len (vals m) ->
  store p i x h = Done tt (<[p := mkMat (r m) (c m) (<[Z.to_nat i := x]> (vals m))]> h).
Proof.
  intros Hp Hi. unfold store.
  rewrite (bind_done _ _ _ _ _ (get_vals_at _ _ _ Hp)).
  rewrite (bind_done _ _ _ _ _ (update_at _ _ _ _ Hi)).
  apply (set_vals_at _ _ _ _ Hp).
Qed.

Lemma store_out (h : heap) (p : loc) (m : Mat) (i : Z) (x : float64) :
  h !! p = Some m -> i < 0 \/ len (vals m) <= i ->
  store p i x h = Exit RuntimePanic h.
Proof.
  intros Hp Hi. unfold store.
  rewrite (bind_done _ _ _ _ _ (get_vals_at _ _ _ Hp)).
  rewrite (bind_exit _ _ _ _ _ (update_out _ _ _ _ Hi)).
  reflexivity.
Qed.

Lemma make_ok (n cap : Z) (h : heap) :
  0 <= n <= cap -> make n cap h = Done (replicate (Z.to_nat n) F64.zero) h.
Proof.
  intros Hn. unfold make.
  destruct ((n <? 0) || (cap <? n)) eqn:E; [lia | reflexivity].
Qed.

Lemma len_replicate {A : Type} (n : Z) (x : A) :
  0 <= n -> len (replicate (Z.to_nat n) x) = n.
Proof. intros Hn. unfold len. rewrite length_replicate. lia. Qed.

Lemma len_insert {A : Type} (s : list A) (i : nat) (x : A) :
  len (<[i := x]> s) = len s.
Proof. unfold len. rewrite length_insert. reflexivity. Qed.

(** ** Loop invariants *)

Lemma for_loop_inv {S : Type} (I : Z -> S -> heap -> Prop)
    (body : Z -> S -> M S) (n : nat) (i0 : Z) (s : S) (h : heap) :
  I i0 s h ->
  (forall i s h, i0 <= i < i0 + Z.of_nat n -> I i s h ->
     exists s' h', body i s h = Done s' h' /\ I (i + 1) s' h') ->
  exists s' h', for_loop n i0 body s h = Done s' h' /\ I (i0 + Z.of_nat n) s' h'.
Proof.
  revert i0 s h. induction n as [|n IH]; intros i0 s h H0 Hstep.
  - exists s, h. split; [reflexivity|]. replace (i0 + Z.of_nat 0) with i0 by lia. exact H0.
  - destruct (Hstep i0 s h) as (s1 & h1 & Hb & H1); [lia | exact H0 |].
    destruct (IH (i0 + 1) s1 h1 H1) as (s2 & h2 & Hl & H2).
    { intros i s' h' Hi HI. apply Hstep; [lia | exact HI]. }
    exists s2, h2. split.
    + simpl. rewrite (bind_done _ _ _ _ _ Hb). exact Hl.
    + replace (i0 + Z.of_nat (Datatypes.S n)) with (i0 + 1 + Z.of_nat n) by lia. exact H2.
Qed.

Lemma for_upto_inv {S : Type} (I : Z -> S -> heap -> Prop)
    (body : Z -> S -> M S) (hi : Z) (s : S) (h : heap) :
  0 <= hi ->
  I 0 s h ->
  (forall i s h, 0 <= i < hi -> I i s h ->
     exists s' h', body i s h = Done s' h' /\ I (i + 1) s' h') ->
  exists s' h', for_upto hi body s h = Done s' h' /\ I hi s' h'.
Proof.
  intros Hhi H0 Hstep. unfold for_upto.
  destruct (for_loop_inv I body (Z.to_nat hi) 0 s h H0) as (s' & h' & Hl & HI).
  { intros i s1 h1 Hi. apply Hstep. lia. }
  exists s', h'. split; [exact Hl|].
  replace hi with (0 + Z.of_nat (Z.to_nat hi)) at 1 by lia. exact HI.
Qed.

Lemma for_upto_none {S : Type} (body : Z -> S -> M S) (hi : Z) (s : S) (h : heap) :
  hi <= 0 -> for_upto hi body s h = Done s h.
Proof.
  intros Hhi. unfold for_upto.
  replace (Z.to_nat hi) with 0%nat by lia. reflexivity.
Qed.

Lemma for_range_inv {A S : Type} (I : Z -> S -> heap -> Prop) (l : list A)
    (body : Z -> S -> M S) (s : S) (h : heap) :
  I 0 s h ->
  (forall i s h, 0 <= i < len l -> I i s h ->
     exists s' h', body i s h = Done s' h' /\ I (i + 1) s' h') ->
  exists s' h', for_range l body s h = Done s' h' /\ I (len l) s' h'.
Proof.
  intros H0 Hstep. unfold for_range.
  destruct (for_loop_inv I body (length l) 0 s h H0) as (s' & h' & Hl & HI).
  { intros i s1 h1 Hi. apply Hstep. unfold len. lia. }
  exists s', h'. split; [exact Hl|]. exact HI.
Qed.

Lemma for_return_none {R : Type} (body : Z -> M (option R)) (after : M R)
    (n : nat) (i0 : Z) (h : heap) :
  (forall i, i0 <= i < i0 + Z.of_nat n -> body i h = Done None h) ->
  for_return n i0 body after h = after h.
Proof.
  revert i0. induction n as [|n IH]; intros i0 Hb; [reflexivity|].
  simpl. rewrite (bind_done _ _ _ _ _ (Hb i0 ltac:(lia))).
  apply IH. intros i Hi. apply Hb. lia.
Qed.

Lemma for_return_some {R : Type} (body : Z -> M (option R)) (after : M R)
    (n : nat) (i0 k : Z) (v : R) (h : heap) :
  i0 <= k < i0 + Z.of_nat n ->
  (forall i, i0 <= i < k -> body i h = Done None h) ->
  body k h = Done (Some v) h ->
  for_return n i0 body after h = Done v h.
Proof.
  revert i0. induction n as [|n IH]; intros i0 Hk Hb Hv; [lia|].
  simpl. destruct (decide (i0 = k)) as [->|Hne].
  - rewrite (bind_done _ _ _ _ _ Hv). reflexivity.
  - rewrite (bind_done _ _ _ _ _ (Hb i0 ltac:(lia))).
    apply IH; [lia | | exact Hv]. intros i Hi. apply Hb. lia.
Qed.

(** ** [Set] and [At] *)

(** [Set] writes the linear index [row * r + col]: the row is scaled by the
    number of rows. *)
Lemma Set_writes (h : heap) (m : loc) (mm : Mat) (row col : Z) (val : float64) :
  h !! m = Some mm ->
  GoInt.in_range (row * r mm) -> GoInt.in_range (row * r mm + col) ->
  0 <= row * r mm + col < len (vals mm) ->
  Set_ m row col val h =
    Done m (<[m := mkMat (r mm) (c mm)
                     (<[Z.to_nat (row * r mm + col) := val]> (vals mm))]> h).
Proof.
  intros Hm H1 H2 Hin. unfold Set_.
  rewrite (bind_done _ _ _ _ _ (get_r_at _ _ _ Hm)).
  rewrite mul_small, add_small by assumption.
  rewrite (bind_done _ _ _ _ _ (store_at _ _ _ _ val Hm Hin)).
  reflexivity.
Qed.

(** On a square matrix the two indices agree, and [At] reads what [Set]
    wrote. *)
Lemma Set_At_square (h : heap) (m : loc) (mm : Mat) (row col : Z) (val : float64) :
  h !! m = Some mm -> wf mm -> r mm = c mm ->
  0 <= row < r mm -> 0 <= col < c mm ->
  (p <- Set_ m row col val ;; At p row col) h =
    Done val (<[m := mkMat (r mm) (c mm)
                       (<[Z.to_nat (row * c mm + col) := val]> (vals mm))]> h).
Proof.
  intros Hm [Hr Hc Hlen Hfit] Hsq Hrow Hcol.
  destruct mm as [n n' vs]. simpl in *. subst n'.
  destruct (cell_bounds n n row col Hrow Hcol) as (B1 & B2 & B3).
  unfold GoInt.max_int in *.
  rewrite (bind_done _ _ _ _ _
    (Set_writes h m _ row col val Hm ltac:(apply in_range_intro; simpl; lia)
       ltac:(apply in_range_intro; simpl; lia) ltac:(simpl; lia))).
  simpl. set (mm' := mkMat _ _ _). set (h' := <[m := mm']> h).
  assert (Hm' : h' !! m = Some mm').
  { apply list_lookup_insert_eq. eapply lookup_lt_Some, Hm. }
  unfold At. rewrite (bind_done _ _ _ _ _ (get_c_at _ _ _ Hm')). simpl.
  rewrite mul_small, add_small by (apply in_range_intro; lia).
  apply (load_at _ _ _ _ _ Hm'); [lia|]. simpl.
  apply list_lookup_insert_eq. unfold len in Hlen. lia.
Qed.

(** C1.  On a 2-by-3 matrix [Set(1, 2, 9)] writes the linear index
    [1*2 + 2 = 4], not [1*3 + 2 = 5]: the value lands in row 1, column 1,
    and [At(1, 2)] still reads the old 6. *)
Theorem Set_At_non_square :
  (p <- Set_ 0%nat 1 2 (fl 9) ;; At p 1 2) [matrix 2 3 [1; 2; 3; 4; 5; 6]]
  = Done (fl 6) [matrix 2 3 [1; 2; 3; 4; 9; 6]].
Proof. vm_compute. reflexivity. Qed.

(** ** [Equals] *)

Lemma eqb_self (x : float64) : F64.eqb x x = negb (F64.is_nan x).
Proof.
  destruct x as [s| s | |s m e]; unfold F64.eqb, SFeqb; simpl; try reflexivity.
  - destruct s; reflexivity.
  - rewrite Z.compare_refl, Pos.compare_cont_refl. destruct s; reflexivity.
Qed.

Lemma Equals_loop (h : heap) (m n : loc) (mm mn : Mat) (k : nat) (i0 : Z) :
  h !! m = Some mm -> h !! n = Some mn ->
  0 <= i0 ->
  i0 + Z.of_nat k <= len (vals mm) -> i0 + Z.of_nat k <= len (vals mn) ->
  exists b,
    for_return k i0 (fun i =>
        x <- load m i ;;
        y <- load n i ;;
        if F64.neqb x y then ret (Some false) else ret None)
      (ret true) h = Done b h /\
    (b = true <->
     forall i x y, i0 <= i < i0 + Z.of_nat k ->
       vals mm !! Z.to_nat i = Some x -> vals mn !! Z.to_nat i = Some y ->
       F64.eqb x y = true).
Proof.
  intros Hm Hn. revert i0. induction k as [|k IH]; intros i0 H0 Hkm Hkn.
  - exists true. split; [reflexivity|]. split; [intros _ i x y Hi; lia | reflexivity].
  - unfold len in Hkm, Hkn.
    destruct (lookup_lt_is_Some_2 (vals mm) (Z.to_nat i0)) as [x Hx]; [lia|].
    destruct (lookup_lt_is_Some_2 (vals mn) (Z.to_nat i0)) as [y Hy]; [lia|].
    assert (Hbody :
      (x <- load m i0 ;; y <- load n i0 ;;
       if F64.neqb x y then ret (Some false) else ret None) h
      = Done (if F64.eqb x y then None else Some false) h).
    { run (load_at _ _ _ _ _ Hm H0 Hx). run (load_at _ _ _ _ _ Hn H0 Hy).
      unfold F64.neqb, F64.eqb. destruct (SFeqb x y); reflexivity. }
    cbn [for_return]. run Hbody.
    destruct (F64.eqb x y) eqn:Exy.
    + destruct (IH (i0 + 1)) as (b & Hb & Hiff); [lia | unfold len; lia | unfold len; lia |].
      exists b. split; [exact Hb|]. rewrite Hiff. split.
      * intros Hall i x' y' Hi Hx' Hy'.
        destruct (decide (i = i0)) as [->|Hne].
        -- rewrite Hx in Hx'. rewrite Hy in Hy'. congruence.
        -- apply (Hall i); [lia | assumption | assumption].
      * intros Hall i x' y' Hi. apply Hall. lia.
    + exists false. split; [reflexivity|]. split; [discriminate|].
      intros Hall. rewrite (Hall i0 x y) in Exy; [discriminate | lia | assumption | assumption].
Qed.

Lemma Equals_iff (h : heap) (p q : loc) (mp mq : Mat) :
  h !! p = Some mp -> h !! q = Some mq -> wf mp -> wf mq ->
  exists b, Equals p q h = Done b h /\
    (b = true <-> r mp = r mq /\ c mp = c mq /\
      forall i x y, vals mp !! i = Some x -> vals mq !! i = Some y ->
        F64.eqb x y = true).
Proof.
  intros Hp Hq [Hr Hc Hlen Hfit] [Hr' Hc' Hlen' Hfit'].
  unfold Equals.
  run (get_r_at _ _ _ Hp). run (get_r_at _ _ _ Hq).
  destruct (r mp =? r mq) eqn:Er; simpl.
  2:{ exists false. split; [reflexivity|]. split; [discriminate|]. intros (E & _). lia. }
  run (get_c_at _ _ _ Hp). run (get_c_at _ _ _ Hq).
  destruct (c mp =? c mq) eqn:Ec; simpl.
  2:{ exists false. split; [reflexivity|]. split; [discriminate|]. intros (_ & E & _). lia. }
  assert (Er' : r mp = r mq) by lia. assert (Ec' : c mp = c mq) by lia.
  assert (Hpos : 0 <= r mp * c mp) by nia.
  rewrite mul_small by (apply in_range_intro; unfold GoInt.max_int in *; lia).
  destruct (Equals_loop h p q mp mq (Z.to_nat (r mp * c mp)) 0 Hp Hq) as (b & Hb & Hiff);
    [lia | lia | rewrite Hlen', <- Er', <- Ec'; lia |].
  exists b. split; [exact Hb|]. rewrite Hiff. split.
  - intros Hall. split; [exact Er'|]. split; [exact Ec'|].
    intros i x y Hx Hy. apply (Hall (Z.of_nat i)).
    + apply lookup_lt_Some in Hx. unfold len in Hlen. lia.
    + rewrite Nat2Z.id. exact Hx.
    + rewrite Nat2Z.id. exact Hy.
  - intros (_ & _ & Hall) i x y _ Hx Hy. exact (Hall _ _ _ Hx Hy).
Qed.

(** Two objects with the same dimensions and values (or one object taken
    twice) are [Equals] exactly when no value is a NaN. *)
Lemma Equals_same (h : heap) (p q : loc) (mp : Mat) :
  h !! p = Some mp -> h !! q = Some mp -> wf mp ->
  (no_nan mp -> Equals p q h = Done true h) /\
  (has_nan mp -> Equals p q h = Done false h).
Proof.
  intros Hp Hq Wp.
  destruct (Equals_iff h p q mp mp Hp Hq Wp Wp) as (b & Hb & Hiff).
  split.
  - intros Hno. rewrite Hb. f_equal. apply Hiff.
    split; [reflexivity|]. split; [reflexivity|].
    intros i x y Hx Hy. rewrite Hx in Hy. injection Hy as <-.
    rewrite eqb_self, (Hno i x Hx). reflexivity.
  - intros [i Hi]. rewrite Hb. f_equal.
    destruct b; [|reflexivity].
    destruct Hiff as [Hall _]. destruct (Hall eq_refl) as (_ & _ & Hall').
    discriminate (Hall' i _ _ Hi Hi).
Qed.

(** C10.  [Equals] is true exactly when the rows agree, the columns agree
    and the values at every linear index are equal as floating-point
    numbers; a matrix without NaN equals itself, a matrix with a NaN does
    not. *)
Theorem Equals_exact (h : heap) (m n : loc) (mm mn : Mat) :
  h !! m = Some mm -> h !! n = Some mn -> wf mm -> wf mn ->
  (exists b,
     Equals m n h = Done b h /\
     (b = true <->
      r mm = r mn /\ c mm = c mn /\
      forall i x y, vals mm !! i = Some x -> vals mn !! i = Some y ->
        F64.eqb x y = true)) /\
  (no_nan mm -> Equals m m h = Done true h) /\
  (has_nan mm -> Equals m m h = Done false h).
Proof.
  intros Hm Hn Wm Wn.
  split; [exact (Equals_iff h m n mm mn Hm Hn Wm Wn)|].
  exact (Equals_same h m m mm Hm Hm Wm).
Qed.

(** ** Element-wise arithmetic *)

Lemma combined_0 (op : float64 -> float64 -> float64) (vm vn : list float64) :
  combined op vm vn 0 = vm.
Proof. unfold combined. rewrite !take_0, drop_0. reflexivity. Qed.

Lemma combined_all (op : float64 -> float64 -> float64) (vm vn : list float64) :
  length vm = length vn ->
  combined op vm vn (length vm) = zip_with op vm vn.
Proof.
  intros Hl. unfold combined.
  rewrite firstn_all, drop_all, app_nil_r, Hl, firstn_all. reflexivity.
Qed.

Lemma combined_length (op : float64 -> float64 -> float64) (vm vn : list float64) (i : nat) :
  (i <= length vm)%nat -> (i <= length vn)%nat ->
  length (combined op vm vn i) = length vm.
Proof.
  intros H1 H2. unfold combined.
  rewrite length_app, length_zip_with, !length_take, length_drop. lia.
Qed.

Lemma combined_lookup (op : float64 -> float64 -> float64) (vm vn : list float64) (i : nat) :
  (i <= length vn)%nat ->
  combined op vm vn i !! i = vm !! i.
Proof.
  intros H2. unfold combined.
  destruct (decide (i <= length vm)%nat) as [H1|H1].
  - assert (Hz : length (zip_with op (take i vm) (take i vn)) = i).
    { rewrite length_zip_with, !length_take. lia. }
    rewrite lookup_app_r by lia. rewrite Hz, Nat.sub_diag.
    rewrite lookup_drop. f_equal. lia.
  - rewrite (lookup_ge_None_2 vm) by lia.
    apply lookup_ge_None_2.
    rewrite length_app, length_zip_with, !length_take, length_drop. lia.
Qed.

Lemma combined_step (op : float64 -> float64 -> float64) (vm vn : list float64)
    (i : nat) (x y : float64) :
  vm !! i = Some x -> vn !! i = Some y ->
  <[i := op x y]> (combined op vm vn i) = combined op vm vn (Datatypes.S i).
Proof.
  intros Hx Hy. unfold combined.
  pose proof (lookup_lt_Some _ _ _ Hx) as Lx.
  pose proof (lookup_lt_Some _ _ _ Hy) as Ly.
  assert (Hlen : length (zip_with op (take i vm) (take i vn)) = i).
  { rewrite length_zip_with, !length_take. lia. }
  rewrite insert_app_r_alt by lia. rewrite Hlen, Nat.sub_diag.
  rewrite (drop_S _ _ _ Hx). simpl.
  rewrite (take_S_r _ _ _ Hx), (take_S_r _ _ _ Hy).
  rewrite zip_with_app by (rewrite !length_take; lia).
  simpl. rewrite <- app_assoc. reflexivity.
Qed.

Lemma arith_matrix_loop (op : float64 -> float64 -> float64)
    (h : heap) (m n : loc) (mm mn : Mat) :
  h !! m = Some mm -> h !! n = Some mn ->
  length (vals mm) = length (vals mn) ->
  for_range (vals mm) (fun i (_ : unit) =>
      x <- load m i ;;
      y <- load n i ;;
      store m i (op x y)) tt h
  = Done tt (<[m := mkMat (r mm) (c mm) (zip_with op (vals mm) (vals mn))]> h).
Proof.
  intros Hm Hn Hlen.
  set (state := fun i : Z =>
    <[m := mkMat (r mm) (c mm) (combined op (vals mm) (vals mn) (Z.to_nat i))]> h).
  destruct (for_range_inv (fun i (_ : unit) hi => hi = state i) (vals mm)
    (fun i (_ : unit) => x <- load m i ;; y <- load n i ;; store m i (op x y)) tt h)
    as ([] & h' & Hrun & Hh').
  - unfold state. simpl. rewrite combined_0.
    symmetry. apply list_insert_id. destruct mm; exact Hm.
  - intros i [] hi Hi ->. unfold len in Hi.
    pose proof (lookup_lt_Some _ _ _ Hm) as Lm.
    destruct (lookup_lt_is_Some_2 (vals mm) (Z.to_nat i)) as [x Hx]; [lia|].
    destruct (lookup_lt_is_Some_2 (vals mn) (Z.to_nat i)) as [y Hy]; [lia|].
    assert (Hsm : state i !! m = Some (mkMat (r mm) (c mm)
               (combined op (vals mm) (vals mn) (Z.to_nat i)))).
    { unfold state. apply list_lookup_insert_eq. exact Lm. }
    assert (Hcl : combined op (vals mm) (vals mn) (Z.to_nat i) !! Z.to_nat i = Some x).
    { rewrite combined_lookup by lia. exact Hx. }
    assert (Hsn : load n i (state i) = Done y (state i)).
    { destruct (decide (n = m)) as [->|Hne].
      - apply (load_at _ _ _ _ _ Hsm); [lia|]. simpl.
        rewrite combined_lookup by lia.
        rewrite Hm in Hn. injection Hn as <-. exact Hy.
      - apply (load_at _ _ mn); [|lia|exact Hy].
        unfold state. cbv beta. rewrite list_lookup_insert_ne by congruence. exact Hn. }
    exists tt. eexists. split.
    + run (load_at _ _ _ _ _ Hsm (proj1 Hi) Hcl). run Hsn.
      apply (store_at _ _ _ _ _ Hsm). simpl. unfold len.
      rewrite combined_length by lia. lia.
    + simpl. unfold state. cbv beta. rewrite list_insert_insert_eq.
      rewrite (combined_step op _ _ _ _ _ Hx Hy).
      replace (Z.to_nat (i + 1)) with (Datatypes.S (Z.to_nat i)) by lia.
      reflexivity.
  - rewrite Hrun, Hh'. unfold state, len. rewrite Nat2Z.id.
    rewrite combined_all by exact Hlen. reflexivity.
Qed.

Lemma arith_same_shape (op : float64 -> float64 -> float64)
    (h : heap) (m n : loc) (mm mn : Mat) :
  h !! m = Some mm -> h !! n = Some mn -> shaped mm -> shaped mn ->
  r mn = r mm -> c mn = c mm ->
  arith op m (OMat n) h
  = Done m (<[m := mkMat (r mm) (c mm) (zip_with op (vals mm) (vals mn))]> h).
Proof.
  intros Hm Hn Sm Sn Er Ec. unfold shaped in Sm, Sn.
  assert (Hlen : length (vals mm) = length (vals mn)).
  { unfold len in Sm, Sn. rewrite Er, Ec in Sn. lia. }
  unfold arith.
  run (get_r_at _ _ _ Hn). run (get_r_at _ _ _ Hm).
  run (exit_if_pass (negb (r mn =? r mm)) ShapeMismatch h ltac:(rewrite Er, Z.eqb_refl; reflexivity)).
  run (get_c_at _ _ _ Hn). run (get_c_at _ _ _ Hm).
  run (exit_if_pass (negb (c mn =? c mm)) ShapeMismatch h ltac:(rewrite Ec, Z.eqb_refl; reflexivity)).
  run (get_vals_at _ _ _ Hm).
  run (arith_matrix_loop op h m n mm mn Hm Hn Hlen).
  reflexivity.
Qed.

Lemma arith_other_shape (op : float64 -> float64 -> float64)
    (h : heap) (m n : loc) (mm mn : Mat) :
  h !! m = Some mm -> h !! n = Some mn ->
  r mn <> r mm \/ c mn <> c mm ->
  arith op m (OMat n) h = Exit ShapeMismatch h.
Proof.
  intros Hm Hn Hne. unfold arith.
  run (get_r_at _ _ _ Hn). run (get_r_at _ _ _ Hm).
  destruct (r mn =? r mm) eqn:Er.
  - run (exit_if_pass (negb true) ShapeMismatch h eq_refl).
    run (get_c_at _ _ _ Hn). run (get_c_at _ _ _ Hm).
    rewrite (bind_exit _ _ _ _ _ (exit_if_fail (negb (c mn =? c mm)) ShapeMismatch h ltac:(lia))).
    reflexivity.
  - rewrite (bind_exit _ _ _ _ _ (exit_if_fail (negb false) ShapeMismatch h eq_refl)).
    reflexivity.
Qed.

(** C3.  [Add], [Sub], [Mul] and [Div] with a matrix of the same shape
    combine the values index by index in the receiver's own buffer and
    return the receiver (which may be the operand itself); with another
    shape they exit with [ShapeMismatch] and the store is as it was. *)
Theorem elementwise_in_place
    (meth : loc -> operand -> M loc) (op : float64 -> float64 -> float64)
    (h : heap) (m n : loc) (mm mn : Mat) :
  In (meth, op) operators ->
  h !! m = Some mm -> h !! n = Some mn -> shaped mm -> shaped mn ->
  (r mn = r mm -> c mn = c mm ->
   let result := mkMat (r mm) (c mm) (zip_with op (vals mm) (vals mn)) in
   meth m (OMat n) h = Done m (<[m := result]> h) /\
   length (vals result) = length (vals mm) /\
   forall i x y, vals mm !! i = Some x -> vals mn !! i = Some y ->
     vals result !! i = Some (op x y)) /\
  (r mn <> r mm \/ c mn <> c mm ->
   meth m (OMat n) h = Exit ShapeMismatch h).
Proof.
  intros Hop Hm Hn Sm Sn.
  assert (Hmeth : meth = arith op).
  { unfold operators in Hop. simpl in Hop.
    destruct Hop as [E|[E|[E|[E|[]]]]]; injection E as <- <-; reflexivity. }
  subst meth. split.
  - intros Er Ec result. split; [|split].
    + exact (arith_same_shape op h m n mm mn Hm Hn Sm Sn Er Ec).
    + simpl. rewrite length_zip_with.
      unfold shaped, len in Sm, Sn. rewrite Er, Ec in Sn. lia.
    + intros i x y Hx Hy. simpl. rewrite lookup_zip_with, Hx, Hy. reflexivity.
  - exact (arith_other_shape op h m n mm mn Hm Hn).
Qed.

(** Well-formedness of a matrix that is written out. *)
Ltac concrete_wf := constructor; unfold GoInt.max_int, len; simpl; lia.

Lemma elementwise_in_place_witness :
  Add 0%nat (OMat 1%nat) [matrix 1 2 [1; 2]; matrix 1 2 [10; 20]]
  = Done 0%nat [matrix 1 2 [11; 22]; matrix 1 2 [10; 20]].
Proof.
  pose proof (elementwise_in_place Add F64.add
    [matrix 1 2 [1; 2]; matrix 1 2 [10; 20]] 0%nat 1%nat
    (matrix 1 2 [1; 2]) (matrix 1 2 [10; 20])
    ltac:(simpl; tauto) eq_refl eq_refl eq_refl eq_refl) as [Hsame _].
  destruct (Hsame eq_refl eq_refl) as [Hrun _].
  rewrite Hrun. vm_compute. reflexivity.
Defined.

Lemma Equals_exact_witness :
  Equals 0%nat 0%nat [matrix 2 2 [1; 2; 3; 4]]
  = Done true [matrix 2 2 [1; 2; 3; 4]].
Proof.
  assert (W : wf (matrix 2 2 [1; 2; 3; 4])) by concrete_wf.
  destruct (Equals_exact [matrix 2 2 [1; 2; 3; 4]] 0%nat 0%nat
    (matrix 2 2 [1; 2; 3; 4]) (matrix 2 2 [1; 2; 3; 4]) eq_refl eq_refl W W)
    as (_ & Hrefl & _).
  apply Hrefl. intros i x.
  do 4 (destruct i as [|i]; [intros [= <-]; reflexivity|]).
  discriminate.
Defined.

(** ** Division by a matrix with a zero *)

Lemma Any_loop (h : heap) (p : loc) (mp : Mat) (f : float64 -> bool)
    (k : nat) (i0 : Z) :
  h !! p = Some mp -> 0 <= i0 -> i0 + Z.of_nat k = len (vals mp) ->
  for_return k i0 (fun i =>
      x <- load p i ;;
      if f x then ret (Some true) else ret None)
    (ret false) h
  = Done (existsb f (drop (Z.to_nat i0) (vals mp))) h.
Proof.
  intros Hp. revert i0. induction k as [|k IH]; intros i0 H0 Hk; unfold len in Hk.
  - rewrite drop_ge by lia. reflexivity.
  - destruct (lookup_lt_is_Some_2 (vals mp) (Z.to_nat i0)) as [x Hx]; [lia|].
    rewrite (drop_S _ _ _ Hx). cbn [for_return existsb].
    assert (Hbody : (x <- load p i0 ;; if f x then ret (Some true) else ret None) h
                    = Done (if f x then Some true else None) h).
    { run (load_at _ _ _ _ _ Hp H0 Hx). destruct (f x); reflexivity. }
    run Hbody. destruct (f x); [reflexivity|].
    rewrite IH by (unfold len; lia).
    replace (Z.to_nat (i0 + 1)) with (Datatypes.S (Z.to_nat i0)) by lia.
    reflexivity.
Qed.

Lemma Any_exists (h : heap) (p : loc) (mp : Mat) (f : float64 -> bool) :
  h !! p = Some mp -> Any p f h = Done (existsb f (vals mp)) h.
Proof.
  intros Hp. unfold Any. run (get_vals_at _ _ _ Hp).
  rewrite (Any_loop h p mp f (length (vals mp)) 0 Hp); [reflexivity | lia | reflexivity].
Qed.

(** The earlier [Div] looks for a zero in the divisor first and exits
    before it has written anything. *)
Lemma Legacy_Div_zero (h : heap) (m n : loc) (mm mn : Mat) :
  h !! m = Some mm -> h !! n = Some mn ->
  r mm = r mn -> c mm = c mn ->
  (exists i x, vals mn !! i = Some x /\ F64.eqb x F64.zero = true) ->
  Legacy.Div m n h = Exit DivisionByZero h.
Proof.
  intros Hm Hn Er Ec (i & x & Hx & Hz). unfold Legacy.Div.
  run (get_r_at _ _ _ Hm). run (get_r_at _ _ _ Hn).
  run (exit_if_pass (negb (r mm =? r mn)) ShapeMismatch h ltac:(rewrite Er, Z.eqb_refl; reflexivity)).
  run (get_c_at _ _ _ Hm). run (get_c_at _ _ _ Hn).
  run (exit_if_pass (negb (c mm =? c mn)) ShapeMismatch h ltac:(rewrite Ec, Z.eqb_refl; reflexivity)).
  run (Any_exists h n mn (fun x => F64.eqb x F64.zero) Hn).
  assert (Hany : existsb (fun x => F64.eqb x F64.zero) (vals mn) = true).
  { apply existsb_exists. exists x. split; [|exact Hz].
    apply list_elem_of_In. eapply list_elem_of_lookup_2, Hx. }
  rewrite Hany. reflexivity.
Qed.

(** The current [Div] returns for every divisor of the receiver's shape,
    zeros or not: each value is the quotient that the floating-point
    division gives. *)
Lemma Div_always_divides (h : heap) (m n : loc) (mm mn : Mat) :
  h !! m = Some mm -> h !! n = Some mn -> shaped mm -> shaped mn ->
  r mn = r mm -> c mn = c mm ->
  Div m (OMat n) h
  = Done m (<[m := mkMat (r mm) (c mm) (zip_with F64.div (vals mm) (vals mn))]> h).
Proof. apply arith_same_shape. Qed.

(** C2.  The current [Div] has no test for zero: with a divisor that holds
    0.0 it divides all the same, the call returns, and the receiver holds
    an infinity (6/0) or a NaN (0/0, a matrix divided by itself). *)
Theorem Div_zero_divisor_divides :
  Div 0%nat (OMat 1%nat) [matrix 1 2 [6; 8]; matrix 1 2 [0; 2]]
  = Done 0%nat [mkMat 1 2 [S754_infinity false; fl 4]; matrix 1 2 [0; 2]] /\
  Div 0%nat (OMat 0%nat) [matrix 1 2 [0; 2]]
  = Done 0%nat [mkMat 1 2 [F64.nan; fl 1]].
Proof. split; vm_compute; reflexivity. Qed.

(** ** New objects *)

Lemma New_rect (h : heap) (a b : Z) :
  0 <= a -> 0 <= b -> 2 * (a * b) <= GoInt.max_int ->
  New [a; b] h
  = Done (length h) (h ++ [mkMat a b (replicate (Z.to_nat (a * b)) F64.zero)]).
Proof.
  intros Ha Hb Hfit. unfold New, GoInt.max_int in *.
  assert (Hab : 0 <= a * b) by nia.
  assert (E1 : a *! b = a * b) by (apply mul_small, in_range_intro; lia).
  assert (E2 : 2 *! a *! b = 2 * (a * b)).
  { destruct (decide (b = 0)) as [->|Hb0].
    - (* no column: [2*a] may wrap, the product with 0 is 0 *)
      unfold GoInt.mul at 1. rewrite Z.mul_0_r, Z.mul_0_r. reflexivity.
    - assert (E : 2 *! a = 2 * a) by (apply mul_small, in_range_intro; nia).
      rewrite E. rewrite mul_small by (apply in_range_intro; lia). lia. }
  rewrite E1, E2.
  run (make_ok (a * b) (2 * (a * b)) h ltac:(lia)).
  reflexivity.
Qed.

Lemma old_object (h : heap) (p : loc) (mp v : Mat) :
  h !! p = Some mp -> (h ++ [v]) !! p = Some mp.
Proof. intros Hp. apply lookup_app_l_Some. exact Hp. Qed.

Lemma new_object (h : heap) (v : Mat) : (h ++ [v]) !! length h = Some v.
Proof. rewrite lookup_app_r by lia. rewrite Nat.sub_diag. reflexivity. Qed.

Lemma new_object_insert (h : heap) (v v' : Mat) :
  <[length h := v']> (h ++ [v]) = h ++ [v'].
Proof. rewrite insert_app_r_alt by lia. rewrite Nat.sub_diag. reflexivity. Qed.

Lemma store_new (h : heap) (v : Mat) (i : Z) (x : float64) :
  0 <= i < len (vals v) ->
  store (length h) i x (h ++ [v])
  = Done tt (h ++ [mkMat (r v) (c v) (<[Z.to_nat i := x]> (vals v))]).
Proof.
  intros Hi. rewrite (store_at _ _ _ _ x (new_object h v) Hi).
  rewrite new_object_insert. reflexivity.
Qed.

(** ** [Col] *)

(** A loop that fills the new object [v] with [v.vals[i] = m.vals[g i m.c]]. *)
Lemma gather_loop (h : heap) (m : loc) (mm v0 : Mat) (g : Z -> Z -> Z) (n : Z) :
  h !! m = Some mm -> 0 <= n -> len (vals v0) = n ->
  (forall i, 0 <= i < n -> 0 <= g i (c mm) < len (vals mm)) ->
  exists v,
    for_upto n (fun i (_ : unit) =>
        mc <- get_c m ;;
        e <- load m (g i mc) ;;
        store (length h) i e) tt (h ++ [v0])
    = Done tt (h ++ [v]) /\
    r v = r v0 /\ c v = c v0 /\ len (vals v) = n /\
    forall i, 0 <= i < n ->
      vals v !! Z.to_nat i = vals mm !! Z.to_nat (g i (c mm)).
Proof.
  intros Hm Hn Hlen Hg.
  destruct (for_upto_inv
    (fun k (_ : unit) hk => exists v, hk = h ++ [v] /\
       r v = r v0 /\ c v = c v0 /\ len (vals v) = n /\
       forall i, 0 <= i < k ->
         vals v !! Z.to_nat i = vals mm !! Z.to_nat (g i (c mm)))
    (fun i (_ : unit) =>
        mc <- get_c m ;; e <- load m (g i mc) ;; store (length h) i e)
    n tt (h ++ [v0]) Hn) as ([] & h' & Hrun & v & -> & Hv).
  - exists v0. repeat split; try assumption. intros i Hi. lia.
  - intros k [] hk Hk (v & -> & Hr & Hc & Hl & Hvals).
    destruct (Hg k Hk) as [G0 G1]. unfold len in G1.
    destruct (lookup_lt_is_Some_2 (vals mm) (Z.to_nat (g k (c mm)))) as [e He]; [lia|].
    exists tt. eexists. split.
    + run (get_c_at _ _ _ (old_object h m mm v Hm)).
      run (load_at _ _ _ _ _ (old_object h m mm v Hm) G0 He).
      apply store_new. lia.
    + eexists. split; [reflexivity|]. simpl.
      rewrite len_insert. repeat split; try assumption.
      intros i Hi. destruct (decide (i = k)) as [->|Hne].
      * rewrite list_lookup_insert_eq by (unfold len in Hl; lia). symmetry. exact He.
      * rewrite list_lookup_insert_ne by lia. apply Hvals. lia.
  - exists v. split; [exact Hrun | exact Hv].
Qed.

(** C9.  [Col(x)] for [-cols <= x < cols] is a new [rows]-by-1 matrix, at a
    location that was not in the store, holding column [x], or column
    [cols + x] when [x] is negative; a negative index and its positive
    counterpart give the same matrix; any other [x] exits with
    [IndexOutOfRange]. *)
Theorem Col_negative_index (h : heap) (m : loc) (mm : Mat) (x : Z) :
  h !! m = Some mm -> wf mm ->
  (- c mm <= x < c mm ->
   exists col,
     Col m x h = Done (length h) (h ++ [col]) /\
     r col = r mm /\ c col = 1 /\ len (vals col) = r mm /\
     (forall i, 0 <= i < r mm ->
        vals col !! Z.to_nat i = cell mm i (if x >=? 0 then x else c mm + x)) /\
     (x < 0 -> Col m (c mm + x) h = Done (length h) (h ++ [col]))) /\
  (x < - c mm \/ c mm <= x -> Col m x h = Exit IndexOutOfRange h).
Proof.
  intros Hm [Hr Hc Hlen Hfit].
  assert (Hneg : GoInt.neg (c mm) = - c mm).
  { apply neg_small, in_range_intro. unfold GoInt.max_int in *. lia. }
  assert (Main : forall y j, - c mm <= y < c mm ->
            j = (if y >=? 0 then y else c mm + y) ->
            exists col,
              Col m y h = Done (length h) (h ++ [col]) /\
              r col = r mm /\ c col = 1 /\ len (vals col) = r mm /\
              forall i, 0 <= i < r mm -> vals col !! Z.to_nat i = cell mm i j).
  { intros y j Hy Hj.
    assert (Hjr : 0 <= j < c mm) by (destruct (y >=? 0) eqn:E; lia).
    unfold Col. run (get_c_at _ _ _ Hm).
    run (exit_if_pass ((y >=? c mm) || (y <? GoInt.neg (c mm))) IndexOutOfRange h
           ltac:(rewrite Hneg; lia)).
    run (get_r_at _ _ _ Hm).
    assert (Hfit1 : 2 * (r mm * 1) <= GoInt.max_int) by nia.
    run (New_rect h (r mm) 1 ltac:(lia) ltac:(lia) Hfit1).
    set (v0 := mkMat (r mm) 1 _).
    assert (Hl0 : len (vals v0) = r mm).
    { unfold v0. simpl. rewrite len_replicate by lia. lia. }
    assert (Hcell : forall i, 0 <= i < r mm ->
              0 <= i * c mm + j < len (vals mm) /\
              i *! c mm +! j = i * c mm + j).
    { intros i Hi. destruct (cell_bounds (r mm) (c mm) i j Hi Hjr) as (B1 & B2 & B3).
      split; [lia|]. apply (cell_index (r mm)); [assumption .. | lia]. }
    destruct (y >=? 0) eqn:Ey.
    - destruct (gather_loop h m mm v0 (fun i mc => i *! mc +! y) (r mm) Hm
                  ltac:(lia) Hl0) as (v & Hrun & Hvr & Hvc & Hvl & Hvals).
      { intros i Hi. subst j. destruct (Hcell i Hi) as [B ->]. exact B. }
      exists v. split; [|repeat split; try assumption].
      + run Hrun. reflexivity.
      + intros i Hi. rewrite (Hvals i Hi). unfold cell. subst j.
        destruct (Hcell i Hi) as [_ ->]. reflexivity.
    - assert (Ecy : c mm +! y = c mm + y).
      { apply add_small, in_range_intro. unfold GoInt.max_int in *. lia. }
      destruct (gather_loop h m mm v0 (fun i mc => i *! mc +! (mc +! y)) (r mm) Hm
                  ltac:(lia) Hl0) as (v & Hrun & Hvr & Hvc & Hvl & Hvals).
      { intros i Hi. rewrite Ecy, <- Hj. destruct (Hcell i Hi) as [B ->]. exact B. }
      exists v. split; [|repeat split; try assumption].
      + run Hrun. reflexivity.
      + intros i Hi. rewrite (Hvals i Hi). unfold cell.
        rewrite Ecy, <- Hj. destruct (Hcell i Hi) as [_ ->]. reflexivity. }
  split.
  - intros Hx.
    destruct (Main x _ Hx eq_refl) as (col & Hrun & Hcr & Hcc & Hcl & Hvals).
    exists col. repeat split; try assumption.
    intros Hx0.
    destruct (Main (c mm + x) (c mm + x) ltac:(lia)) as (col' & Hrun' & Hcr' & Hcc' & Hcl' & Hvals').
    { destruct (c mm + x >=? 0) eqn:E; [reflexivity | lia]. }
    rewrite Hrun'. do 3 f_equal.
    assert (Ex : (x >=? 0) = false) by lia. rewrite Ex in Hvals.
    destruct col as [cr cc cv], col' as [cr' cc' cv']. simpl in *.
    f_equal; [congruence | congruence |].
    apply list_eq. intros i.
    destruct (decide (Z.of_nat i < r mm)) as [Hi|Hi].
    + specialize (Hvals (Z.of_nat i) ltac:(lia)).
      specialize (Hvals' (Z.of_nat i) ltac:(lia)).
      rewrite Nat2Z.id in Hvals, Hvals'. congruence.
    + unfold len in Hcl, Hcl'. rewrite !lookup_ge_None_2 by lia. reflexivity.
  - intros Hx. unfold Col. run (get_c_at _ _ _ Hm).
    rewrite (bind_exit _ _ _ _ _
      (exit_if_fail ((x >=? c mm) || (x <? GoInt.neg (c mm))) IndexOutOfRange h
         ltac:(rewrite Hneg; lia))).
    reflexivity.
Qed.

Lemma Col_negative_index_witness :
  Col 0%nat (-1) [matrix 3 4 [0; 1; 2; 3; 4; 5; 6; 7; 8; 9; 10; 11]]
  = Col 0%nat 3 [matrix 3 4 [0; 1; 2; 3; 4; 5; 6; 7; 8; 9; 10; 11]].
Proof.
  destruct (Col_negative_index
    [matrix 3 4 [0; 1; 2; 3; 4; 5; 6; 7; 8; 9; 10; 11]] 0%nat
    (matrix 3 4 [0; 1; 2; 3; 4; 5; 6; 7; 8; 9; 10; 11]) (-1)
    eq_refl ltac:(concrete_wf)) as [Hin _].
  destruct (Hin ltac:(simpl; lia)) as (col & Hrun & _ & _ & _ & _ & Hpos).
  rewrite Hrun. symmetry. apply Hpos. lia.
Defined.

(** ** Transpose *)

Section Transpose.

Variables (h : heap) (m : loc) (mm : Mat).
Hypothesis Hm : h !! m = Some mm.
Hypothesis Wm : wf mm.

(** The cells of the new matrix [v] that the loops of [T] have written when
    the outer loop is at [i] and the inner one at [j]. *)
Let filled (v : Mat) (i j : Z) : Prop :=
  forall a b, 0 <= a -> 0 <= b < r mm -> a < i \/ (a = i /\ b < j) ->
    vals v !! Z.to_nat (a * r mm + b) = vals mm !! Z.to_nat (b * c mm + a).

Let inv (i j : Z) (idx : Z) (hk : heap) : Prop :=
  idx = i * r mm + j /\
  exists v, hk = h ++ [v] /\ r v = c mm /\ c v = r mm /\
            len (vals v) = r mm * c mm /\ filled v i j.

Lemma T_inner (i : Z) (idx : Z) (hk : heap) :
  0 <= i < c mm -> inv i 0 idx hk ->
  exists idx' hk',
    for_upto (r mm) (fun j idx =>
        mc <- get_c m ;;
        x <- load m (j *! mc +! i) ;;
        store (length h) idx x ;;;
        ret (idx +! 1)) idx hk = Done idx' hk' /\
    inv (i + 1) 0 idx' hk'.
Proof.
  intros Hi Hinv. destruct Wm as [Hr Hc Hlen Hfit].
  destruct (for_upto_inv (fun j idx hk => inv i j idx hk)
    (fun j idx =>
        mc <- get_c m ;; x <- load m (j *! mc +! i) ;;
        store (length h) idx x ;;; ret (idx +! 1))
    (r mm) idx hk ltac:(lia) Hinv) as (idx' & hk' & Hrun & Hend).
  - intros j idx1 h1 Hj (-> & v & -> & Hvr & Hvc & Hvl & Hfill).
    destruct (cell_bounds (r mm) (c mm) j i Hj Hi) as (B1 & B2 & B3).
    destruct (cell_bounds (c mm) (r mm) i j Hi Hj) as (D1 & D2 & D3).
    assert (Eidx : j *! c mm +! i = j * c mm + i).
    { apply (cell_index (r mm)); [assumption .. | lia]. }
    destruct (lookup_lt_is_Some_2 (vals mm) (Z.to_nat (j * c mm + i))) as [x Hx];
      [unfold len in Hlen; lia|].
    exists (i * r mm + j + 1). eexists. split.
    + run (get_c_at _ _ _ (old_object h m mm v Hm)).
      rewrite Eidx.
      run (load_at _ _ _ _ _ (old_object h m mm v Hm) B3 Hx).
      run (store_new h v (i * r mm + j) x ltac:(lia)).
      rewrite add_small by (apply in_range_intro; unfold GoInt.max_int in *; lia).
      reflexivity.
    + split; [lia|]. eexists. split; [reflexivity|]. simpl.
      rewrite len_insert. repeat split; try assumption.
      intros a b Ha Hb Hab. cbn [vals].
      destruct (decide (a = i /\ b = j)) as [[-> ->]|Hne].
      * rewrite list_lookup_insert_eq by (unfold len in Hvl; lia).
        symmetry. exact Hx.
      * assert (a * r mm + b < i * r mm + j) by nia.
        assert (0 <= a * r mm + b) by nia.
        rewrite list_lookup_insert_ne by lia.
        apply Hfill; [assumption .. | lia].
  - exists idx', hk'. split; [exact Hrun|].
    destruct Hend as (-> & v & -> & Hvr & Hvc & Hvl & Hfill).
    split; [lia|]. exists v. repeat split; try assumption.
    intros a b Ha Hb Hab. apply Hfill; [assumption .. | lia].
Qed.

Lemma T_transposes :
  exists t,
    T m h = Done (length h) (h ++ [t]) /\
    r t = c mm /\ c t = r mm /\ len (vals t) = r mm * c mm /\
    forall i j, 0 <= i < r mm -> 0 <= j < c mm -> cell t j i = cell mm i j.
Proof.
  pose proof Wm as [Hr Hc Hlen Hfit].
  unfold T. run (get_c_at _ _ _ Hm). run (get_r_at _ _ _ Hm).
  run (New_rect h (c mm) (r mm) ltac:(lia) ltac:(lia) ltac:(lia)).
  set (v0 := mkMat (c mm) (r mm) _).
  destruct (for_upto_inv (fun i idx hk => inv i 0 idx hk)
    (fun i idx =>
       for_upto (r mm) (fun j idx =>
         mc <- get_c m ;; x <- load m (j *! mc +! i) ;;
         store (length h) idx x ;;; ret (idx +! 1)) idx)
    (c mm) 0 (h ++ [v0]) ltac:(lia)) as (idx' & hk' & Hrun & Hend).
  - split; [lia|]. exists v0. unfold v0. simpl.
    rewrite len_replicate by nia. repeat split; try lia.
    intros a b Ha Hb Hab. lia.
  - intros i idx hk Hi Hinv. apply T_inner; assumption.
  - destruct Hend as (_ & t & -> & Htr & Htc & Htl & Hfill).
    exists t. split; [run Hrun; reflexivity|]. repeat split; try assumption.
    intros i j Hi Hj. unfold cell. rewrite Htc.
    apply Hfill; lia.
Qed.

End Transpose.

Lemma T_wf (mm t : Mat) :
  wf mm -> r t = c mm -> c t = r mm -> len (vals t) = r mm * c mm -> wf t.
Proof.
  intros [Hr Hc Hlen Hfit] Htr Htc Htl.
  constructor; rewrite ?Htr, ?Htc; try assumption; lia.
Qed.

(** The row and the column of a linear index. *)
Lemma linear_index (w k : Z) :
  0 < w -> 0 <= k ->
  k = (k / w) * w + k mod w /\ 0 <= k / w /\ 0 <= k mod w < w.
Proof.
  intros Hw Hk. pose proof (Z.div_mod k w ltac:(lia)).
  pose proof (Z.mod_pos_bound k w Hw). pose proof (Z.div_pos k w Hk Hw).
  lia.
Qed.

(** Transposing twice gives back the dimensions and the values. *)
Lemma T_T_same (mm t tt' : Mat) :
  wf mm ->
  r t = c mm -> c t = r mm ->
  (forall i j, 0 <= i < r mm -> 0 <= j < c mm -> cell t j i = cell mm i j) ->
  r tt' = c t -> c tt' = r t -> len (vals tt') = r t * c t ->
  (forall j i, 0 <= j < r t -> 0 <= i < c t -> cell tt' i j = cell t j i) ->
  tt' = mm.
Proof.
  intros [Hr Hc Hlen Hfit] Htr Htc Ht Hr2 Hc2 Hl2 Ht2.
  destruct tt' as [r2 c2 v2], mm as [r0 c0 v0], t as [r1 c1 v1].
  unfold cell in *. simpl in *. subst r1 c1 r2 c2.
  f_equal. apply list_eq. intros k.
  destruct (decide (Z.of_nat k < r0 * c0)) as [Hk|Hk].
  - assert (Hc0 : 0 < c0) by nia.
    destruct (linear_index c0 (Z.of_nat k) Hc0 ltac:(lia)) as (Ek & Hq & Hrem).
    set (i := Z.of_nat k / c0) in *. set (j := Z.of_nat k mod c0) in *.
    assert (Hi : 0 <= i < r0) by nia.
    specialize (Ht2 j i ltac:(lia) ltac:(lia)).
    specialize (Ht i j Hi ltac:(lia)).
    rewrite <- Ek, Nat2Z.id in Ht2, Ht. congruence.
  - unfold len in *. rewrite !lookup_ge_None_2 by lia. reflexivity.
Qed.

(** C8, as the code has it.  [T] makes a new [c]-by-[r] matrix with
    [result[j][i] = source[i][j]] and leaves the store as it was; a second
    [T] makes a matrix with the dimensions and the values of the first
    one, which [Equals] it when no value is a NaN and does not when one
    is. *)
Theorem T_involution (h : heap) (m : loc) (mm : Mat) :
  h !! m = Some mm -> wf mm ->
  exists t,
    T m h = Done (length h) (h ++ [t]) /\
    r t = c mm /\ c t = r mm /\ len (vals t) = r mm * c mm /\
    (forall i j, 0 <= i < r mm -> 0 <= j < c mm ->
       cell t j i = cell mm i j /\ is_Some (cell mm i j)) /\
    (p <- T m ;; T p) h = Done (Datatypes.S (length h)) (h ++ [t; mm]) /\
    (no_nan mm ->
     (p <- T m ;; q <- T p ;; Equals q m) h = Done true (h ++ [t; mm])) /\
    (has_nan mm ->
     (p <- T m ;; q <- T p ;; Equals q m) h = Done false (h ++ [t; mm])).
Proof.
  intros Hm Wm.
  destruct (T_transposes h m mm Hm Wm) as (t & Hrun & Htr & Htc & Htl & Ht).
  pose proof (T_wf mm t Wm Htr Htc Htl) as Wt.
  destruct (T_transposes (h ++ [t]) (length h) t (new_object h t) Wt)
    as (t2 & Hrun2 & Hr2 & Hc2 & Hl2 & Ht2).
  assert (E : t2 = mm) by (apply (T_T_same mm t t2); assumption).
  subst t2.
  assert (Hheap : (h ++ [t]) ++ [mm] = h ++ [t; mm]) by (rewrite <- app_assoc; reflexivity).
  assert (Hlen2 : length (h ++ [t]) = Datatypes.S (length h)) by (rewrite length_app; simpl; lia).
  rewrite Hheap, Hlen2 in Hrun2.
  exists t. repeat split; try assumption.
  - apply Ht; assumption.
  - rewrite (el_cell mm i j Wm) by assumption. eexists. reflexivity.
  - run Hrun. exact Hrun2.
  - intros Hno. run Hrun. run Hrun2.
    apply (Equals_same _ _ _ mm); [| |assumption|assumption].
    + rewrite <- Hheap, <- Hlen2. apply new_object.
    + apply lookup_app_l_Some. exact Hm.
  - intros Hnan. run Hrun. run Hrun2.
    apply (Equals_same _ _ _ mm); [| |assumption|assumption].
    + rewrite <- Hheap, <- Hlen2. apply new_object.
    + apply lookup_app_l_Some. exact Hm.
Qed.

Lemma T_involution_witness :
  (p <- T 0%nat ;; q <- T p ;; Equals q 0%nat) [matrix 2 3 [1; 2; 3; 4; 5; 6]]
  = Done true [matrix 2 3 [1; 2; 3; 4; 5; 6];
               matrix 3 2 [1; 4; 2; 5; 3; 6];
               matrix 2 3 [1; 2; 3; 4; 5; 6]].
Proof.
  destruct (T_involution [matrix 2 3 [1; 2; 3; 4; 5; 6]] 0%nat
    (matrix 2 3 [1; 2; 3; 4; 5; 6]) eq_refl ltac:(concrete_wf))
    as (t & Hrun & _ & _ & _ & _ & _ & Heq & _).
  assert (Et : t = matrix 3 2 [1; 4; 2; 5; 3; 6]).
  { vm_compute in Hrun. injection Hrun as <-. reflexivity. }
  subst t. apply Heq. intros i x.
  do 6 (destruct i as [|i]; [intros [= <-]; reflexivity|]).
  discriminate.
Defined.

(** C8, as stated, fails on a matrix that holds a NaN: the 1-by-1 matrix
    [[NaN]] transposed twice is not [Equals] to itself. *)
Lemma T_involution_fails_on_nan :
  (p <- T 0%nat ;; q <- T p ;; Equals q 0%nat) [mkMat 1 1 [F64.nan]]
  = Done false [mkMat 1 1 [F64.nan]; mkMat 1 1 [F64.nan]; mkMat 1 1 [F64.nan]].
Proof. vm_compute. reflexivity. Qed.

(** ** Matrix product *)

Lemma cell_inj (w a b i j : Z) :
  0 <= b < w -> 0 <= j < w -> a * w + b = i * w + j -> a = i /\ b = j.
Proof.
  intros Hb Hj E.
  destruct (Z.lt_trichotomy a i) as [H|[H|H]].
  - exfalso. assert (a * w + w <= i * w) by nia. lia.
  - subst a. split; [reflexivity | lia].
  - exfalso. assert (i * w + w <= a * w) by nia. lia.
Qed.

Section Product.

Variables (h : heap) (m n : loc) (mm mn : Mat).
Hypothesis Hm : h !! m = Some mm.
Hypothesis Hn : h !! n = Some mn.
Hypothesis Wm : wf mm.
Hypothesis Wn : wf mn.
Hypothesis Hinner : c mm = r mn.
Hypothesis Hfit : 2 * (r mm * c mn) <= GoInt.max_int.

Let inv (i j k : Z) (hk : heap) : Prop :=
  exists v, hk = h ++ [v] /\ r v = r mm /\ c v = c mn /\
            len (vals v) = r mm * c mn /\
            forall a b, 0 <= a < r mm -> 0 <= b < c mn ->
              cell v a b = Some (dot_progress mm mn i j k a b).

Let body (i j k : Z) : M unit :=
  oc <- get_c (length h) ;; mc <- get_c m ;; nc <- get_c n ;;
  acc <- load (length h) (i *! oc +! j) ;;
  a <- load m (i *! mc +! k) ;;
  b <- load n (k *! nc +! j) ;;
  store (length h) (i *! oc +! j) (F64.add acc (F64.mul a b)).

Lemma Dot_step (i j k : Z) (hk : heap) :
  0 <= i < r mm -> 0 <= j < c mn -> 0 <= k < c mm ->
  inv i j k hk ->
  exists hk', body i j k hk = Done tt hk' /\ inv i j (k + 1) hk'.
Proof.
  intros Hi Hj Hk (v & -> & Hvr & Hvc & Hvl & Hcells).
  destruct Wm as [Hr Hc Hlen Hf], Wn as [Hr' Hc' Hlen' Hf'].
  assert (Hpm : 0 <= r mm * c mm) by (apply Z.mul_nonneg_nonneg; lia).
  assert (Hpn : 0 <= r mn * c mn) by (apply Z.mul_nonneg_nonneg; lia).
  destruct (cell_bounds (r mm) (c mn) i j Hi Hj) as (A1 & A2 & A3).
  destruct (cell_bounds (r mm) (c mm) i k Hi Hk) as (B1 & B2 & B3).
  destruct (cell_bounds (r mn) (c mn) k j ltac:(lia) Hj) as (C1 & C2 & C3).
  assert (Eo : i *! c mn +! j = i * c mn + j)
    by (apply (cell_index (r mm)); [assumption .. | lia]).
  assert (Ea : i *! c mm +! k = i * c mm + k)
    by (apply (cell_index (r mm)); [assumption .. | lia]).
  assert (Eb : k *! c mn +! j = k * c mn + j)
    by (apply (cell_index (r mn)); [lia | assumption | lia]).
  destruct (lookup_lt_is_Some_2 (vals mm) (Z.to_nat (i * c mm + k))) as [x Hx];
    [unfold len in Hlen; lia|].
  destruct (lookup_lt_is_Some_2 (vals mn) (Z.to_nat (k * c mn + j))) as [y Hy];
    [unfold len in Hlen'; lia|].
  pose proof (Hcells i j Hi Hj) as Hacc. unfold cell in Hacc. rewrite Hvc in Hacc.
  eexists. split.
  - unfold body.
    run (get_c_at _ _ _ (new_object h v)). rewrite Hvc.
    run (get_c_at _ _ _ (old_object h m mm v Hm)).
    run (get_c_at _ _ _ (old_object h n mn v Hn)).
    rewrite Eo, Ea, Eb.
    run (load_at _ _ _ _ _ (new_object h v) A3 Hacc).
    run (load_at _ _ _ _ _ (old_object h m mm v Hm) B3 Hx).
    run (load_at _ _ _ _ _ (old_object h n mn v Hn) C3 Hy).
    apply store_new. lia.
  - eexists. split; [reflexivity|]. cbn [r c vals].
    rewrite len_insert. repeat split; try assumption.
    intros a b Ha Hb. unfold cell. cbn [c vals]. rewrite Hvc.
    destruct (decide (a = i /\ b = j)) as [[-> ->]|Hne].
    + rewrite list_lookup_insert_eq by (unfold len in Hvl; lia).
      f_equal. unfold dot_progress.
      replace ((i <? i) || (i =? i) && (j <? j)) with false by lia.
      replace ((i =? i) && (j =? j)) with true by lia.
      replace (Z.to_nat (k + 1)) with (Datatypes.S (Z.to_nat k)) by lia.
      cbn [dot_sum]. rewrite Z2Nat.id by lia.
      rewrite (el_at mm i k x Hx).
      rewrite (el_at mn k j y Hy). reflexivity.
    + assert (a * c mn + b <> i * c mn + j).
      { intros E. apply Hne. eapply cell_inj; [| |exact E]; lia. }
      destruct (cell_bounds (r mm) (c mn) a b Ha Hb) as (_ & _ & A4).
      rewrite list_lookup_insert_ne by lia.
      specialize (Hcells a b Ha Hb). unfold cell in Hcells. rewrite Hvc in Hcells.
      rewrite Hcells. f_equal. unfold dot_progress.
      destruct ((a <? i) || (a =? i) && (b <? j)); [reflexivity|].
      replace ((a =? i) && (b =? j)) with false by lia. reflexivity.
Qed.

Lemma Dot_cell (i j : Z) (hk : heap) :
  0 <= i < r mm -> 0 <= j < c mn ->
  inv i j 0 hk ->
  exists hk', for_upto (c mm) (fun k (_ : unit) => body i j k) tt hk = Done tt hk' /\
              inv i (j + 1) 0 hk'.
Proof.
  intros Hi Hj Hinv. destruct Wm as [Hr Hc Hlen _].
  destruct (for_upto_inv (fun k (_ : unit) hk => inv i j k hk)
    (fun k (_ : unit) => body i j k) (c mm) tt hk ltac:(lia) Hinv)
    as ([] & hk' & Hrun & v & -> & Hvr & Hvc & Hvl & Hcells).
  - intros k [] h1 Hk Hinv1.
    destruct (Dot_step i j k h1 Hi Hj Hk Hinv1) as (h2 & Hb & Hinv2).
    exists tt, h2. split; assumption.
  - exists (h ++ [v]). split; [exact Hrun|].
    exists v. repeat split; try assumption.
    intros a b Ha Hb. rewrite (Hcells a b Ha Hb). f_equal. unfold dot_progress.
    destruct (decide (a = i /\ b = j)) as [[-> ->]|Hne1].
    + replace ((i <? i) || (i =? i) && (j <? j)) with false by lia.
      replace ((i =? i) && (j =? j)) with true by lia.
      replace ((i <? i) || (i =? i) && (j <? j + 1)) with true by lia.
      reflexivity.
    + destruct (decide (a = i /\ b = j + 1)) as [[-> ->]|Hne2].
      * replace ((i <? i) || (i =? i) && (j + 1 <? j)) with false by lia.
        replace ((i =? i) && (j + 1 =? j)) with false by lia.
        replace ((i <? i) || (i =? i) && (j + 1 <? j + 1)) with false by lia.
        replace ((i =? i) && (j + 1 =? j + 1)) with true by lia.
        reflexivity.
      * replace ((a <? i) || (a =? i) && (b <? j + 1))
          with ((a <? i) || (a =? i) && (b <? j)) by lia.
        replace ((a =? i) && (b =? j)) with false by lia.
        replace ((a =? i) && (b =? j + 1)) with false by lia.
        reflexivity.
Qed.

Lemma Dot_row (i : Z) (hk : heap) :
  0 <= i < r mm ->
  inv i 0 0 hk ->
  exists hk',
    for_upto (c mn) (fun j (_ : unit) =>
      for_upto (c mm) (fun k (_ : unit) => body i j k) tt) tt hk = Done tt hk' /\
    inv (i + 1) 0 0 hk'.
Proof.
  intros Hi Hinv. destruct Wn as [_ Hc' _ _].
  destruct (for_upto_inv (fun j (_ : unit) hk => inv i j 0 hk)
    (fun j (_ : unit) => for_upto (c mm) (fun k (_ : unit) => body i j k) tt)
    (c mn) tt hk ltac:(lia) Hinv)
    as ([] & hk' & Hrun & v & -> & Hvr & Hvc & Hvl & Hcells).
  - intros j [] h1 Hj Hinv1.
    destruct (Dot_cell i j h1 Hi Hj Hinv1) as (h2 & Hb & Hinv2).
    exists tt, h2. split; assumption.
  - exists (h ++ [v]). split; [exact Hrun|].
    exists v. repeat split; try assumption.
    intros a b Ha Hb. rewrite (Hcells a b Ha Hb). f_equal. unfold dot_progress.
    destruct (decide (a <= i)) as [Hai|Hai].
    + replace ((a <? i) || (a =? i) && (b <? c mn)) with true by lia.
      replace ((a <? i + 1) || (a =? i + 1) && (b <? 0)) with true by lia.
      reflexivity.
    + replace ((a <? i) || (a =? i) && (b <? c mn)) with false by lia.
      replace ((a =? i) && (b =? c mn)) with false by lia.
      replace ((a <? i + 1) || (a =? i + 1) && (b <? 0)) with false by lia.
      destruct ((a =? i + 1) && (b =? 0)); reflexivity.
Qed.

Lemma Dot_product :
  exists o,
    Dot m n h = Done (length h) (h ++ [o]) /\
    r o = r mm /\ c o = c mn /\ len (vals o) = r mm * c mn /\
    forall i j, 0 <= i < r mm -> 0 <= j < c mn ->
      cell o i j = Some (dot_sum mm mn i j (Z.to_nat (c mm))).
Proof.
  pose proof Wm as [Hr Hc Hlen _]. pose proof Wn as [Hr' Hc' Hlen' _].
  unfold Dot. run (get_c_at _ _ _ Hm). run (get_r_at _ _ _ Hn).
  run (exit_if_pass (negb (c mm =? r mn)) ShapeMismatch h
         ltac:(rewrite Hinner, Z.eqb_refl; reflexivity)).
  run (get_r_at _ _ _ Hm). run (get_c_at _ _ _ Hn).
  run (New_rect h (r mm) (c mn) ltac:(lia) ltac:(lia) Hfit).
  set (v0 := mkMat (r mm) (c mn) _).
  destruct (for_upto_inv (fun i (_ : unit) hk => inv i 0 0 hk)
    (fun i (_ : unit) =>
       for_upto (c mn) (fun j (_ : unit) =>
         for_upto (c mm) (fun k (_ : unit) => body i j k) tt) tt)
    (r mm) tt (h ++ [v0]) ltac:(lia))
    as ([] & hk' & Hrun & o & -> & Hor & Hoc & Hol & Hcells).
  - exists v0. unfold v0. cbn [r c vals].
    rewrite len_replicate by nia. repeat split; try reflexivity.
    intros a b Ha Hb. unfold cell. cbn [c vals].
    destruct (cell_bounds (r mm) (c mn) a b Ha Hb) as (A1 & A2 & A3).
    rewrite lookup_replicate_2 by lia. f_equal. unfold dot_progress.
    replace ((a <? 0) || (a =? 0) && (b <? 0)) with false by lia.
    destruct ((a =? 0) && (b =? 0)); reflexivity.
  - intros i [] h1 Hi Hinv1.
    destruct (Dot_row i h1 Hi Hinv1) as (h2 & Hb & Hinv2).
    exists tt, h2. split; assumption.
  - exists o. split; [|repeat split; try assumption].
    + unfold body in Hrun. run Hrun. reflexivity.
    + intros i j Hi Hj. rewrite (Hcells i j Hi Hj). f_equal. unfold dot_progress.
      replace ((i <? r mm) || (i =? r mm) && (j <? 0)) with true by lia.
      reflexivity.
Qed.

End Product.

(** C7.  With [m.c = n.r], [Dot] makes a new [m.r]-by-[n.c] matrix whose
    cell [(i, j)] is the sum of the products [m[i][k] * n[k][j]] added in
    the order of [k], and leaves the store as it was; otherwise it exits
    with [ShapeMismatch].  The size of the product is one that [New] can
    allocate. *)
Theorem Dot_triple_loop (h : heap) (m n : loc) (mm mn : Mat) :
  h !! m = Some mm -> h !! n = Some mn -> wf mm -> wf mn ->
  2 * (r mm * c mn) <= GoInt.max_int ->
  (c mm = r mn ->
   exists o,
     Dot m n h = Done (length h) (h ++ [o]) /\
     r o = r mm /\ c o = c mn /\ len (vals o) = r mm * c mn /\
     forall i j, 0 <= i < r mm -> 0 <= j < c mn ->
       cell o i j = Some (dot_sum mm mn i j (Z.to_nat (c mm)))) /\
  (c mm <> r mn -> Dot m n h = Exit ShapeMismatch h).
Proof.
  intros Hm Hn Wm Wn Hfit. split.
  - intros Hinner. exact (Dot_product h m n mm mn Hm Hn Wm Wn Hinner Hfit).
  - intros Hne. unfold Dot. run (get_c_at _ _ _ Hm). run (get_r_at _ _ _ Hn).
    rewrite (bind_exit _ _ _ _ _
      (exit_if_fail (negb (c mm =? r mn)) ShapeMismatch h ltac:(lia))).
    reflexivity.
Qed.

Lemma Dot_triple_loop_witness :
  Dot 0%nat 1%nat [matrix 2 2 [1; 2; 3; 4]; matrix 2 2 [5; 6; 7; 8]]
  = Done 2%nat [matrix 2 2 [1; 2; 3; 4]; matrix 2 2 [5; 6; 7; 8];
                matrix 2 2 [19; 22; 43; 50]].
Proof.
  destruct (Dot_triple_loop
    [matrix 2 2 [1; 2; 3; 4]; matrix 2 2 [5; 6; 7; 8]] 0%nat 1%nat
    (matrix 2 2 [1; 2; 3; 4]) (matrix 2 2 [5; 6; 7; 8])
    eq_refl eq_refl ltac:(concrete_wf) ltac:(concrete_wf)
    ltac:(unfold GoInt.max_int; simpl; lia)) as [Hok _].
  destruct (Hok eq_refl) as (o & Hrun & _).
  rewrite Hrun. vm_compute in Hrun. injection Hrun as <-.
  vm_compute. reflexivity.
Defined.

(** ** Reductions over a row or a column *)

(** A loop that folds [f] over the values [m.vals[g i m.c]], [i < n]. *)
Lemma reduce_loop (h : heap) (m : loc) (mm : Mat) (g : Z -> Z -> Z)
    (f : float64 -> float64 -> float64) (n : Z) (s0 : float64) :
  h !! m = Some mm -> 0 <= n ->
  (forall i, 0 <= i < n -> 0 <= g i (c mm) < len (vals mm)) ->
  for_upto n (fun i sum =>
      mc <- get_c m ;;
      x <- load m (g i mc) ;;
      ret (f sum x)) s0 h
  = Done (fold_left f
            (map (fun i => default F64.zero
                             (vals mm !! Z.to_nat (g (Z.of_nat i) (c mm))))
                 (seq 0 (Z.to_nat n))) s0) h.
Proof.
  intros Hm Hn Hg.
  set (elems := fun k : Z =>
    map (fun i => default F64.zero (vals mm !! Z.to_nat (g (Z.of_nat i) (c mm))))
        (seq 0 (Z.to_nat k))).
  destruct (for_upto_inv (fun k s hk => hk = h /\ s = fold_left f (elems k) s0)
    (fun i sum => mc <- get_c m ;; x <- load m (g i mc) ;; ret (f sum x))
    n s0 h Hn) as (s' & h' & Hrun & -> & ->).
  - split; reflexivity.
  - intros k s hk Hk (-> & ->).
    destruct (Hg k Hk) as [G0 G1]. unfold len in G1.
    destruct (lookup_lt_is_Some_2 (vals mm) (Z.to_nat (g k (c mm)))) as [x Hx]; [lia|].
    eexists. exists h. split.
    + run (get_c_at _ _ _ Hm). run (load_at _ _ _ _ _ Hm G0 Hx). reflexivity.
    + split; [reflexivity|]. unfold elems.
      replace (Z.to_nat (k + 1)) with (Datatypes.S (Z.to_nat k)) by lia.
      rewrite seq_S, map_app, fold_left_app. simpl.
      rewrite Z2Nat.id by lia. rewrite Hx. reflexivity.
  - exact Hrun.
Qed.

Lemma row_of_elems (mm : Mat) (s : Z) (g : Z -> Z -> Z) :
  (forall i, 0 <= i < c mm -> g i (c mm) = s * c mm + i) ->
  map (fun i => default F64.zero (vals mm !! Z.to_nat (g (Z.of_nat i) (c mm))))
      (seq 0 (Z.to_nat (c mm)))
  = row_of mm s.
Proof.
  intros Hg. unfold row_of. apply map_ext_in. intros i Hi.
  apply in_seq in Hi. rewrite Hg by lia. reflexivity.
Qed.

Lemma col_of_elems (mm : Mat) (s : Z) (g : Z -> Z -> Z) :
  (forall i, 0 <= i < r mm -> g i (c mm) = i * c mm + s) ->
  map (fun i => default F64.zero (vals mm !! Z.to_nat (g (Z.of_nat i) (c mm))))
      (seq 0 (Z.to_nat (r mm)))
  = col_of mm s.
Proof.
  intros Hg. unfold col_of. apply map_ext_in. intros i Hi.
  apply in_seq in Hi. rewrite Hg by lia. reflexivity.
Qed.

Lemma len_row_of (mm : Mat) (s : Z) : 0 <= c mm -> len (row_of mm s) = c mm.
Proof. intros Hc. unfold len, row_of. rewrite length_map, length_seq. lia. Qed.

Lemma len_col_of (mm : Mat) (s : Z) : 0 <= r mm -> len (col_of mm s) = r mm.
Proof. intros Hr. unfold len, col_of. rewrite length_map, length_seq. lia. Qed.

Section Deviation.

Variables (h : heap) (m : loc) (mm : Mat).
Hypothesis Hm : h !! m = Some mm.
Hypothesis Wm : wf mm.

Lemma row_cells (s : Z) :
  0 <= s < r mm ->
  forall i, 0 <= i < c mm ->
    0 <= s *! c mm +! i < len (vals mm) /\ s *! c mm +! i = s * c mm + i.
Proof.
  intros Hs i Hi. destruct Wm as [Hr Hc Hlen Hfit].
  destruct (cell_bounds (r mm) (c mm) s i Hs Hi) as (B1 & B2 & B3).
  assert (E : s *! c mm +! i = s * c mm + i)
    by (apply (cell_index (r mm)); [assumption .. | lia]).
  rewrite E. split; [lia | reflexivity].
Qed.

Lemma col_cells (s : Z) :
  0 <= s < c mm ->
  forall i, 0 <= i < r mm ->
    0 <= i *! c mm +! s < len (vals mm) /\ i *! c mm +! s = i * c mm + s.
Proof.
  intros Hs i Hi. destruct Wm as [Hr Hc Hlen Hfit].
  destruct (cell_bounds (r mm) (c mm) i s Hi Hs) as (B1 & B2 & B3).
  assert (E : i *! c mm +! s = i * c mm + s)
    by (apply (cell_index (r mm)); [assumption .. | lia]).
  rewrite E. split; [lia | reflexivity].
Qed.

(** [Avg(0, s)] and [Avg(1, s)] are the means of the row and of the
    column. *)
Lemma Avg_row (s : Z) :
  0 <= s < r mm -> Avg m [0; s] h = Done (mean (row_of mm s)) h.
Proof.
  intros Hs. pose proof Wm as [Hr Hc Hlen Hfit]. unfold Avg. cbn [Z.eqb].
  run (get_r_at _ _ _ Hm).
  run (exit_if_pass ((s >=? r mm) || (s <? 0)) IndexOutOfRange h ltac:(lia)).
  run (get_c_at _ _ _ Hm).
  run (reduce_loop h m mm (fun i mc => s *! mc +! i) F64.add (c mm) F64.zero Hm
         ltac:(lia) (fun i Hi => proj1 (row_cells s Hs i Hi))).
  run (get_c_at _ _ _ Hm).
  rewrite (row_of_elems mm s (fun i mc => s *! mc +! i))
    by (intros i Hi; apply (row_cells s Hs i Hi)).
  unfold mean, fsum. rewrite len_row_of by lia. reflexivity.
Qed.

Lemma Avg_col (s : Z) :
  0 <= s < c mm -> Avg m [1; s] h = Done (mean (col_of mm s)) h.
Proof.
  intros Hs. pose proof Wm as [Hr Hc Hlen Hfit]. unfold Avg. cbn [Z.eqb Pos.eqb].
  run (get_c_at _ _ _ Hm).
  run (exit_if_pass ((s >=? c mm) || (s <? 0)) IndexOutOfRange h ltac:(lia)).
  run (get_r_at _ _ _ Hm).
  run (reduce_loop h m mm (fun i mc => i *! mc +! s) F64.add (r mm) F64.zero Hm
         ltac:(lia) (fun i Hi => proj1 (col_cells s Hs i Hi))).
  run (get_r_at _ _ _ Hm).
  rewrite (col_of_elems mm s (fun i mc => i *! mc +! s))
    by (intros i Hi; apply (col_cells s Hs i Hi)).
  unfold mean, fsum. rewrite len_col_of by lia. reflexivity.
Qed.

(** [Std(0, s)] and [Std(1, s)] sum the squared distances to that mean over
    the row or the column, and divide the sum by [r * c], the number of
    values of the matrix. *)
Lemma Std_row (s : Z) :
  0 <= s < r mm ->
  Std m [0; s] h
  = Done (F64.sqrt (F64.div
            (fold_left (sq_dev (mean (row_of mm s))) (row_of mm s) F64.zero)
            (F64.of_int (r mm * c mm)))) h.
Proof.
  intros Hs. pose proof Wm as [Hr Hc Hlen Hfit]. unfold Std. cbn [Z.eqb].
  run (get_r_at _ _ _ Hm).
  run (exit_if_pass ((s >=? r mm) || (s <? 0)) IndexOutOfRange h ltac:(lia)).
  run (Avg_row s Hs).
  run (get_c_at _ _ _ Hm).
  run (reduce_loop h m mm (fun i mc => s *! mc +! i)
         (sq_dev (mean (row_of mm s))) (c mm) F64.zero Hm
         ltac:(lia) (fun i Hi => proj1 (row_cells s Hs i Hi))).
  run (get_vals_at _ _ _ Hm).
  rewrite (row_of_elems mm s (fun i mc => s *! mc +! i))
    by (intros i Hi; apply (row_cells s Hs i Hi)).
  rewrite Hlen. reflexivity.
Qed.

Lemma Std_col (s : Z) :
  0 <= s < c mm ->
  Std m [1; s] h
  = Done (F64.sqrt (F64.div
            (fold_left (sq_dev (mean (col_of mm s))) (col_of mm s) F64.zero)
            (F64.of_int (r mm * c mm)))) h.
Proof.
  intros Hs. pose proof Wm as [Hr Hc Hlen Hfit]. unfold Std. cbn [Z.eqb Pos.eqb].
  run (get_c_at _ _ _ Hm).
  run (exit_if_pass ((s >=? c mm) || (s <? 0)) IndexOutOfRange h ltac:(lia)).
  run (Avg_col s Hs).
  run (get_r_at _ _ _ Hm).
  run (reduce_loop h m mm (fun i mc => i *! mc +! s)
         (sq_dev (mean (col_of mm s))) (r mm) F64.zero Hm
         ltac:(lia) (fun i Hi => proj1 (col_cells s Hs i Hi))).
  run (get_vals_at _ _ _ Hm).
  rewrite (col_of_elems mm s (fun i mc => i *! mc +! s))
    by (intros i Hi; apply (col_cells s Hs i Hi)).
  rewrite Hlen. reflexivity.
Qed.

End Deviation.

(** ** Reductions over the whole matrix *)

Lemma reduce_all (h : heap) (m : loc) (mm : Mat)
    (f : float64 -> float64 -> float64) (s0 : float64) :
  h !! m = Some mm ->
  for_range (vals mm) (fun i sum => x <- load m i ;; ret (f sum x)) s0 h
  = Done (fold_left f (vals mm) s0) h.
Proof.
  intros Hm.
  destruct (for_range_inv
    (fun k s hk => hk = h /\ s = fold_left f (take (Z.to_nat k) (vals mm)) s0)
    (vals mm) (fun i sum => x <- load m i ;; ret (f sum x)) s0 h)
    as (s' & h' & Hrun & -> & ->).
  - split; reflexivity.
  - intros k s hk Hk (-> & ->). unfold len in Hk.
    destruct (lookup_lt_is_Some_2 (vals mm) (Z.to_nat k)) as [x Hx]; [lia|].
    eexists. exists h. split.
    + run (load_at _ _ _ _ _ Hm (proj1 Hk) Hx). reflexivity.
    + split; [reflexivity|].
      replace (Z.to_nat (k + 1)) with (Datatypes.S (Z.to_nat k)) by lia.
      rewrite (take_S_r _ _ _ Hx), fold_left_app. reflexivity.
  - rewrite Hrun. unfold len. rewrite Nat2Z.id, firstn_all. reflexivity.
Qed.

Lemma Avg_whole (h : heap) (m : loc) (mm : Mat) :
  h !! m = Some mm -> Avg m [] h = Done (mean (vals mm)) h.
Proof.
  intros Hm. unfold Avg. run (get_vals_at _ _ _ Hm).
  run (reduce_all h m mm F64.add F64.zero Hm).
  run (get_vals_at _ _ _ Hm). reflexivity.
Qed.

(** [Std()] divides the sum of the squared distances by the number of
    values of the matrix, over which it was taken. *)
Lemma Std_whole (h : heap) (m : loc) (mm : Mat) :
  h !! m = Some mm ->
  Std m [] h
  = Done (F64.sqrt (F64.div
            (fold_left (sq_dev (mean (vals mm))) (vals mm) F64.zero)
            (F64.of_int (len (vals mm))))) h.
Proof.
  intros Hm. unfold Std. run (Avg_whole h m mm Hm).
  run (get_vals_at _ _ _ Hm).
  run (reduce_all h m mm (sq_dev (mean (vals mm))) F64.zero Hm).
  run (get_vals_at _ _ _ Hm). reflexivity.
Qed.

(** ** Standard deviation *)

(** C4.  On the 2-by-2 matrix [[1, 3], [5, 7]] the deviation of row 0 is 1
    (mean 2, squared distances 1 and 1, mean of them 1), and so it is for
    column 0 [[1, 5]] scaled by 2; [Std(0, 0)] divides the sum of squares by
    the 4 values of the whole matrix and returns [sqrt(2/4)], [Std(1, 0)]
    returns [sqrt(8/4)] where the deviation is 2.  The earlier [Std]
    divides by the length of the slice. *)
Theorem Std_divides_by_matrix_size :
  let h := [matrix 2 2 [1; 3; 5; 7]] in
  Std 0%nat [0; 0] h = Done (F64.sqrt (F64.div (fl 2) (fl 4))) h /\
  population_std (row_of (matrix 2 2 [1; 3; 5; 7]) 0) = fl 1 /\
  F64.eqb (F64.sqrt (F64.div (fl 2) (fl 4))) (fl 1) = false /\
  Std 0%nat [1; 0] h = Done (F64.sqrt (F64.div (fl 8) (fl 4))) h /\
  population_std (col_of (matrix 2 2 [1; 3; 5; 7]) 0) = fl 2 /\
  F64.eqb (F64.sqrt (F64.div (fl 8) (fl 4))) (fl 2) = false /\
  Legacy.Std 0%nat 0 0 h = Done (fl 1) h /\
  Legacy.Std 0%nat 1 0 h = Done (fl 2) h.
Proof. repeat split; vm_compute; reflexivity. Qed.

(** ** Rows as slices *)

Lemma row_of_lookup (mm : Mat) (i b : Z) :
  0 <= b < c mm -> row_of mm i !! Z.to_nat b = Some (el mm i b).
Proof.
  intros Hb. unfold row_of. rewrite list_lookup_fmap.
  rewrite lookup_seq_lt by lia. simpl. rewrite Z2Nat.id by lia. reflexivity.
Qed.

Lemma make_rows_ok (n : Z) (h : heap) :
  0 <= n -> make_rows n h = Done (replicate (Z.to_nat n) []) h.
Proof. intros Hn. unfold make_rows. destruct (n <? 0) eqn:E; [lia | reflexivity]. Qed.

Section Rows.

Variables (h : heap) (m : loc) (mm : Mat).
Hypothesis Hm : h !! m = Some mm.
Hypothesis Wm : wf mm.

Lemma ToSlice_row (i : Z) :
  0 <= i < r mm ->
  for_range (replicate (Z.to_nat (c mm)) F64.zero) (fun j row =>
      mc <- get_c m ;;
      x <- load m (i *! mc +! j) ;;
      update row j x) (replicate (Z.to_nat (c mm)) F64.zero) h
  = Done (row_of mm i) h.
Proof.
  intros Hi. pose proof Wm as [Hr Hc Hlen Hfit].
  assert (Hl0 : len (replicate (Z.to_nat (c mm)) F64.zero) = c mm)
    by (apply len_replicate; lia).
  destruct (for_range_inv
    (fun j (row : list float64) hk => hk = h /\ len row = c mm /\
       forall b, 0 <= b < j -> row !! Z.to_nat b = Some (el mm i b))
    (replicate (Z.to_nat (c mm)) F64.zero)
    (fun j row => mc <- get_c m ;; x <- load m (i *! mc +! j) ;; update row j x)
    (replicate (Z.to_nat (c mm)) F64.zero) h)
    as (row & h' & Hrun & -> & Hrl & Hrow).
  - split; [reflexivity|]. split; [exact Hl0|]. intros b Hb. lia.
  - intros j row hk Hj (-> & Hrl & Hrow). rewrite Hl0 in Hj.
    destruct (row_cells mm Wm i Hi j Hj) as [[G0 G1] E].
    pose proof (el_cell mm i j Wm Hi Hj) as Hx. unfold cell in Hx.
    eexists. exists h. split.
    + run (get_c_at _ _ _ Hm). rewrite E. rewrite E in G0.
      run (load_at _ _ _ _ _ Hm G0 Hx).
      apply update_at. lia.
    + split; [reflexivity|]. rewrite len_insert. split; [exact Hrl|].
      intros b Hb. destruct (decide (b = j)) as [->|Hne].
      * apply list_lookup_insert_eq. unfold len in Hrl. lia.
      * rewrite list_lookup_insert_ne by lia. apply Hrow. lia.
  - rewrite Hrun. f_equal. rewrite Hl0 in Hrow. apply list_eq. intros k.
    destruct (decide (Z.of_nat k < c mm)) as [Hk|Hk].
    + specialize (Hrow (Z.of_nat k) ltac:(lia)).
      rewrite <- (Nat2Z.id k). rewrite Hrow.
      symmetry. apply row_of_lookup. lia.
    + pose proof (len_row_of mm i ltac:(lia)) as Hl. unfold len in Hrl, Hl.
      rewrite !lookup_ge_None_2 by lia. reflexivity.
Qed.

(** [ToSlice] returns the rows and leaves the store as it was. *)
Lemma ToSlice_rows :
  exists q,
    ToSlice m h = Done q h /\ len q = r mm /\
    forall i, 0 <= i < r mm -> q !! Z.to_nat i = Some (row_of mm i).
Proof.
  pose proof Wm as [Hr Hc Hlen Hfit].
  unfold ToSlice. run (get_r_at _ _ _ Hm).
  run (make_rows_ok (r mm) h ltac:(lia)).
  assert (Hl0 : len (replicate (Z.to_nat (r mm)) ([] : list float64)) = r mm)
    by (apply len_replicate; lia).
  destruct (for_range_inv
    (fun i (s : list (list float64)) hk => hk = h /\ len s = r mm /\
       forall a, 0 <= a < i -> s !! Z.to_nat a = Some (row_of mm a))
    (replicate (Z.to_nat (r mm)) ([] : list float64))
    (fun i s =>
       mc <- get_c m ;;
       row <- make mc mc ;;
       row <- for_range row (fun j row =>
                mc <- get_c m ;;
                x <- load m (i *! mc +! j) ;;
                update row j x) row ;;
       update s i row)
    (replicate (Z.to_nat (r mm)) []) h)
    as (q & h' & Hrun & -> & Hql & Hq).
  - split; [reflexivity|]. split; [exact Hl0|]. intros a Ha. lia.
  - intros i s hk Hi (-> & Hsl & Hs). rewrite Hl0 in Hi.
    eexists. exists h. split.
    + run (get_c_at _ _ _ Hm).
      run (make_ok (c mm) (c mm) h ltac:(lia)).
      run (ToSlice_row i Hi).
      apply update_at. lia.
    + split; [reflexivity|]. rewrite len_insert. split; [exact Hsl|].
      intros a Ha. destruct (decide (a = i)) as [->|Hne].
      * apply list_lookup_insert_eq. unfold len in Hsl. lia.
      * rewrite list_lookup_insert_ne by lia. apply Hs. lia.
  - exists q. rewrite Hl0 in Hq. split; [exact Hrun|]. split; assumption.
Qed.

End Rows.

(** ** Re-striding *)

Section Restride.

Variables (h : heap) (m : loc) (m0 : Mat) (q : list (list float64)).
Variable Q : Z -> Z -> float64.
Hypothesis Hm : h !! m = Some m0.
Hypothesis Hr0 : 0 <= r m0.
Hypothesis Hc0 : 0 <= c m0.
Hypothesis Hlen0 : len (vals m0) = r m0 * c m0.
Hypothesis Hmax : r m0 * c m0 <= GoInt.max_int.
Hypothesis Hq : forall i j, 0 <= i < r m0 -> 0 <= j < c m0 ->
  exists qi, q !! Z.to_nat i = Some qi /\ qi !! Z.to_nat j = Some (Q i j).

Let inv (i j : Z) (hk : heap) : Prop :=
  exists l, hk = <[m := mkMat (r m0) (c m0) l]> h /\
            len l = r m0 * c m0 /\
            forall a b, 0 <= a < r m0 -> 0 <= b < c m0 ->
              a < i \/ (a = i /\ b < j) ->
              l !! Z.to_nat (a * c m0 + b) = Some (Q a b).

Lemma restride_row (i : Z) (hk : heap) :
  0 <= i < r m0 -> inv i 0 hk ->
  exists hk',
    for_upto (c m0) (fun j (_ : unit) =>
        mc <- get_c m ;;
        qi <- index q i ;;
        x <- index qi j ;;
        store m (i *! mc +! j) x) tt hk = Done tt hk' /\
    inv (i + 1) 0 hk'.
Proof.
  intros Hi Hinv.
  pose proof (lookup_lt_Some _ _ _ Hm) as Lm.
  destruct (for_upto_inv (fun j (_ : unit) hk => inv i j hk)
    (fun j (_ : unit) =>
        mc <- get_c m ;; qi <- index q i ;; x <- index qi j ;;
        store m (i *! mc +! j) x)
    (c m0) tt hk Hc0 Hinv) as ([] & hk' & Hrun & l & -> & Hl & Hfill).
  - intros j [] h1 Hj (l & -> & Hl & Hfill).
    destruct (Hq i j Hi Hj) as (qi & Hqi & Hqij).
    destruct (cell_bounds (r m0) (c m0) i j Hi Hj) as (B1 & B2 & B3).
    assert (E : i *! c m0 +! j = i * c m0 + j)
      by (apply (cell_index (r m0)); assumption).
    assert (Hobj : <[m := mkMat (r m0) (c m0) l]> h !! m = Some (mkMat (r m0) (c m0) l))
      by (apply list_lookup_insert_eq; exact Lm).
    exists tt. eexists. split.
    + run (get_c_at _ _ _ Hobj). cbn [c].
      run (index_at q i qi (<[m := mkMat (r m0) (c m0) l]> h) (proj1 Hi) Hqi).
      run (index_at qi j (Q i j) (<[m := mkMat (r m0) (c m0) l]> h) (proj1 Hj) Hqij).
      rewrite E. apply (store_at _ _ _ _ _ Hobj). cbn [vals]. lia.
    + cbn [r c vals]. rewrite list_insert_insert_eq.
      eexists. split; [reflexivity|]. rewrite len_insert. split; [exact Hl|].
      intros a b Ha Hb Hab.
      destruct (decide (a = i /\ b = j)) as [[-> ->]|Hne].
      * apply list_lookup_insert_eq. unfold len in Hl. lia.
      * assert (a * c m0 + b <> i * c m0 + j).
        { intros E'. apply Hne. eapply cell_inj; [| |exact E']; lia. }
        destruct (cell_bounds (r m0) (c m0) a b Ha Hb) as (_ & _ & A3).
        rewrite list_lookup_insert_ne by lia.
        apply Hfill; [assumption .. | lia].
  - exists (<[m := mkMat (r m0) (c m0) l]> h). split; [exact Hrun|].
    exists l. split; [reflexivity|]. split; [exact Hl|].
    intros a b Ha Hb Hab. apply Hfill; [assumption .. | lia].
Qed.

Lemma restride_fills :
  exists l,
    restride m q h = Done tt (<[m := mkMat (r m0) (c m0) l]> h) /\
    len l = r m0 * c m0 /\
    forall i j, 0 <= i < r m0 -> 0 <= j < c m0 ->
      l !! Z.to_nat (i * c m0 + j) = Some (Q i j).
Proof.
  unfold restride. run (get_r_at _ _ _ Hm).
  destruct (for_upto_inv (fun i (_ : unit) hk => inv i 0 hk)
    (fun i (_ : unit) =>
       mc <- get_c m ;;
       for_upto mc (fun j (_ : unit) =>
         mc <- get_c m ;; qi <- index q i ;; x <- index qi j ;;
         store m (i *! mc +! j) x) tt)
    (r m0) tt h Hr0) as ([] & hk' & Hrun & l & -> & Hl & Hfill).
  - exists (vals m0). split; [|split; [exact Hlen0|]].
    + symmetry. apply list_insert_id. destruct m0; exact Hm.
    + intros a b Ha Hb Hab. lia.
  - intros i [] h1 Hi Hinv.
    destruct (restride_row i h1 Hi Hinv) as (h2 & Hrow & Hinv2).
    exists tt, h2. split; [|exact Hinv2].
    destruct Hinv as (l & -> & _).
    assert (Hobj : <[m := mkMat (r m0) (c m0) l]> h !! m = Some (mkMat (r m0) (c m0) l))
      by (apply list_lookup_insert_eq; eapply lookup_lt_Some, Hm).
    run (get_c_at _ _ _ Hobj). exact Hrow.
  - exists l. split; [exact Hrun|]. split; [exact Hl|].
    intros i j Hi Hj. apply Hfill; [assumption .. | lia].
Qed.

End Restride.

(** ** [AppendCol] and [Concat] *)

Lemma copy_same_length {A : Type} (dst src : list A) :
  length dst = length src -> copy dst src = src.
Proof.
  intros Hl. unfold copy. rewrite Hl, firstn_all, drop_ge by lia.
  apply app_nil_r.
Qed.

Lemma Vals_copy (h : heap) (m : loc) (mm : Mat) :
  h !! m = Some mm -> Vals m h = Done (vals mm) h.
Proof.
  intros Hm. unfold Vals. run (get_vals_at _ _ _ Hm).
  run (make_ok (len (vals mm)) (len (vals mm)) h ltac:(unfold len; lia)).
  rewrite copy_same_length; [reflexivity|].
  rewrite length_replicate. unfold len. lia.
Qed.

(** The loop [q[i] = append(q[i], v[i])] of [AppendCol]. *)
Lemma AppendCol_rows (h : heap) (q0 : list (list float64)) (v : list float64)
    (R : Z -> list float64) (n : Z) :
  len q0 = n -> len v = n ->
  (forall i, 0 <= i < n -> q0 !! Z.to_nat i = Some (R i)) ->
  exists q1,
    for_range q0 (fun i q =>
        qi <- index q i ;;
        vi <- index v i ;;
        update q i (append qi [vi])) q0 h = Done q1 h /\
    len q1 = n /\
    forall i, 0 <= i < n ->
      exists vi, v !! Z.to_nat i = Some vi /\ q1 !! Z.to_nat i = Some (R i ++ [vi]).
Proof.
  intros Hq0 Hv HR.
  destruct (for_range_inv
    (fun i (q : list (list float64)) hk => hk = h /\ len q = n /\
       (forall a, 0 <= a < i ->
          exists va, v !! Z.to_nat a = Some va /\ q !! Z.to_nat a = Some (R a ++ [va])) /\
       (forall a, i <= a < n -> q !! Z.to_nat a = Some (R a)))
    q0 (fun i q => qi <- index q i ;; vi <- index v i ;; update q i (append qi [vi]))
    q0 h) as (q1 & h' & Hrun & -> & Hl & Hdone & _).
  - split; [reflexivity|]. split; [exact Hq0|]. split.
    + intros a Ha. lia.
    + intros a Ha. apply HR. lia.
  - intros i q hk Hi (-> & Hl & Hdone & Htodo). rewrite Hq0 in Hi.
    destruct (lookup_lt_is_Some_2 v (Z.to_nat i)) as [vi Hvi]; [unfold len in Hv; lia|].
    eexists. exists h. split.
    + run (index_at q i (R i) h (proj1 Hi) (Htodo i ltac:(lia))).
      run (index_at v i vi h (proj1 Hi) Hvi).
      apply update_at. lia.
    + split; [reflexivity|]. rewrite len_insert. split; [exact Hl|]. split.
      * intros a Ha. destruct (decide (a = i)) as [->|Hne].
        -- exists vi. split; [exact Hvi|].
           apply list_lookup_insert_eq. unfold len in Hl. lia.
        -- rewrite list_lookup_insert_ne by lia. apply Hdone. lia.
      * intros a Ha. rewrite list_lookup_insert_ne by lia. apply Htodo. lia.
  - exists q1. rewrite Hq0 in Hdone. split; [exact Hrun|]. split; assumption.
Qed.

(** The loop [q[i] = append(q[i], r[i]...)] of [Concat]. *)
Lemma Concat_rows (h : heap) (q0 rr : list (list float64))
    (R R' : Z -> list float64) (n : Z) :
  len q0 = n ->
  (forall i, 0 <= i < n -> q0 !! Z.to_nat i = Some (R i)) ->
  (forall i, 0 <= i < n -> rr !! Z.to_nat i = Some (R' i)) ->
  exists q1,
    for_range q0 (fun i q =>
        qi <- index q i ;;
        ri <- index rr i ;;
        update q i (append qi ri)) q0 h = Done q1 h /\
    len q1 = n /\
    forall i, 0 <= i < n -> q1 !! Z.to_nat i = Some (R i ++ R' i).
Proof.
  intros Hq0 HR HR'.
  destruct (for_range_inv
    (fun i (q : list (list float64)) hk => hk = h /\ len q = n /\
       (forall a, 0 <= a < i -> q !! Z.to_nat a = Some (R a ++ R' a)) /\
       (forall a, i <= a < n -> q !! Z.to_nat a = Some (R a)))
    q0 (fun i q => qi <- index q i ;; ri <- index rr i ;; update q i (append qi ri))
    q0 h) as (q1 & h' & Hrun & -> & Hl & Hdone & _).
  - split; [reflexivity|]. split; [exact Hq0|]. split.
    + intros a Ha. lia.
    + intros a Ha. apply HR. lia.
  - intros i q hk Hi (-> & Hl & Hdone & Htodo). rewrite Hq0 in Hi.
    eexists. exists h. split.
    + run (index_at q i (R i) h (proj1 Hi) (Htodo i ltac:(lia))).
      run (index_at rr i (R' i) h (proj1 Hi) (HR' i Hi)).
      apply update_at. lia.
    + split; [reflexivity|]. rewrite len_insert. split; [exact Hl|]. split.
      * intros a Ha. destruct (decide (a = i)) as [->|Hne].
        -- apply list_lookup_insert_eq. unfold len in Hl. lia.
        -- rewrite list_lookup_insert_ne by lia. apply Hdone. lia.
      * intros a Ha. rewrite list_lookup_insert_ne by lia. apply Htodo. lia.
  - exists q1. rewrite Hq0 in Hdone. split; [exact Hrun|]. split; assumption.
Qed.

Lemma len_app {A : Type} (l1 l2 : list A) : len (l1 ++ l2) = len l1 + len l2.
Proof. unfold len. rewrite length_app. lia. Qed.

(** [AppendCol] keeps the rows and puts [v[i]] at the end of row [i]; the
    buffer has [r * (c + 1)] values. *)
Lemma AppendCol_appends (h : heap) (m : loc) (mm : Mat) (v : list float64) :
  h !! m = Some mm -> wf mm -> len v = r mm -> c mm < GoInt.max_int ->
  exists l,
    AppendCol m v h = Done m (<[m := mkMat (r mm) (c mm + 1) l]> h) /\
    len l = r mm * (c mm + 1) /\
    forall i j, 0 <= i < r mm -> 0 <= j <= c mm ->
      l !! Z.to_nat (i * (c mm + 1) + j)
      = if j <? c mm then cell mm i j else v !! Z.to_nat i.
Proof.
  intros Hm Wm Hv Hcmax. pose proof Wm as [Hr Hc Hlen Hfit].
  pose proof (lookup_lt_Some _ _ _ Hm) as Lm.
  destruct (ToSlice_rows h m mm Hm Wm) as (q0 & Hq0 & Hq0l & Hq0r).
  destruct (AppendCol_rows h q0 v (row_of mm) (r mm) Hq0l Hv Hq0r)
    as (q1 & Hq1 & Hq1l & Hq1r).
  assert (Hm1 : <[m := mkMat (r mm) (c mm + 1) (vals mm ++ v)]> h !! m
                = Some (mkMat (r mm) (c mm + 1) (vals mm ++ v)))
    by (apply list_lookup_insert_eq; exact Lm).
  assert (Hmax1 : r mm * (c mm + 1) <= GoInt.max_int).
  { destruct (decide (c mm = 0)) as [E|E]; [rewrite E; lia | nia]. }
  destruct (restride_fills _ m _ q1
    (fun i j => if j <? c mm then el mm i j else default F64.zero (v !! Z.to_nat i))
    Hm1) as (l & Hrun & Hl & Hfill); cbn [r c vals] in *.
  - lia.
  - lia.
  - rewrite len_app, Hlen, Hv. lia.
  - exact Hmax1.
  - intros i j Hi Hj. destruct (Hq1r i Hi) as (vi & Hvi & Hqi).
    exists (row_of mm i ++ [vi]). split; [exact Hqi|].
    pose proof (len_row_of mm i ltac:(lia)) as Hrl. unfold len in Hrl.
    destruct (j <? c mm) eqn:Ej.
    + rewrite lookup_app_l by lia. apply row_of_lookup. lia.
    + rewrite lookup_app_r by lia.
      replace (Z.to_nat j - length (row_of mm i))%nat with 0%nat by lia.
      rewrite Hvi. reflexivity.
  - rewrite list_insert_insert_eq in Hrun.
    exists l. split; [|split; [exact Hl|]].
    + unfold AppendCol. run (get_r_at _ _ _ Hm).
      run (exit_if_pass (negb (r mm =? len v)) ShapeMismatch h
             ltac:(rewrite Hv, Z.eqb_refl; reflexivity)).
      run Hq0. run Hq1.
      run (get_c_at _ _ _ Hm).
      rewrite add_small by (apply in_range_intro; unfold GoInt.max_int in *; lia).
      run (set_c_at _ _ _ (c mm + 1) Hm).
      assert (Hm0 : <[m := mkMat (r mm) (c mm + 1) (vals mm)]> h !! m
                    = Some (mkMat (r mm) (c mm + 1) (vals mm)))
        by (apply list_lookup_insert_eq; exact Lm).
      run (get_vals_at _ _ _ Hm0). cbn [vals].
      run (set_vals_at _ _ _ (append (vals mm) v) Hm0). cbn [r c].
      rewrite list_insert_insert_eq. unfold append.
      run Hrun. reflexivity.
    + intros i j Hi Hj.
      assert (Hj' : 0 <= j < c mm + 1) by lia.
      rewrite (Hfill i j Hi Hj').
      destruct (j <? c mm) eqn:Ej.
      * symmetry. apply el_cell; [assumption | assumption | lia].
      * destruct (Hq1r i Hi) as (vi & Hvi & _). rewrite Hvi. reflexivity.
Qed.

(** [Concat] keeps the rows of the receiver and puts row [i] of [n] at the
    end of row [i]; the buffer has [r * (c + n.c)] values.  The operand may
    be the receiver itself. *)
Lemma Concat_appends (h : heap) (m n : loc) (mm mn : Mat) :
  h !! m = Some mm -> h !! n = Some mn -> wf mm -> wf mn ->
  r mm = r mn -> c mm + c mn <= GoInt.max_int ->
  exists l,
    Concat m n h = Done m (<[m := mkMat (r mm) (c mm + c mn) l]> h) /\
    len l = r mm * (c mm + c mn) /\
    forall i j, 0 <= i < r mm -> 0 <= j < c mm + c mn ->
      l !! Z.to_nat (i * (c mm + c mn) + j)
      = if j <? c mm then cell mm i j else cell mn i (j - c mm).
Proof.
  intros Hm Hn Wm Wn Er Hcmax.
  pose proof Wm as [Hr Hc Hlen Hfit]. pose proof Wn as [Hr' Hc' Hlen' Hfit'].
  pose proof (lookup_lt_Some _ _ _ Hm) as Lm.
  destruct (ToSlice_rows h m mm Hm Wm) as (q0 & Hq0 & Hq0l & Hq0r).
  destruct (ToSlice_rows h n mn Hn Wn) as (rr & Hrr & Hrrl & Hrrr).
  rewrite <- Er in Hrrr.
  set (h0 := <[m := mkMat (r mm) (c mm) (vals mm ++ vals mn)]> h).
  assert (Hm0 : h0 !! m = Some (mkMat (r mm) (c mm) (vals mm ++ vals mn)))
    by (apply list_lookup_insert_eq; exact Lm).
  assert (Hn0 : exists mn0, h0 !! n = Some mn0 /\ c mn0 = c mn).
  { destruct (decide (n = m)) as [->|Hne].
    - eexists. split; [exact Hm0|]. cbn [c]. congruence.
    - exists mn. split; [|reflexivity].
      unfold h0. rewrite list_lookup_insert_ne by congruence. exact Hn. }
  destruct Hn0 as (mn0 & Hn0 & Ecn).
  destruct (Concat_rows h0 q0 rr (row_of mm) (row_of mn) (r mm) Hq0l Hq0r Hrrr)
    as (q1 & Hq1 & Hq1l & Hq1r).
  assert (Hm1 : <[m := mkMat (r mm) (c mm + c mn) (vals mm ++ vals mn)]> h !! m
                = Some (mkMat (r mm) (c mm + c mn) (vals mm ++ vals mn)))
    by (apply list_lookup_insert_eq; exact Lm).
  assert (Hmax1 : r mm * (c mm + c mn) <= GoInt.max_int).
  { rewrite Z.mul_add_distr_l. rewrite Er at 2. lia. }
  destruct (restride_fills _ m _ q1
    (fun i j => if j <? c mm then el mm i j else el mn i (j - c mm))
    Hm1) as (l & Hrun & Hl & Hfill); cbn [r c vals] in *.
  - lia.
  - lia.
  - rewrite len_app, Hlen, Hlen', Er. lia.
  - exact Hmax1.
  - intros i j Hi Hj. exists (row_of mm i ++ row_of mn i). split; [apply Hq1r; exact Hi|].
    pose proof (len_row_of mm i ltac:(lia)) as Hrl. unfold len in Hrl.
    destruct (j <? c mm) eqn:Ej.
    + rewrite lookup_app_l by lia. apply row_of_lookup. lia.
    + rewrite lookup_app_r by lia.
      replace (Z.to_nat j - length (row_of mm i))%nat with (Z.to_nat (j - c mm)) by lia.
      apply row_of_lookup. lia.
  - rewrite list_insert_insert_eq in Hrun.
    exists l. split; [|split; [exact Hl|]].
    + unfold Concat. run (get_r_at _ _ _ Hm). run (get_r_at _ _ _ Hn).
      run (exit_if_pass (negb (r mm =? r mn)) ShapeMismatch h
             ltac:(rewrite Er, Z.eqb_refl; reflexivity)).
      run Hq0. run (Vals_copy h n mn Hn). run Hrr.
      run (get_vals_at _ _ _ Hm).
      run (set_vals_at _ _ _ (append (vals mm) (vals mn)) Hm).
      unfold append. fold h0. run Hq1.
      run (get_c_at _ _ _ Hm0). run (get_c_at _ _ _ Hn0). cbn [c]. rewrite Ecn.
      rewrite add_small by (apply in_range_intro; unfold GoInt.max_int in *; lia).
      run (set_c_at _ _ _ (c mm + c mn) Hm0). cbn [r vals].
      unfold h0. rewrite list_insert_insert_eq.
      run Hrun. reflexivity.
    + intros i j Hi Hj. rewrite (Hfill i j Hi Hj).
      destruct (j <? c mm) eqn:Ej.
      * symmetry. apply el_cell; [assumption | assumption | lia].
      * symmetry. apply el_cell; [assumption | lia | lia].
Qed.

(** ** [AppendRow] and [Reshape] *)

(** The two copy loops of the growing branch of [AppendRow]. *)
Lemma AppendRow_copies (h : heap) (m : loc) (mm : Mat) (v : list float64) :
  h !! m = Some mm -> len (vals mm) + len v <= GoInt.max_int ->
  exists nv,
    (newVals <- for_range (vals mm) (fun i nv =>
                  x <- load m i ;; update nv i x)
                  (replicate (Z.to_nat (len (vals mm) + len v)) F64.zero) ;;
     for_range v (fun i nv =>
       x <- index v i ;; update nv (len (vals mm) +! i) x) newVals) h
    = Done nv h /\ nv = vals mm ++ v.
Proof.
  intros Hm Hmax.
  set (N := len (vals mm) + len v).
  assert (HN : 0 <= N) by (unfold N, len; lia).
  destruct (for_range_inv
    (fun i (nv : list float64) hk => hk = h /\ len nv = N /\
       forall a, 0 <= a < i -> nv !! Z.to_nat a = vals mm !! Z.to_nat a)
    (vals mm) (fun i nv => x <- load m i ;; update nv i x)
    (replicate (Z.to_nat N) F64.zero) h)
    as (nv1 & h' & Hrun1 & -> & Hl1 & Hnv1).
  - split; [reflexivity|]. split; [apply len_replicate; exact HN|]. intros a Ha. lia.
  - intros i nv hk Hi (-> & Hl & Hnv).
    destruct (lookup_lt_is_Some_2 (vals mm) (Z.to_nat i)) as [x Hx]; [unfold len in Hi; lia|].
    eexists. exists h. split.
    + run (load_at _ _ _ _ _ Hm (proj1 Hi) Hx). apply update_at. unfold N, len in *. lia.
    + split; [reflexivity|]. rewrite len_insert. split; [exact Hl|].
      intros a Ha. destruct (decide (a = i)) as [->|Hne].
      * rewrite list_lookup_insert_eq by (unfold N, len in *; lia). symmetry. exact Hx.
      * rewrite list_lookup_insert_ne by lia. apply Hnv. lia.
  - destruct (for_range_inv
      (fun i (nv : list float64) hk => hk = h /\ len nv = N /\
         (forall a, 0 <= a < len (vals mm) -> nv !! Z.to_nat a = vals mm !! Z.to_nat a) /\
         (forall a, 0 <= a < i ->
            nv !! Z.to_nat (len (vals mm) + a) = v !! Z.to_nat a))
      v (fun i nv => x <- index v i ;; update nv (len (vals mm) +! i) x)
      nv1 h) as (nv2 & h' & Hrun2 & -> & Hl2 & Hold & Hnew).
    + split; [reflexivity|]. split; [exact Hl1|]. split; [exact Hnv1|].
      intros a Ha. lia.
    + intros i nv hk Hi (-> & Hl & Hold & Hnew).
      destruct (lookup_lt_is_Some_2 v (Z.to_nat i)) as [x Hx]; [unfold len in Hi; lia|].
      assert (E : len (vals mm) +! i = len (vals mm) + i).
      { apply add_small, in_range_intro. unfold GoInt.max_int, len in *. lia. }
      eexists. exists h. split.
      * run (index_at v i x h (proj1 Hi) Hx). rewrite E.
        apply update_at. unfold N, len in *. lia.
      * split; [reflexivity|]. rewrite len_insert. split; [exact Hl|]. split.
        -- intros a Ha. rewrite list_lookup_insert_ne by (unfold len in *; lia).
           apply Hold. exact Ha.
        -- intros a Ha. destruct (decide (a = i)) as [->|Hne].
           ++ rewrite list_lookup_insert_eq by (unfold N, len in *; lia).
              symmetry. exact Hx.
           ++ rewrite list_lookup_insert_ne by (unfold len in *; lia).
              apply Hnew. lia.
    + exists nv2. split; [run Hrun1; exact Hrun2|].
      apply list_eq. intros k. unfold N, len in *.
      destruct (decide (k < length (vals mm))%nat) as [Hk|Hk].
      * rewrite lookup_app_l by lia.
        rewrite <- (Nat2Z.id k). apply Hold. lia.
      * rewrite lookup_app_r by lia.
        destruct (decide (k < length (vals mm) + length v)%nat) as [Hk2|Hk2].
        -- specialize (Hnew (Z.of_nat (k - length (vals mm))) ltac:(lia)).
           rewrite Nat2Z.id in Hnew. rewrite <- Hnew. f_equal. lia.
        -- rewrite !lookup_ge_None_2 by lia. reflexivity.
Qed.

(** [AppendRow] puts [v] at the end of the buffer, whether the capacity
    was enough or not. *)
Lemma AppendRow_appends (grow : bool) (h : heap) (m : loc) (mm : Mat)
    (v : list float64) :
  h !! m = Some mm -> wf mm -> len v = c mm ->
  2 * ((r mm + 1) * c mm) <= GoInt.max_int -> r mm < GoInt.max_int ->
  AppendRow grow m v h
  = Done m (<[m := mkMat (r mm + 1) (c mm) (vals mm ++ v)]> h).
Proof.
  intros Hm [Hr Hc Hlen Hfit] Hv Hfit' Hrmax.
  pose proof (lookup_lt_Some _ _ _ Hm) as Lm.
  assert (Hsum : len (vals mm) + len v = (r mm + 1) * c mm) by lia.
  assert (Hpos : 0 <= (r mm + 1) * c mm) by nia.
  unfold AppendRow. run (get_c_at _ _ _ Hm).
  run (exit_if_pass (negb (c mm =? len v)) ShapeMismatch h
         ltac:(rewrite Hv, Z.eqb_refl; reflexivity)).
  run (get_vals_at _ _ _ Hm).
  assert (Htail : forall h1 m1,
            h1 = <[m := m1]> h -> m1 = mkMat (r mm) (c mm) (vals mm ++ v) ->
            (mr <- get_r m ;; set_r m (mr +! 1) ;;; ret m) h1
            = Done m (<[m := mkMat (r mm + 1) (c mm) (vals mm ++ v)]> h)).
  { intros h1 m1 -> ->.
    assert (Hm1 : <[m := mkMat (r mm) (c mm) (vals mm ++ v)]> h !! m
                  = Some (mkMat (r mm) (c mm) (vals mm ++ v)))
      by (apply list_lookup_insert_eq; exact Lm).
    run (get_r_at _ _ _ Hm1). cbn [r].
    rewrite add_small by (apply in_range_intro; unfold GoInt.max_int in *; lia).
    run (set_r_at _ _ _ (r mm + 1) Hm1). cbn [c vals].
    rewrite list_insert_insert_eq. reflexivity. }
  destruct grow.
  - assert (E1 : len (vals mm) +! len v = len (vals mm) + len v).
    { apply add_small, in_range_intro. unfold GoInt.max_int in *. lia. }
    assert (E2 : len (vals mm) +! len v *! 2 = len (vals mm) + len v * 2).
    { rewrite mul_small by (apply in_range_intro; unfold GoInt.max_int in *; nia).
      apply add_small, in_range_intro. unfold GoInt.max_int in *. nia. }
    rewrite E1, E2.
    destruct (AppendRow_copies h m mm v Hm ltac:(unfold GoInt.max_int in *; lia))
      as (nv & Hcopy & ->).
    assert (Hbranch :
      (newVals <- make (len (vals mm) + len v) (len (vals mm) + len v * 2) ;;
       newVals <- for_range (vals mm) (fun i nv =>
                    x <- load m i ;; update nv i x) newVals ;;
       newVals <- for_range v (fun i nv =>
                    x <- index v i ;; update nv (len (vals mm) +! i) x) newVals ;;
       set_vals m newVals) h
      = Done tt (<[m := mkMat (r mm) (c mm) (vals mm ++ v)]> h)).
    { run (make_ok (len (vals mm) + len v) (len (vals mm) + len v * 2) h
             ltac:(unfold len; lia)).
      unfold bind in Hcopy |- *.
      destruct (for_range (vals mm) _ _ h) as [nv1 h1|e h1]; [|discriminate].
      destruct (for_range v _ nv1 h1) as [nv2 h2|e h2]; [|discriminate].
      injection Hcopy as -> ->.
      apply (set_vals_at _ _ _ _ Hm). }
    run Hbranch. apply (Htail _ _ eq_refl eq_refl).
  - run (set_vals_at _ _ _ (append (vals mm) v) Hm).
    apply (Htail _ _ eq_refl eq_refl).
Qed.

Lemma Reshape_keeps_values (h : heap) (m : loc) (mm : Mat) (rows cols : Z) :
  h !! m = Some mm -> wf mm ->
  GoInt.in_range (rows * cols) ->
  (rows * cols = r mm * c mm ->
   Reshape m rows cols h = Done m (<[m := mkMat rows cols (vals mm)]> h)) /\
  (rows * cols <> r mm * c mm ->
   Reshape m rows cols h = Exit ShapeMismatch h).
Proof.
  intros Hm [Hr Hc Hlen Hfit] Hrange.
  pose proof (lookup_lt_Some _ _ _ Hm) as Lm.
  assert (Hpos : 0 <= r mm * c mm) by nia.
  assert (E1 : rows *! cols = rows * cols) by (apply mul_small; exact Hrange).
  assert (E2 : r mm *! c mm = r mm * c mm).
  { apply mul_small, in_range_intro. unfold GoInt.max_int in *. lia. }
  unfold Reshape. split; intros Hprod.
  - run (get_r_at _ _ _ Hm). run (get_c_at _ _ _ Hm).
    rewrite E1, E2, Hprod, Z.eqb_refl. cbn [negb].
    run (set_r_at _ _ _ rows Hm).
    assert (Hm1 : <[m := mkMat rows (c mm) (vals mm)]> h !! m
                  = Some (mkMat rows (c mm) (vals mm)))
      by (apply list_lookup_insert_eq; exact Lm).
    run (set_c_at _ _ _ cols Hm1). cbn [r vals].
    rewrite list_insert_insert_eq. reflexivity.
  - run (get_r_at _ _ _ Hm). run (get_c_at _ _ _ Hm).
    rewrite E1, E2.
    destruct (rows * cols =? r mm * c mm) eqn:E; [lia | reflexivity].
Qed.

(** ** Scalar operands, [SetAll], [Copy] *)

Lemma mapped_step {A : Type} (g : A -> A) (vs : list A) (i : nat) (x : A) :
  vs !! i = Some x ->
  <[i := g x]> (map g (take i vs) ++ drop i vs)
  = map g (take (Datatypes.S i) vs) ++ drop (Datatypes.S i) vs.
Proof.
  intros Hx. pose proof (lookup_lt_Some _ _ _ Hx) as Lx.
  assert (Hl : length (map g (take i vs)) = i) by (rewrite length_map, length_take; lia).
  rewrite insert_app_r_alt by lia. rewrite Hl, Nat.sub_diag.
  rewrite (drop_S _ _ _ Hx). simpl.
  rewrite (take_S_r _ _ _ Hx), map_app. simpl.
  rewrite <- app_assoc. reflexivity.
Qed.

(** A loop that replaces every value [x] of the receiver by [g x]. *)
Lemma map_loop (g : float64 -> float64) (body : Z -> unit -> M unit)
    (h : heap) (m : loc) (mm : Mat) :
  h !! m = Some mm ->
  (forall i l x hk, 0 <= i ->
     hk !! m = Some (mkMat (r mm) (c mm) l) -> l !! Z.to_nat i = Some x ->
     body i tt hk = Done tt (<[m := mkMat (r mm) (c mm) (<[Z.to_nat i := g x]> l)]> hk)) ->
  for_range (vals mm) body tt h
  = Done tt (<[m := mkMat (r mm) (c mm) (map g (vals mm))]> h).
Proof.
  intros Hm Hbody. pose proof (lookup_lt_Some _ _ _ Hm) as Lm.
  set (state := fun i : Z =>
    <[m := mkMat (r mm) (c mm)
             (map g (take (Z.to_nat i) (vals mm)) ++ drop (Z.to_nat i) (vals mm))]> h).
  destruct (for_range_inv (fun i (_ : unit) hi => hi = state i) (vals mm) body tt h)
    as ([] & h' & Hrun & Hh').
  - unfold state. cbv beta. change (Z.to_nat 0) with 0%nat.
    rewrite take_0, drop_0. cbn [map app].
    symmetry. apply list_insert_id. destruct mm; exact Hm.
  - intros i [] hi Hi ->. unfold len in Hi.
    destruct (lookup_lt_is_Some_2 (vals mm) (Z.to_nat i)) as [x Hx]; [lia|].
    exists tt. eexists. split.
    + eapply Hbody; [lia | |].
      * unfold state. cbv beta. apply list_lookup_insert_eq. exact Lm.
      * assert (Hl : length (map g (take (Z.to_nat i) (vals mm))) = Z.to_nat i)
          by (rewrite length_map, length_take; lia).
        rewrite lookup_app_r by lia. rewrite Hl, Nat.sub_diag.
        rewrite lookup_drop, Nat.add_0_r. exact Hx.
    + unfold state. cbv beta. rewrite list_insert_insert_eq.
      rewrite (mapped_step g _ _ _ Hx).
      replace (Z.to_nat (i + 1)) with (Datatypes.S (Z.to_nat i)) by lia.
      reflexivity.
  - rewrite Hrun, Hh'. unfold state, len. rewrite Nat2Z.id.
    rewrite firstn_all, drop_all, app_nil_r. reflexivity.
Qed.

(** With a scalar the four operators apply the operation to every value. *)
Lemma arith_scalar (op : float64 -> float64 -> float64)
    (h : heap) (m : loc) (mm : Mat) (v : float64) :
  h !! m = Some mm ->
  arith op m (OFloat v) h
  = Done m (<[m := mkMat (r mm) (c mm) (map (fun x => op x v) (vals mm))]> h).
Proof.
  intros Hm. unfold arith. run (get_vals_at _ _ _ Hm).
  assert (Hbody : forall i l x hk, 0 <= i ->
    hk !! m = Some (mkMat (r mm) (c mm) l) -> l !! Z.to_nat i = Some x ->
    (fun i (_ : unit) => x <- load m i ;; store m i (op x v)) i tt hk
    = Done tt (<[m := mkMat (r mm) (c mm) (<[Z.to_nat i := op x v]> l)]> hk)).
  { intros i l x hk Hi Hobj Hx. cbv beta.
    run (load_at _ _ _ _ _ Hobj Hi Hx).
    apply (store_at _ _ _ _ _ Hobj). cbn [vals].
    apply lookup_lt_Some in Hx. unfold len. lia. }
  run (map_loop (fun x => op x v) _ h m mm Hm Hbody). reflexivity.
Qed.

Lemma SetAll_sets (h : heap) (m : loc) (mm : Mat) (val : float64) :
  h !! m = Some mm ->
  SetAll m val h
  = Done m (<[m := mkMat (r mm) (c mm) (map (fun _ => val) (vals mm))]> h).
Proof.
  intros Hm. unfold SetAll. run (get_vals_at _ _ _ Hm).
  assert (Hbody : forall i l x hk, 0 <= i ->
    hk !! m = Some (mkMat (r mm) (c mm) l) -> l !! Z.to_nat i = Some x ->
    (fun i (_ : unit) => store m i val) i tt hk
    = Done tt (<[m := mkMat (r mm) (c mm) (<[Z.to_nat i := val]> l)]> hk)).
  { intros i l x hk Hi Hobj Hx. cbv beta.
    apply (store_at _ _ _ _ _ Hobj). cbn [vals].
    apply lookup_lt_Some in Hx. unfold len. lia. }
  run (map_loop (fun _ => val) _ h m mm Hm Hbody). reflexivity.
Qed.

(** [Copy] makes a new object with the dimensions and the values of the
    receiver. *)
Lemma Copy_copies (h : heap) (m : loc) (mm : Mat) :
  h !! m = Some mm -> wf mm ->
  Copy m h = Done (length h) (h ++ [mkMat (r mm) (c mm) (vals mm)]).
Proof.
  intros Hm [Hr Hc Hlen Hfit]. unfold Copy.
  run (get_r_at _ _ _ Hm). run (get_c_at _ _ _ Hm).
  run (New_rect h (r mm) (c mm) ltac:(lia) ltac:(lia) Hfit).
  set (n0 := mkMat (r mm) (c mm) (replicate (Z.to_nat (r mm * c mm)) F64.zero)).
  run (get_vals_at _ _ _ (new_object h n0)).
  run (get_vals_at _ _ _ (old_object h m mm n0 Hm)).
  run (set_vals_at _ _ _ (copy (vals n0) (vals mm)) (new_object h n0)).
  rewrite new_object_insert. unfold n0. cbn [r c vals].
  rewrite copy_same_length by (rewrite length_replicate; unfold len in Hlen; lia).
  reflexivity.
Qed.

Lemma shaped_after_arith (op : float64 -> float64 -> float64)
    (h : heap) (m : loc) (mm : Mat) (a : operand) (p : loc) (h' : heap) :
  h !! m = Some mm -> shaped mm ->
  (forall n, a = OMat n -> exists mn, h !! n = Some mn /\ shaped mn) ->
  arith op m a h = Done p h' ->
  exists m', p = m /\ h' = <[m := m']> h /\ shaped m'.
Proof.
  intros Hm Sm Ha Hrun. destruct a as [v|n|].
  - rewrite (arith_scalar op h m mm v Hm) in Hrun. injection Hrun as <- <-.
    eexists. split; [reflexivity|]. split; [reflexivity|].
    unfold shaped in *. cbn [r c vals]. unfold len in *. rewrite length_map. exact Sm.
  - destruct (Ha n eq_refl) as (mn & Hn & Sn).
    destruct (decide (r mn = r mm /\ c mn = c mm)) as [[Er Ec]|Hne].
    + rewrite (arith_same_shape op h m n mm mn Hm Hn Sm Sn Er Ec) in Hrun.
      injection Hrun as <- <-.
      eexists. split; [reflexivity|]. split; [reflexivity|].
      unfold shaped in *. cbn [r c vals]. unfold len in *.
      rewrite length_zip_with. rewrite Er, Ec in Sn. lia.
    + rewrite (arith_other_shape op h m n mm mn Hm Hn) in Hrun; [discriminate|].
      destruct (decide (r mn = r mm)); [right | left]; tauto.
  - discriminate.
Qed.

Lemma shaped_after_SetAll (h : heap) (m : loc) (mm : Mat) (val : float64) :
  h !! m = Some mm -> shaped mm ->
  exists m', SetAll m val h = Done m (<[m := m']> h) /\ shaped m'.
Proof.
  intros Hm Sm. eexists. split; [exact (SetAll_sets h m mm val Hm)|].
  unfold shaped in *. cbn [r c vals]. unfold len in *. rewrite length_map. exact Sm.
Qed.

Lemma shaped_after_Set (h : heap) (m : loc) (mm : Mat) (row col : Z)
    (val : float64) (p : loc) (h' : heap) :
  h !! m = Some mm -> shaped mm ->
  Set_ m row col val h = Done p h' ->
  exists m', p = m /\ h' = <[m := m']> h /\ shaped m'.
Proof.
  intros Hm Sm Hrun. unfold Set_ in Hrun.
  rewrite (bind_done _ _ _ _ _ (get_r_at _ _ _ Hm)) in Hrun.
  set (i := row *! r mm +! col) in Hrun.
  destruct (decide (0 <= i < len (vals mm))) as [Hi|Hi].
  - rewrite (bind_done _ _ _ _ _ (store_at _ _ _ _ val Hm Hi)) in Hrun.
    injection Hrun as <- <-.
    eexists. split; [reflexivity|]. split; [reflexivity|].
    unfold shaped in *. cbn [r c vals]. rewrite len_insert. exact Sm.
  - assert (Hout : i < 0 \/ len (vals mm) <= i) by lia.
    rewrite (bind_exit _ _ _ _ _ (store_out _ _ _ _ val Hm Hout)) in Hrun.
    discriminate.
Qed.

(** ** [FromData] on a flat slice *)

Lemma New_empty (h : heap) : New [] h = Done (length h) (h ++ [mkMat 0 0 []]).
Proof. reflexivity. Qed.

(** The tail that the three flat cases share: allocate, copy, set the
    dimensions. *)
Lemma FromData_flat_fill (h : heap) (v : list float64) (n cap a b : Z) :
  n = len v -> n <= cap ->
  (s <- make n cap ;;
   set_vals (length h) s ;;;
   mv <- get_vals (length h) ;; set_vals (length h) (copy mv v) ;;;
   set_r (length h) a ;;; set_c (length h) b ;;; ret (length h))
    (h ++ [mkMat 0 0 []])
  = Done (length h) (h ++ [mkMat a b v]).
Proof.
  intros -> Hcap.
  run (make_ok (len v) cap (h ++ [mkMat 0 0 []]) ltac:(unfold len in *; lia)).
  run (set_vals_at _ _ _ (replicate (Z.to_nat (len v)) F64.zero)
         (new_object h (mkMat 0 0 []))).
  rewrite new_object_insert. cbn [r c].
  run (get_vals_at _ _ _ (new_object h
         (mkMat 0 0 (replicate (Z.to_nat (len v)) F64.zero)))). cbn [vals].
  rewrite copy_same_length by (rewrite length_replicate; unfold len; lia).
  run (set_vals_at _ _ _ v (new_object h
         (mkMat 0 0 (replicate (Z.to_nat (len v)) F64.zero)))).
  rewrite new_object_insert. cbn [r c].
  run (set_r_at _ _ _ a (new_object h (mkMat 0 0 v))).
  rewrite new_object_insert. cbn [c vals].
  run (set_c_at _ _ _ b (new_object h (mkMat a 0 v))).
  rewrite new_object_insert. reflexivity.
Qed.

(** With a flat slice, [FromData] accepts the dimensions exactly when their
    product is the number of values (one dimension [a] standing for [a]
    rows of one column), and the matrix has the dimensions given and the
    values of the slice. *)
Lemma FromData_flat (h : heap) (v : list float64) (a b : Z) :
  2 * len v <= GoInt.max_int -> GoInt.in_range (a * b) ->
  (a = len v ->
   FromData (Flat v) [a] h = Done (length h) (h ++ [mkMat a 1 v])) /\
  (a <> len v ->
   FromData (Flat v) [a] h = Exit ShapeMismatch (h ++ [mkMat 0 0 []])) /\
  (a * b = len v ->
   FromData (Flat v) [a; b] h = Done (length h) (h ++ [mkMat a b v])) /\
  (a * b <> len v ->
   FromData (Flat v) [a; b] h = Exit ShapeMismatch (h ++ [mkMat 0 0 []])).
Proof.
  intros Hfit Hab.
  assert (Hl : 0 <= len v) by (unfold len; lia).
  assert (E2 : len v *! 2 = len v * 2).
  { apply mul_small, in_range_intro. unfold GoInt.max_int in *. lia. }
  assert (Eab : a *! b = a * b) by (apply mul_small; exact Hab).
  unfold FromData.
  repeat split; [intros -> | intros Hne | intros Hprod | intros Hne];
    run (New_empty h).
  - run (exit_if_pass (negb (len v =? len v)) ShapeMismatch (h ++ [mkMat 0 0 []])
           ltac:(rewrite Z.eqb_refl; reflexivity)).
    apply FromData_flat_fill; [reflexivity | lia].
  - rewrite (bind_exit _ _ _ _ _
      (exit_if_fail (negb (a =? len v)) ShapeMismatch (h ++ [mkMat 0 0 []]) ltac:(lia))).
    reflexivity.
  - rewrite Eab, Hprod.
    run (exit_if_pass (negb (len v =? len v)) ShapeMismatch (h ++ [mkMat 0 0 []])
           ltac:(rewrite Z.eqb_refl; reflexivity)).
    apply FromData_flat_fill; [reflexivity | lia].
  - rewrite Eab.
    rewrite (bind_exit _ _ _ _ _
      (exit_if_fail (negb (a * b =? len v)) ShapeMismatch (h ++ [mkMat 0 0 []]) ltac:(lia))).
    reflexivity.
Qed.

(** ** [FromData] with dimensions *)

(** With a nested slice of [a * a] values and the dimension [a], for any
    [a] above 2, [FromData] exits: it compares [a * 2] with the number of
    values. *)
Lemma FromData_nested_square_refused (h : heap) (v0 : list float64)
    (rest : list (list float64)) (a : Z) :
  2 < a -> a * a <= GoInt.max_int ->
  len (v0 :: rest) * len v0 = a * a ->
  FromData (Nested (v0 :: rest)) [a] h
  = Exit ShapeMismatch (h ++ [mkMat 0 0 []]).
Proof.
  intros Ha Hmax Hcount. unfold FromData. run (New_empty h).
  run (index_at (v0 :: rest) 0 v0 (h ++ [mkMat 0 0 []]) ltac:(lia) eq_refl).
  assert (E1 : a *! 2 = a * 2).
  { apply mul_small, in_range_intro. unfold GoInt.max_int in *. nia. }
  assert (E2 : len (v0 :: rest) *! len v0 = a * a).
  { rewrite mul_small; [exact Hcount|].
    rewrite Hcount. apply in_range_intro. unfold GoInt.max_int in *. nia. }
  rewrite E1, E2.
  rewrite (bind_exit _ _ _ _ _
    (exit_if_fail (negb (a * 2 =? a * a)) ShapeMismatch (h ++ [mkMat 0 0 []])
       ltac:(nia))).
  reflexivity.
Qed.

(** With a nested slice and two dimensions, [FromData] exits whenever the
    first dimension is not the number of rows of the slice, whatever the
    product of the two is. *)
Lemma FromData_nested_rows_refused (h : heap) (v : list (list float64)) (a b : Z) :
  a <> len v ->
  FromData (Nested v) [a; b] h = Exit ShapeMismatch (h ++ [mkMat 0 0 []]).
Proof.
  intros Hne. unfold FromData. run (New_empty h).
  rewrite (bind_exit _ _ _ _ _
    (exit_if_fail (negb (a =? len v)) ShapeMismatch (h ++ [mkMat 0 0 []])
       ltac:(lia))).
  reflexivity.
Qed.

(** C5.  With a nested slice and one dimension [a], [FromData] compares
    [a*2] with the number of values and takes the dimensions from the
    slice: 9 values with [a = 3] are refused, 6 values in one row with
    [a = 3] are accepted as a 1-by-6 matrix over a buffer of 9.  With two
    dimensions it wants [a] rows and [b] columns in the slice itself: a
    2-by-3 slice with [(3, 2)] is refused. *)
Theorem FromData_nested_dimensions :
  FromData (Nested [[fl 1; fl 2; fl 3]; [fl 4; fl 5; fl 6]; [fl 7; fl 8; fl 9]]) [3] []
  = Exit ShapeMismatch [mkMat 0 0 []] /\
  FromData (Nested [[fl 1; fl 2; fl 3; fl 4; fl 5; fl 6]]) [3] []
  = Done 0%nat [matrix 1 6 [1; 2; 3; 4; 5; 6; 0; 0; 0]] /\
  FromData (Nested [[fl 1; fl 2; fl 3]; [fl 4; fl 5; fl 6]]) [3; 2] []
  = Exit ShapeMismatch [mkMat 0 0 []].
Proof. repeat split; vm_compute; reflexivity. Qed.

(** ** Operations that keep the shape invariant *)

(** After [AppendRow], [AppendCol], [Concat], [Reshape] and the element-wise
    operators the receiver has a buffer of [rows * cols] values. *)
Lemma shaped_after_AppendCol (h : heap) (m : loc) (mm : Mat) (v : list float64) :
  h !! m = Some mm -> wf mm -> len v = r mm -> c mm < GoInt.max_int ->
  exists m', AppendCol m v h = Done m (<[m := m']> h) /\ shaped m'.
Proof.
  intros Hm Wm Hv Hc.
  destruct (AppendCol_appends h m mm v Hm Wm Hv Hc) as (l & Hrun & Hl & _).
  eexists. split; [exact Hrun|]. exact Hl.
Qed.

Lemma shaped_after_Concat (h : heap) (m n : loc) (mm mn : Mat) :
  h !! m = Some mm -> h !! n = Some mn -> wf mm -> wf mn ->
  r mm = r mn -> c mm + c mn <= GoInt.max_int ->
  exists m', Concat m n h = Done m (<[m := m']> h) /\ shaped m'.
Proof.
  intros Hm Hn Wm Wn Er Hc.
  destruct (Concat_appends h m n mm mn Hm Hn Wm Wn Er Hc) as (l & Hrun & Hl & _).
  eexists. split; [exact Hrun|]. exact Hl.
Qed.

Lemma shaped_after_AppendRow (grow : bool) (h : heap) (m : loc) (mm : Mat)
    (v : list float64) :
  h !! m = Some mm -> wf mm -> len v = c mm ->
  2 * ((r mm + 1) * c mm) <= GoInt.max_int -> r mm < GoInt.max_int ->
  exists m', AppendRow grow m v h = Done m (<[m := m']> h) /\ shaped m'.
Proof.
  intros Hm Wm Hv Hfit Hr.
  eexists. split; [exact (AppendRow_appends grow h m mm v Hm Wm Hv Hfit Hr)|].
  destruct Wm as [_ _ Hlen _]. unfold shaped. cbn [r c vals].
  rewrite len_app, Hlen, Hv. lia.
Qed.

Lemma shaped_after_Reshape (h : heap) (m : loc) (mm : Mat) (rows cols : Z) :
  h !! m = Some mm -> wf mm -> rows * cols = r mm * c mm ->
  exists m', Reshape m rows cols h = Done m (<[m := m']> h) /\ shaped m'.
Proof.
  intros Hm Wm Hprod. pose proof Wm as [Hr Hc Hlen Hfit].
  assert (Hrange : GoInt.in_range (rows * cols)).
  { apply in_range_intro. unfold GoInt.max_int in *. nia. }
  destruct (Reshape_keeps_values h m mm rows cols Hm Wm Hrange) as [Hok _].
  eexists. split; [exact (Hok Hprod)|]. unfold shaped. cbn [r c vals]. lia.
Qed.

Lemma shaped_New (h : heap) (a b : Z) :
  0 <= a -> 0 <= b -> 2 * (a * b) <= GoInt.max_int ->
  exists m', New [a; b] h = Done (length h) (h ++ [m']) /\ shaped m'.
Proof.
  intros Ha Hb Hfit. eexists. split; [exact (New_rect h a b Ha Hb Hfit)|].
  unfold shaped. cbn [r c vals]. apply len_replicate. nia.
Qed.

(** ** The shape invariant *)

(** C6.  The matrix that [FromData] makes of the nested slice
    [[1, 2, 3, 4, 5, 6]] and the dimension 3 has 1 row, 6 columns and 9
    values: [Vals] and [Dims] show a length that is not [rows * cols]. *)
Theorem FromData_breaks_shape :
  (m <- FromData (Nested [[fl 1; fl 2; fl 3; fl 4; fl 5; fl 6]]) [3] ;;
   v <- Vals m ;; d <- Dims m ;; ret (len v, d)) []
  = Done (9, (1, 6)) [matrix 1 6 [1; 2; 3; 4; 5; 6; 0; 0; 0]] /\
  ~ shaped (matrix 1 6 [1; 2; 3; 4; 5; 6; 0; 0; 0]).
Proof.
  split; [vm_compute; reflexivity|].
  unfold shaped. vm_compute. discriminate.
Qed.

(** * Further properties of the package *)

(** ** Filling a new object *)

Lemma filled_step {A : Type} (E : nat -> A) (l0 : list A) (k : nat) :
  (k < length l0)%nat ->
  <[k := E k]> (map E (seq 0 k) ++ drop k l0)
  = map E (seq 0 (Datatypes.S k)) ++ drop (Datatypes.S k) l0.
Proof.
  intros Hk.
  assert (Hl : length (map E (seq 0 k)) = k) by (rewrite length_map, length_seq; reflexivity).
  rewrite insert_app_r_alt by lia. rewrite Hl, Nat.sub_diag.
  destruct (lookup_lt_is_Some_2 l0 k Hk) as [x Hx].
  rewrite (drop_S _ _ _ Hx), seq_S, map_app. simpl.
  rewrite <- app_assoc. reflexivity.
Qed.

(** A loop whose round [i] writes [E i] at index [i] of the object made
    last: it leaves the values [E 0, ..., E (n-1)]. *)
Lemma fill_new_loop (h : heap) (v0 : Mat) (n : Z) (body : Z -> unit -> M unit)
    (E : Z -> float64) :
  0 <= n -> len (vals v0) = n ->
  (forall i l, 0 <= i < n -> len l = n ->
     body i tt (h ++ [mkMat (r v0) (c v0) l])
     = Done tt (h ++ [mkMat (r v0) (c v0) (<[Z.to_nat i := E i]> l)])) ->
  for_upto n body tt (h ++ [v0])
  = Done tt (h ++ [mkMat (r v0) (c v0)
                     (map (fun i => E (Z.of_nat i)) (seq 0 (Z.to_nat n)))]).
Proof.
  intros Hn Hl0 Hbody.
  set (E' := fun i : nat => E (Z.of_nat i)).
  destruct (for_upto_inv
    (fun k (_ : unit) hk =>
       hk = h ++ [mkMat (r v0) (c v0)
                    (map E' (seq 0 (Z.to_nat k)) ++ drop (Z.to_nat k) (vals v0))])
    body n tt (h ++ [v0]) Hn) as ([] & h' & Hrun & ->).
  - change (Z.to_nat 0) with 0%nat. simpl. rewrite drop_0. destruct v0; reflexivity.
  - intros k [] hk Hk ->. unfold len in Hl0.
    exists tt. eexists. split.
    + apply Hbody; [exact Hk|]. unfold len.
      rewrite length_app, length_map, length_seq, length_drop. lia.
    + replace (E k) with (E' (Z.to_nat k)) by (unfold E'; f_equal; lia).
      rewrite filled_step by lia.
      replace (Z.to_nat (k + 1)) with (Datatypes.S (Z.to_nat k)) by lia.
      reflexivity.
  - rewrite Hrun. unfold len in Hl0.
    rewrite drop_ge by lia. rewrite app_nil_r. reflexivity.
Qed.

(** ** [Row] and [Col] as lists *)

Section RowCol.

Variables (h : heap) (m : loc) (mm : Mat).
Hypothesis Hm : h !! m = Some mm.
Hypothesis Wm : wf mm.

(** [Row(x)]: a new 1-by-[c] object with the values of row [x], or of row
    [r + x] for a negative [x]. *)
Lemma Row_row (x : Z) :
  - r mm <= x < r mm ->
  Row m x h
  = Done (length h)
      (h ++ [mkMat 1 (c mm) (row_of mm (if x >=? 0 then x else r mm + x))]).
Proof.
  intros Hx. pose proof Wm as [Hr Hc Hlen Hfit].
  assert (Hneg : GoInt.neg (r mm) = - r mm).
  { apply neg_small, in_range_intro. unfold GoInt.max_int in *. lia. }
  unfold Row. run (get_r_at _ _ _ Hm).
  run (exit_if_pass ((x >=? r mm) || (x <? GoInt.neg (r mm))) IndexOutOfRange h
         ltac:(rewrite Hneg; lia)).
  run (get_c_at _ _ _ Hm).
  assert (Hfit1 : 2 * (1 * c mm) <= GoInt.max_int).
  { assert (0 <= (r mm - 1) * c mm) by (apply Z.mul_nonneg_nonneg; lia). lia. }
  run (New_rect h 1 (c mm) ltac:(lia) ltac:(lia) Hfit1).
  set (v0 := mkMat 1 (c mm) _).
  assert (Hl0 : len (vals v0) = c mm).
  { unfold v0. cbn [vals]. rewrite len_replicate by lia. lia. }
  set (x' := if x >=? 0 then x else r mm + x).
  assert (Hx' : 0 <= x' < r mm) by (unfold x'; destruct (x >=? 0) eqn:E; lia).
  assert (Hloop : forall body : Z -> unit -> M unit,
    (forall i l, 0 <= i < c mm -> len l = c mm ->
       body i tt (h ++ [mkMat 1 (c mm) l])
       = Done tt (h ++ [mkMat 1 (c mm) (<[Z.to_nat i := el mm x' i]> l)])) ->
    (for_upto (c mm) body tt ;;; ret (length h)) (h ++ [v0])
    = Done (length h) (h ++ [mkMat 1 (c mm) (row_of mm x')])).
  { intros body Hb.
    run (fill_new_loop h v0 (c mm) body (el mm x') ltac:(lia) Hl0 Hb).
    reflexivity. }
  assert (Hcellx : forall i, 0 <= i < c mm ->
    x' *! c mm +! i = x' * c mm + i /\ 0 <= x' * c mm + i /\
    vals mm !! Z.to_nat (x' * c mm + i) = Some (el mm x' i)).
  { intros i Hi.
    destruct (row_cells mm Wm x' Hx' i Hi) as [[G0 G1] E]. rewrite E in G0.
    split; [exact E|]. split; [exact G0|].
    exact (el_cell mm x' i Wm Hx' Hi). }
  destruct (x >=? 0) eqn:Ex.
  - apply Hloop. intros i l Hi Hl.
    assert (Exx : x = x') by (unfold x'; reflexivity). rewrite Exx.
    destruct (Hcellx i Hi) as (E & G0 & Hel).
    run (get_c_at _ _ _ (old_object h m mm (mkMat 1 (c mm) l) Hm)). rewrite E.
    run (load_at _ _ _ _ _ (old_object h m mm (mkMat 1 (c mm) l) Hm) G0 Hel).
    apply (store_new h (mkMat 1 (c mm) l)). cbn [vals]. lia.
  - apply Hloop. intros i l Hi Hl.
    assert (Exx : r mm +! x = x').
    { unfold x'. apply add_small, in_range_intro. unfold GoInt.max_int in *. lia. }
    destruct (Hcellx i Hi) as (E & G0 & Hel).
    run (get_r_at _ _ _ (old_object h m mm (mkMat 1 (c mm) l) Hm)).
    run (get_c_at _ _ _ (old_object h m mm (mkMat 1 (c mm) l) Hm)).
    rewrite Exx, E.
    run (load_at _ _ _ _ _ (old_object h m mm (mkMat 1 (c mm) l) Hm) G0 Hel).
    apply (store_new h (mkMat 1 (c mm) l)). cbn [vals]. lia.
Qed.

Lemma Row_out_of_range (x : Z) :
  x < - r mm \/ r mm <= x -> Row m x h = Exit IndexOutOfRange h.
Proof.
  intros Hx. pose proof Wm as [Hr Hc Hlen Hfit].
  assert (Hneg : GoInt.neg (r mm) = - r mm).
  { apply neg_small, in_range_intro. unfold GoInt.max_int in *. lia. }
  unfold Row. run (get_r_at _ _ _ Hm).
  rewrite (bind_exit _ _ _ _ _
    (exit_if_fail ((x >=? r mm) || (x <? GoInt.neg (r mm))) IndexOutOfRange h
       ltac:(rewrite Hneg; lia))).
  reflexivity.
Qed.

(** [Col(x)]: a new [r]-by-1 object with the values of column [x], or of
    column [c + x] for a negative [x]. *)
Lemma Col_column (x : Z) :
  - c mm <= x < c mm ->
  Col m x h
  = Done (length h)
      (h ++ [mkMat (r mm) 1 (col_of mm (if x >=? 0 then x else c mm + x))]).
Proof.
  intros Hx. pose proof Wm as [Hr Hc Hlen Hfit].
  assert (Hneg : GoInt.neg (c mm) = - c mm).
  { apply neg_small, in_range_intro. unfold GoInt.max_int in *. lia. }
  unfold Col. run (get_c_at _ _ _ Hm).
  run (exit_if_pass ((x >=? c mm) || (x <? GoInt.neg (c mm))) IndexOutOfRange h
         ltac:(rewrite Hneg; lia)).
  run (get_r_at _ _ _ Hm).
  assert (Hfit1 : 2 * (r mm * 1) <= GoInt.max_int).
  { assert (0 <= r mm * (c mm - 1)) by (apply Z.mul_nonneg_nonneg; lia). lia. }
  run (New_rect h (r mm) 1 ltac:(lia) ltac:(lia) Hfit1).
  set (v0 := mkMat (r mm) 1 _).
  assert (Hl0 : len (vals v0) = r mm).
  { unfold v0. cbn [vals]. rewrite len_replicate by lia. lia. }
  set (x' := if x >=? 0 then x else c mm + x).
  assert (Hx' : 0 <= x' < c mm) by (unfold x'; destruct (x >=? 0) eqn:E; lia).
  assert (Hloop : forall body : Z -> unit -> M unit,
    (forall i l, 0 <= i < r mm -> len l = r mm ->
       body i tt (h ++ [mkMat (r mm) 1 l])
       = Done tt (h ++ [mkMat (r mm) 1 (<[Z.to_nat i := el mm i x']> l)])) ->
    (for_upto (r mm) body tt ;;; ret (length h)) (h ++ [v0])
    = Done (length h) (h ++ [mkMat (r mm) 1 (col_of mm x')])).
  { intros body Hb.
    run (fill_new_loop h v0 (r mm) body (fun i => el mm i x') ltac:(lia) Hl0 Hb).
    reflexivity. }
  assert (Hcellx : forall i, 0 <= i < r mm ->
    i *! c mm +! x' = i * c mm + x' /\ 0 <= i * c mm + x' /\
    vals mm !! Z.to_nat (i * c mm + x') = Some (el mm i x')).
  { intros i Hi.
    destruct (col_cells mm Wm x' Hx' i Hi) as [[G0 G1] E]. rewrite E in G0.
    split; [exact E|]. split; [exact G0|].
    exact (el_cell mm i x' Wm Hi Hx'). }
  destruct (x >=? 0) eqn:Ex.
  - apply Hloop. intros i l Hi Hl.
    assert (Exx : x = x') by (unfold x'; reflexivity). rewrite Exx.
    destruct (Hcellx i Hi) as (E & G0 & Hel).
    run (get_c_at _ _ _ (old_object h m mm (mkMat (r mm) 1 l) Hm)). rewrite E.
    run (load_at _ _ _ _ _ (old_object h m mm (mkMat (r mm) 1 l) Hm) G0 Hel).
    apply (store_new h (mkMat (r mm) 1 l)). cbn [vals]. lia.
  - apply Hloop. intros i l Hi Hl.
    assert (Exx : c mm +! x = x').
    { unfold x'. apply add_small, in_range_intro. unfold GoInt.max_int in *. lia. }
    destruct (Hcellx i Hi) as (E & G0 & Hel).
    run (get_c_at _ _ _ (old_object h m mm (mkMat (r mm) 1 l) Hm)).
    rewrite Exx, E.
    run (load_at _ _ _ _ _ (old_object h m mm (mkMat (r mm) 1 l) Hm) G0 Hel).
    apply (store_new h (mkMat (r mm) 1 l)). cbn [vals]. lia.
Qed.

End RowCol.

(** [Row(x)] for [-rows <= x < rows] is a new 1-by-[cols] matrix, at a
    location that was not in the store, holding row [x], or row [rows + x]
    when [x] is negative (so that [Row(x)] and [Row(rows + x)] agree); any
    other [x] exits with [IndexOutOfRange] and the store as it was. *)
Theorem Row_negative_index (h : heap) (m : loc) (mm : Mat) (x : Z) :
  h !! m = Some mm -> wf mm ->
  (- r mm <= x < r mm ->
   let i := if x >=? 0 then x else r mm + x in
   Row m x h = Done (length h) (h ++ [mkMat 1 (c mm) (row_of mm i)]) /\
   len (row_of mm i) = c mm /\
   (forall j, 0 <= j < c mm -> row_of mm i !! Z.to_nat j = cell mm i j) /\
   (x < 0 -> Row m (r mm + x) h = Row m x h)) /\
  (x < - r mm \/ r mm <= x -> Row m x h = Exit IndexOutOfRange h).
Proof.
  intros Hm Wm. pose proof Wm as [Hr Hc Hlen Hfit]. split.
  - intros Hx i.
    assert (Hi : 0 <= i < r mm) by (unfold i; destruct (x >=? 0) eqn:E; lia).
    split; [exact (Row_row h m mm Hm Wm x Hx)|].
    split; [apply len_row_of; lia|]. split.
    + intros j Hj. rewrite row_of_lookup by exact Hj.
      symmetry. apply el_cell; assumption.
    + intros Hneg.
      rewrite (Row_row h m mm Hm Wm x Hx).
      rewrite (Row_row h m mm Hm Wm (r mm + x) ltac:(lia)).
      replace (x >=? 0) with false by lia.
      replace (r mm + x >=? 0) with true by lia. reflexivity.
  - exact (Row_out_of_range h m mm Hm Wm x).
Qed.

Lemma Row_negative_index_witness :
  Row 0%nat (-1) [matrix 2 3 [1; 2; 3; 4; 5; 6]]
  = Done 1%nat [matrix 2 3 [1; 2; 3; 4; 5; 6]; matrix 1 3 [4; 5; 6]].
Proof.
  destruct (Row_negative_index [matrix 2 3 [1; 2; 3; 4; 5; 6]] 0%nat
    (matrix 2 3 [1; 2; 3; 4; 5; 6]) (-1) eq_refl ltac:(concrete_wf)) as [Hin _].
  destruct (Hin ltac:(simpl; lia)) as (Hrun & _).
  rewrite Hrun. vm_compute. reflexivity.
Defined.

(** ** Copies are independent *)

(** [Copy] makes a new object with the dimensions and the values of the
    receiver; writing to the copy ([SetAll]) changes no value of the
    receiver. *)
Theorem Copy_independent (h : heap) (m : loc) (mm : Mat) (val : float64) :
  h !! m = Some mm -> wf mm ->
  Copy m h = Done (length h) (h ++ [mm]) /\
  (n <- Copy m ;; SetAll n val ;;; Vals m) h
  = Done (vals mm)
      (h ++ [mkMat (r mm) (c mm) (map (fun _ => val) (vals mm))]).
Proof.
  intros Hm Wm.
  assert (Hcopy : Copy m h = Done (length h) (h ++ [mm])).
  { rewrite (Copy_copies h m mm Hm Wm). destruct mm; reflexivity. }
  split; [exact Hcopy|].
  run Hcopy.
  run (SetAll_sets (h ++ [mm]) (length h) mm val (new_object h mm)).
  rewrite new_object_insert.
  apply Vals_copy. apply lookup_app_l_Some. exact Hm.
Qed.

Lemma Copy_independent_witness :
  (n <- Copy 0%nat ;; SetAll n (fl 9) ;;; Vals 0%nat) [matrix 1 2 [1; 2]]
  = Done [fl 1; fl 2] [matrix 1 2 [1; 2]; matrix 1 2 [9; 9]].
Proof.
  destruct (Copy_independent [matrix 1 2 [1; 2]] 0%nat (matrix 1 2 [1; 2]) (fl 9)
    eq_refl ltac:(concrete_wf)) as [_ Hrun].
  exact Hrun.
Defined.

(** ** [ToSlice] *)

(** [ToSlice] returns [rows] slices of [cols] values, slice [i] holding row
    [i] of the matrix, and leaves the store as it was. *)
Theorem ToSlice_rows_of_matrix (h : heap) (m : loc) (mm : Mat) :
  h !! m = Some mm -> wf mm ->
  exists q,
    ToSlice m h = Done q h /\ len q = r mm /\
    forall i, 0 <= i < r mm ->
      exists row, q !! Z.to_nat i = Some row /\ len row = c mm /\
        forall j, 0 <= j < c mm -> row !! Z.to_nat j = cell mm i j.
Proof.
  intros Hm Wm. pose proof Wm as [Hr Hc Hlen Hfit].
  destruct (ToSlice_rows h m mm Hm Wm) as (q & Hrun & Hl & Hq).
  exists q. split; [exact Hrun|]. split; [exact Hl|].
  intros i Hi. exists (row_of mm i). split; [exact (Hq i Hi)|].
  split; [apply len_row_of; lia|].
  intros j Hj. rewrite row_of_lookup by exact Hj.
  symmetry. apply el_cell; assumption.
Qed.

Lemma ToSlice_rows_of_matrix_witness :
  ToSlice 0%nat [matrix 2 2 [1; 2; 3; 4]]
  = Done [[fl 1; fl 2]; [fl 3; fl 4]] [matrix 2 2 [1; 2; 3; 4]].
Proof.
  destruct (ToSlice_rows_of_matrix [matrix 2 2 [1; 2; 3; 4]] 0%nat
    (matrix 2 2 [1; 2; 3; 4]) eq_refl ltac:(concrete_wf)) as (q & Hrun & _).
  rewrite Hrun. vm_compute in Hrun. injection Hrun as <-. reflexivity.
Defined.

(** ** Filling from a nested slice *)

Section Fill.

Variables (h : heap) (m : loc) (m0 : Mat) (v : list (list float64)) (w : Z).
Variable Q : Z -> Z -> float64.
Hypothesis Hm : h !! m = Some m0.
Hypothesis Hw : 0 <= w.
Hypothesis Hlen0 : len (vals m0) = len v * w.
Hypothesis Hmax : len v * w <= GoInt.max_int.
Hypothesis Hrows : forall i, 0 <= i < len v ->
  exists vi, v !! Z.to_nat i = Some vi /\ len vi = w /\
    forall j, 0 <= j < w -> vi !! Z.to_nat j = Some (Q i j).

Let inv (i j : Z) (hk : heap) : Prop :=
  exists l, hk = <[m := mkMat (r m0) (c m0) l]> h /\
            len l = len v * w /\
            forall a b, 0 <= a < len v -> 0 <= b < w ->
              a < i \/ (a = i /\ b < j) ->
              l !! Z.to_nat (a * w + b) = Some (Q a b).

Lemma fill_nested_row (i : Z) (vi : list float64) (hk : heap) :
  0 <= i < len v -> v !! Z.to_nat i = Some vi -> inv i 0 hk ->
  exists hk',
    for_range vi (fun j (_ : unit) =>
        v0 <- index v 0 ;;
        x <- index vi j ;;
        store m (i *! len v0 +! j) x) tt hk = Done tt hk' /\
    inv (i + 1) 0 hk'.
Proof.
  intros Hi Hvi Hinv.
  pose proof (lookup_lt_Some _ _ _ Hm) as Lm.
  destruct (Hrows i Hi) as (vi' & Hvi' & Hviw & Hvals).
  rewrite Hvi in Hvi'. injection Hvi' as <-.
  destruct (Hrows 0 ltac:(lia)) as (v0 & Hv0 & Hv0w & _).
  destruct (for_range_inv (fun j (_ : unit) hk => inv i j hk) vi
    (fun j (_ : unit) =>
        v0 <- index v 0 ;; x <- index vi j ;; store m (i *! len v0 +! j) x)
    tt hk Hinv) as ([] & hk' & Hrun & l & -> & Hl & Hfill).
  - intros j [] h1 Hj (l & -> & Hl & Hfill). rewrite Hviw in Hj.
    destruct (cell_bounds (len v) w i j Hi Hj) as (B1 & B2 & B3).
    assert (E : i *! w +! j = i * w + j)
      by (apply (cell_index (len v)); assumption).
    assert (Hobj : <[m := mkMat (r m0) (c m0) l]> h !! m = Some (mkMat (r m0) (c m0) l))
      by (apply list_lookup_insert_eq; exact Lm).
    exists tt. eexists. split.
    + run (index_at v 0 v0 (<[m := mkMat (r m0) (c m0) l]> h) ltac:(lia) Hv0).
      run (index_at vi j (Q i j) (<[m := mkMat (r m0) (c m0) l]> h) (proj1 Hj)
             (Hvals j Hj)).
      rewrite Hv0w, E. apply (store_at _ _ _ _ _ Hobj). cbn [vals]. lia.
    + cbn [r c vals]. rewrite list_insert_insert_eq.
      eexists. split; [reflexivity|]. rewrite len_insert. split; [exact Hl|].
      intros a b Ha Hb Hab.
      destruct (decide (a = i /\ b = j)) as [[-> ->]|Hne].
      * apply list_lookup_insert_eq. unfold len in *. lia.
      * assert (a * w + b <> i * w + j).
        { intros E'. apply Hne. eapply cell_inj; [| |exact E']; lia. }
        destruct (cell_bounds (len v) w a b Ha Hb) as (_ & _ & A3).
        rewrite list_lookup_insert_ne by lia.
        apply Hfill; [assumption .. | lia].
  - exists (<[m := mkMat (r m0) (c m0) l]> h). split; [exact Hrun|].
    exists l. split; [reflexivity|]. split; [exact Hl|].
    intros a b Ha Hb Hab. apply Hfill; [assumption .. |]. rewrite Hviw. lia.
Qed.

Lemma fill_nested_fills :
  exists l,
    fill_nested m v h = Done tt (<[m := mkMat (r m0) (c m0) l]> h) /\
    len l = len v * w /\
    forall i j, 0 <= i < len v -> 0 <= j < w ->
      l !! Z.to_nat (i * w + j) = Some (Q i j).
Proof.
  unfold fill_nested.
  destruct (for_range_inv (fun i (_ : unit) hk => inv i 0 hk) v
    (fun i (_ : unit) =>
       vi <- index v i ;;
       for_range vi (fun j (_ : unit) =>
         v0 <- index v 0 ;; x <- index vi j ;;
         store m (i *! len v0 +! j) x) tt)
    tt h) as ([] & hk' & Hrun & l & -> & Hl & Hfill).
  - exists (vals m0). split; [|split; [exact Hlen0|]].
    + symmetry. apply list_insert_id. destruct m0; exact Hm.
    + intros a b Ha Hb Hab. lia.
  - intros i [] h1 Hi Hinv.
    destruct (Hrows i Hi) as (vi & Hvi & _).
    destruct (fill_nested_row i vi h1 Hi Hvi Hinv) as (h2 & Hrow & Hinv2).
    exists tt, h2. split; [|exact Hinv2].
    run (index_at v i vi h1 (proj1 Hi) Hvi). exact Hrow.
  - exists l. split; [exact Hrun|]. split; [exact Hl|].
    intros i j Hi Hj. apply Hfill; [assumption .. | lia].
Qed.

End Fill.

(** ** Nested slices and matrices *)

Lemma rectangular_rows (v : list (list float64)) (w : Z) :
  rectangular v w ->
  forall i, 0 <= i < len v ->
    exists vi, v !! Z.to_nat i = Some vi /\ len vi = w /\
      forall j, 0 <= j < w -> vi !! Z.to_nat j = Some (nested_el v i j).
Proof.
  intros Hrect i Hi. unfold len in Hi.
  destruct (lookup_lt_is_Some_2 v (Z.to_nat i)) as [vi Hvi]; [lia|].
  exists vi. split; [exact Hvi|]. split; [exact (Hrect _ _ Hvi)|].
  intros j Hj. pose proof (Hrect _ _ Hvi) as Hl. unfold len in Hl.
  destruct (lookup_lt_is_Some_2 vi (Z.to_nat j)) as [x Hx]; [lia|].
  unfold nested_el. rewrite Hvi. simpl. rewrite Hx. reflexivity.
Qed.

(** Two buffers of [rows * cols] values with the same cells are equal. *)
Lemma same_cells (rows cols : Z) (l l' : list float64) :
  0 <= rows -> 0 <= cols ->
  len l = rows * cols -> len l' = rows * cols ->
  (forall i j, 0 <= i < rows -> 0 <= j < cols ->
     l !! Z.to_nat (i * cols + j) = l' !! Z.to_nat (i * cols + j)) ->
  l = l'.
Proof.
  intros Hr Hc Hl Hl' Hcells. apply list_eq. intros k.
  destruct (decide (Z.of_nat k < rows * cols)) as [Hk|Hk].
  - assert (Hc0 : 0 < cols) by nia.
    destruct (linear_index cols (Z.of_nat k) Hc0 ltac:(lia)) as (Ek & Hq & Hrem).
    set (i := Z.of_nat k / cols) in *. set (j := Z.of_nat k mod cols) in *.
    assert (Hi : 0 <= i < rows) by nia.
    specialize (Hcells i j Hi ltac:(lia)).
    rewrite <- Ek, Nat2Z.id in Hcells. exact Hcells.
  - unfold len in *. rewrite !lookup_ge_None_2 by lia. reflexivity.
Qed.

Lemma row_of_is (mm : Mat) (i : Z) (vi : list float64) :
  wf mm -> 0 <= i < r mm -> len vi = c mm ->
  (forall j, 0 <= j < c mm -> vi !! Z.to_nat j = cell mm i j) ->
  row_of mm i = vi.
Proof.
  intros Wm Hi Hl Hvi. pose proof Wm as [Hr Hc Hlen Hfit].
  apply list_eq. intros k.
  pose proof (len_row_of mm i ltac:(lia)) as Hrl.
  destruct (decide (Z.of_nat k < c mm)) as [Hk|Hk].
  - rewrite <- (Nat2Z.id k).
    rewrite row_of_lookup by lia. rewrite Hvi by lia.
    symmetry. apply el_cell; [assumption | assumption | lia].
  - unfold len in *. rewrite !lookup_ge_None_2 by lia. reflexivity.
Qed.

(** [FromData] of a nested slice without dimensions: a matrix of
    [len(v)] rows and [len(v[0])] columns whose cells are the values of the
    slice. *)
Lemma FromData_nested_plain (h : heap) (v : list (list float64)) (w : Z)
    (Q : Z -> Z -> float64) :
  0 <= w -> 0 < len v -> 2 * (len v * w) <= GoInt.max_int ->
  (forall i, 0 <= i < len v ->
     exists vi, v !! Z.to_nat i = Some vi /\ len vi = w /\
       forall j, 0 <= j < w -> vi !! Z.to_nat j = Some (Q i j)) ->
  exists l,
    FromData (Nested v) [] h = Done (length h) (h ++ [mkMat (len v) w l]) /\
    len l = len v * w /\
    forall i j, 0 <= i < len v -> 0 <= j < w ->
      l !! Z.to_nat (i * w + j) = Some (Q i j).
Proof.
  intros Hw Hn Hfit Hrows.
  destruct (Hrows 0 ltac:(lia)) as (v0 & Hv0 & Hv0w & _).
  assert (Hprod : 0 <= len v * w) by nia.
  assert (E1 : len v *! w = len v * w).
  { apply mul_small, in_range_intro. unfold GoInt.max_int in *. lia. }
  assert (E2 : len v * w *! 2 = len v * w * 2).
  { apply mul_small, in_range_intro. unfold GoInt.max_int in *. lia. }
  set (z := replicate (Z.to_nat (len v * w)) F64.zero).
  assert (Hobj : (h ++ [mkMat 0 0 z]) !! length h = Some (mkMat 0 0 z))
    by apply new_object.
  destruct (fill_nested_fills (h ++ [mkMat 0 0 z]) (length h) (mkMat 0 0 z) v w Q
    Hobj Hw) as (l & Hfill & Hl & Hcells); cbn [r c vals].
  - unfold z. apply len_replicate. exact Hprod.
  - unfold GoInt.max_int in *. lia.
  - exact Hrows.
  - rewrite new_object_insert in Hfill.
    exists l. split; [|split; assumption].
    unfold FromData. run (New_empty h).
    run (index_at v 0 v0 (h ++ [mkMat 0 0 []]) ltac:(lia) Hv0).
    rewrite Hv0w, E1, E2.
    run (make_ok (len v * w) (len v * w * 2) (h ++ [mkMat 0 0 []]) ltac:(lia)).
    run (set_vals_at _ _ _ z (new_object h (mkMat 0 0 []))).
    rewrite new_object_insert. cbn [r c].
    run Hfill.
    run (set_r_at _ _ _ (len v) (new_object h (mkMat 0 0 l))).
    rewrite new_object_insert. cbn [c vals].
    run (set_c_at _ _ _ w (new_object h (mkMat (len v) 0 l))).
    rewrite new_object_insert. reflexivity.
Qed.

(** A matrix made of a nested slice that is not jagged gives the slice
    back: [FromData(v).ToSlice()] is [v], for [v] with at least one row. *)
Theorem FromData_ToSlice_round_trip (h : heap) (v : list (list float64)) (w : Z) :
  rectangular v w -> 0 < len v <= GoInt.max_int ->
  2 * (len v * w) <= GoInt.max_int ->
  exists mm,
    (m <- FromData (Nested v) [] ;; ToSlice m) h = Done v (h ++ [mm]) /\
    r mm = len v /\ c mm = w /\ shaped mm.
Proof.
  intros Hrect [Hn Hmax] Hfit.
  assert (Hw : 0 <= w).
  { destruct (rectangular_rows v w Hrect 0 ltac:(lia)) as (v0 & _ & <- & _).
    unfold len. lia. }
  destruct (FromData_nested_plain h v w (nested_el v) Hw Hn Hfit
    (rectangular_rows v w Hrect)) as (l & Hrun & Hl & Hcells).
  set (mm := mkMat (len v) w l).
  assert (Wm : wf mm).
  { assert (w <= len v * w) by nia.
    constructor; cbn [r c vals mm]; lia. }
  destruct (ToSlice_rows (h ++ [mm]) (length h) mm (new_object h mm) Wm)
    as (q & Hq & Hql & Hqr).
  exists mm. split; [|split; [reflexivity|split; [reflexivity|exact Hl]]].
  run Hrun. fold mm. rewrite Hq. f_equal.
  apply list_eq. intros k. cbn [r mm] in Hql, Hqr.
  destruct (decide (Z.of_nat k < len v)) as [Hk|Hk].
  - specialize (Hqr (Z.of_nat k) ltac:(lia)). rewrite Nat2Z.id in Hqr.
    destruct (rectangular_rows v w Hrect (Z.of_nat k) ltac:(lia))
      as (vk & Hvk & Hvkw & Hvals).
    rewrite Nat2Z.id in Hvk. rewrite Hqr, Hvk. f_equal.
    apply row_of_is; [exact Wm | cbn [r mm]; lia | exact Hvkw |].
    intros j Hj. unfold cell. cbn [c vals mm] in *.
    rewrite (Hvals j Hj). symmetry. apply Hcells; lia.
  - unfold len in *. rewrite !lookup_ge_None_2 by lia. reflexivity.
Qed.

Lemma FromData_ToSlice_round_trip_witness :
  (m <- FromData (Nested [[fl 1; fl 2]; [fl 3; fl 4]; [fl 5; fl 6]]) [] ;;
   ToSlice m) []
  = Done [[fl 1; fl 2]; [fl 3; fl 4]; [fl 5; fl 6]]
      [matrix 3 2 [1; 2; 3; 4; 5; 6]].
Proof.
  destruct (FromData_ToSlice_round_trip []
    [[fl 1; fl 2]; [fl 3; fl 4]; [fl 5; fl 6]] 2) as (mm & Hrun & _).
  - intros i vi.
    do 3 (destruct i as [|i]; [intros [= <-]; reflexivity|]). discriminate.
  - unfold GoInt.max_int, len. simpl. lia.
  - unfold GoInt.max_int, len. simpl. lia.
  - rewrite Hrun. vm_compute in Hrun. injection Hrun as <-. reflexivity.
Defined.

(** The slices of a matrix with at least one row make the matrix again:
    [FromData(m.ToSlice())] is a new object with the dimensions and the
    values of [m]. *)
Theorem ToSlice_FromData_round_trip (h : heap) (m : loc) (mm : Mat) :
  h !! m = Some mm -> wf mm -> 0 < r mm ->
  (q <- ToSlice m ;; FromData (Nested q) []) h = Done (length h) (h ++ [mm]).
Proof.
  intros Hm Wm Hr1. pose proof Wm as [Hr Hc Hlen Hfit].
  destruct (ToSlice_rows h m mm Hm Wm) as (q & Hq & Hql & Hqr).
  destruct (FromData_nested_plain h q (c mm) (el mm)) as (l & Hrun & Hl & Hcells).
  - lia.
  - lia.
  - rewrite Hql. exact Hfit.
  - intros i Hi. rewrite Hql in Hi. exists (row_of mm i).
    split; [exact (Hqr i Hi)|]. split; [apply len_row_of; lia|].
    intros j Hj. apply row_of_lookup. exact Hj.
  - run Hq. rewrite Hrun. do 3 f_equal. rewrite Hql in *.
    destruct mm as [r0 c0 v0]. cbn [r c vals] in *. f_equal.
    apply (same_cells r0 c0); [lia | lia | exact Hl | exact Hlen |].
    intros i j Hi Hj. rewrite (Hcells i j Hi Hj).
    symmetry. apply (el_cell (mkMat r0 c0 v0) i j); [|exact Hi|exact Hj].
    constructor; cbn [r c vals]; assumption.
Qed.

Lemma ToSlice_FromData_round_trip_witness :
  (q <- ToSlice 0%nat ;; FromData (Nested q) []) [matrix 2 2 [1; 2; 3; 4]]
  = Done 1%nat [matrix 2 2 [1; 2; 3; 4]; matrix 2 2 [1; 2; 3; 4]].
Proof.
  exact (ToSlice_FromData_round_trip [matrix 2 2 [1; 2; 3; 4]] 0%nat
    (matrix 2 2 [1; 2; 3; 4]) eq_refl ltac:(concrete_wf) ltac:(simpl; lia)).
Defined.

(** ** Reading cells *)

Lemma At_cell (h : heap) (m : loc) (mm : Mat) (i j : Z) :
  h !! m = Some mm -> wf mm -> 0 <= i < r mm -> 0 <= j < c mm ->
  At m i j h = Done (el mm i j) h.
Proof.
  intros Hm Wm Hi Hj. pose proof Wm as [Hr Hc Hlen Hfit].
  destruct (cell_bounds (r mm) (c mm) i j Hi Hj) as (B1 & B2 & B3).
  unfold At. run (get_c_at _ _ _ Hm).
  rewrite (cell_index (r mm) (c mm) i j) by (assumption || lia).
  apply (load_at _ _ _ _ _ Hm); [lia|].
  apply (el_cell mm i j Wm Hi Hj).
Qed.

Lemma Dims_at (h : heap) (m : loc) (mm : Mat) :
  h !! m = Some mm -> Dims m h = Done (r mm, c mm) h.
Proof.
  intros Hm. unfold Dims. run (get_r_at _ _ _ Hm). run (get_c_at _ _ _ Hm).
  reflexivity.
Qed.

Lemma col_of_lookup (mm : Mat) (j a : Z) :
  0 <= a < r mm -> col_of mm j !! Z.to_nat a = Some (el mm a j).
Proof.
  intros Ha. unfold col_of. rewrite list_lookup_fmap.
  rewrite lookup_seq_lt by lia. simpl. rewrite Z2Nat.id by lia. reflexivity.
Qed.

Lemma col_of_is (mm : Mat) (j : Z) (v : list float64) :
  wf mm -> 0 <= j < c mm -> len v = r mm ->
  (forall i, 0 <= i < r mm -> v !! Z.to_nat i = cell mm i j) ->
  col_of mm j = v.
Proof.
  intros Wm Hj Hl Hv. pose proof Wm as [Hr Hc Hlen Hfit].
  apply list_eq. intros k.
  pose proof (len_col_of mm j ltac:(lia)) as Hcl.
  destruct (decide (Z.of_nat k < r mm)) as [Hk|Hk].
  - rewrite <- (Nat2Z.id k).
    rewrite col_of_lookup by lia. rewrite Hv by lia.
    symmetry. apply el_cell; [assumption | lia | assumption].
  - unfold len in *. rewrite !lookup_ge_None_2 by lia. reflexivity.
Qed.

(** On a square matrix [Set] and [At] address the same cell: after
    [Set(row, col, val)], [At] reads [val] at that position and the old
    value everywhere else. *)
Theorem Set_then_At_square (h : heap) (m : loc) (mm : Mat)
    (row col row' col' : Z) (val : float64) :
  h !! m = Some mm -> wf mm -> r mm = c mm ->
  0 <= row < r mm -> 0 <= col < c mm ->
  0 <= row' < r mm -> 0 <= col' < c mm ->
  exists h',
    Set_ m row col val h = Done m h' /\
    At m row' col' h'
    = Done (if (row' =? row) && (col' =? col) then val else el mm row' col') h'.
Proof.
  intros Hm Wm Hsq Hrow Hcol Hrow' Hcol'. pose proof Wm as [Hr Hc Hlen Hfit].
  destruct (cell_bounds (r mm) (c mm) row col Hrow Hcol) as (B1 & B2 & B3).
  destruct (cell_bounds (r mm) (c mm) row' col' Hrow' Hcol') as (B1' & B2' & B3').
  set (l := <[Z.to_nat (row * c mm + col) := val]> (vals mm)).
  set (mm' := mkMat (r mm) (c mm) l).
  exists (<[m := mm']> h). split.
  - assert (E : row * r mm + col = row * c mm + col) by (rewrite Hsq; reflexivity).
    rewrite (Set_writes h m mm row col val Hm).
    + rewrite E. reflexivity.
    + rewrite Hsq. apply in_range_intro. unfold GoInt.max_int in *. lia.
    + rewrite E. apply in_range_intro. unfold GoInt.max_int in *. lia.
    + rewrite E. lia.
  - assert (Hm' : <[m := mm']> h !! m = Some mm').
    { apply list_lookup_insert_eq. eapply lookup_lt_Some, Hm. }
    assert (Wm' : wf mm').
    { constructor; cbn [r c vals mm']; try assumption.
      unfold l. rewrite len_insert. exact Hlen. }
    rewrite (At_cell _ m mm' row' col' Hm' Wm' Hrow' Hcol'). f_equal.
    unfold el, cell. cbn [c vals mm']. unfold l.
    destruct ((row' =? row) && (col' =? col)) eqn:E.
    + assert (row' = row /\ col' = col) as [-> ->] by lia.
      rewrite list_lookup_insert_eq by (unfold len in Hlen; lia). reflexivity.
    + rewrite list_lookup_insert_ne; [reflexivity|].
      intros Heq. apply Z2Nat.inj in Heq; [|lia|lia].
      destruct (cell_inj (c mm) row col row' col' Hcol Hcol' Heq). lia.
Qed.

Lemma Set_then_At_square_witness :
  exists h',
    Set_ 0%nat 1 0 (fl 9) [matrix 2 2 [1; 2; 3; 4]] = Done 0%nat h' /\
    At 0%nat 0 1 h' = Done (fl 2) h'.
Proof.
  exact (Set_then_At_square [matrix 2 2 [1; 2; 3; 4]] 0%nat
    (matrix 2 2 [1; 2; 3; 4]) 1 0 0 1 (fl 9) eq_refl ltac:(concrete_wf) eq_refl
    ltac:(simpl; lia) ltac:(simpl; lia) ltac:(simpl; lia) ltac:(simpl; lia)).
Defined.

(** ** Growth, then a read *)

(** The row that [AppendRow] adds is the last row: [Row(-1)] of the grown
    matrix is a one-row matrix of the values given, whichever way the
    backing slice was extended. *)
Theorem AppendRow_then_Row (grow : bool) (h : heap) (m : loc) (mm : Mat)
    (v : list float64) :
  h !! m = Some mm -> wf mm -> len v = c mm ->
  2 * ((r mm + 1) * c mm) <= GoInt.max_int -> r mm < GoInt.max_int ->
  (p <- AppendRow grow m v ;; Row p (-1)) h
  = Done (length h)
      (<[m := mkMat (r mm + 1) (c mm) (vals mm ++ v)]> h ++ [mkMat 1 (c mm) v]).
Proof.
  intros Hm Wm Hv Hfit' Hmax. pose proof Wm as [Hr Hc Hlen Hfit].
  set (mm' := mkMat (r mm + 1) (c mm) (vals mm ++ v)).
  assert (Hm' : <[m := mm']> h !! m = Some mm').
  { apply list_lookup_insert_eq. eapply lookup_lt_Some, Hm. }
  assert (Wm' : wf mm').
  { constructor; cbn [r c vals mm']; try lia.
    rewrite len_app. lia. }
  run (AppendRow_appends grow h m mm v Hm Wm Hv Hfit' Hmax). fold mm'.
  rewrite (Row_row _ m mm' Hm' Wm' (-1)) by (cbn [r mm']; lia).
  rewrite length_insert. cbn [r c mm']. do 4 f_equal.
  replace (-1 >=? 0) with false by reflexivity.
  replace (r mm + 1 + -1) with (r mm) by lia.
  apply row_of_is; [exact Wm' | cbn [r mm']; lia | exact Hv |].
  intros j Hj. unfold cell. cbn [c vals mm'] in *.
  rewrite lookup_app_r by (unfold len in Hlen; lia).
  f_equal. unfold len in Hlen. lia.
Qed.

Lemma AppendRow_then_Row_witness :
  (p <- AppendRow true 0%nat [fl 5; fl 6] ;; Row p (-1)) [matrix 2 2 [1; 2; 3; 4]]
  = Done 1%nat [matrix 3 2 [1; 2; 3; 4; 5; 6]; matrix 1 2 [5; 6]].
Proof.
  exact (AppendRow_then_Row true [matrix 2 2 [1; 2; 3; 4]] 0%nat
    (matrix 2 2 [1; 2; 3; 4]) [fl 5; fl 6] eq_refl ltac:(concrete_wf) eq_refl
    ltac:(unfold GoInt.max_int; simpl; lia) ltac:(unfold GoInt.max_int; simpl; lia)).
Defined.

(** The column that [AppendCol] adds is the last column: [Col(-1)] of the
    grown matrix is a one-column matrix of the values given. *)
Theorem AppendCol_then_Col (h : heap) (m : loc) (mm : Mat) (v : list float64) :
  h !! m = Some mm -> wf mm -> len v = r mm ->
  2 * (r mm * (c mm + 1)) <= GoInt.max_int -> c mm < GoInt.max_int ->
  exists l,
    (p <- AppendCol m v ;; Col p (-1)) h
    = Done (length h)
        (<[m := mkMat (r mm) (c mm + 1) l]> h ++ [mkMat (r mm) 1 v]) /\
    len l = r mm * (c mm + 1).
Proof.
  intros Hm Wm Hv Hfit' Hmax. pose proof Wm as [Hr Hc Hlen Hfit].
  destruct (AppendCol_appends h m mm v Hm Wm Hv Hmax) as (l & Hrun & Hl & Hcells).
  exists l. split; [|exact Hl].
  set (mm' := mkMat (r mm) (c mm + 1) l).
  assert (Hm' : <[m := mm']> h !! m = Some mm').
  { apply list_lookup_insert_eq. eapply lookup_lt_Some, Hm. }
  assert (Wm' : wf mm').
  { constructor; cbn [r c vals mm']; try lia. }
  run Hrun. fold mm'.
  rewrite (Col_column _ m mm' Hm' Wm' (-1)) by (cbn [c mm']; lia).
  rewrite length_insert. cbn [r c mm']. do 4 f_equal.
  replace (-1 >=? 0) with false by reflexivity.
  replace (c mm + 1 + -1) with (c mm) by lia.
  apply col_of_is; [exact Wm' | cbn [c mm']; lia | exact Hv |].
  intros i Hi. unfold cell. cbn [r c vals mm'] in *.
  rewrite (Hcells i (c mm) Hi ltac:(lia)).
  replace (c mm <? c mm) with false by lia. reflexivity.
Qed.

Lemma AppendCol_then_Col_witness :
  exists l,
    (p <- AppendCol 0%nat [fl 7; fl 8] ;; Col p (-1)) [matrix 2 2 [1; 2; 3; 4]]
    = Done 1%nat [mkMat 2 3 l; matrix 2 1 [7; 8]] /\
    len l = 6.
Proof.
  exact (AppendCol_then_Col [matrix 2 2 [1; 2; 3; 4]] 0%nat
    (matrix 2 2 [1; 2; 3; 4]) [fl 7; fl 8] eq_refl ltac:(concrete_wf) eq_refl
    ltac:(unfold GoInt.max_int; simpl; lia) ltac:(unfold GoInt.max_int; simpl; lia)).
Defined.

(** After [m.Concat(n)], the cell [(i, j)] of [m] is the old cell of [m]
    for a column of [m], and the cell [(i, j - m.c)] of [n] for a column
    beyond; [n] may be [m] itself. *)
Theorem Concat_then_At (h : heap) (m n : loc) (mm mn : Mat) (i j : Z) :
  h !! m = Some mm -> h !! n = Some mn -> wf mm -> wf mn ->
  r mm = r mn -> 2 * (r mm * (c mm + c mn)) <= GoInt.max_int ->
  0 <= i < r mm -> 0 <= j < c mm + c mn ->
  exists h',
    Concat m n h = Done m h' /\
    At m i j h'
    = Done (if j <? c mm then el mm i j else el mn i (j - c mm)) h'.
Proof.
  intros Hm Hn Wm Wn Hrows Hfit' Hi Hj.
  pose proof Wm as [Hr Hc Hlen Hfit]. pose proof Wn as [Hr' Hc' Hlen' Hfit''].
  assert (Hsum : c mm + c mn <= GoInt.max_int) by nia.
  destruct (Concat_appends h m n mm mn Hm Hn Wm Wn Hrows Hsum)
    as (l & Hrun & Hl & Hcells).
  set (mm' := mkMat (r mm) (c mm + c mn) l).
  exists (<[m := mm']> h). split; [exact Hrun|].
  assert (Hm' : <[m := mm']> h !! m = Some mm').
  { apply list_lookup_insert_eq. eapply lookup_lt_Some, Hm. }
  assert (Wm' : wf mm').
  { constructor; cbn [r c vals mm']; try lia. }
  rewrite (At_cell _ m mm' i j Hm' Wm' Hi Hj). f_equal.
  unfold el at 1. unfold cell at 1. cbn [c vals mm'].
  rewrite (Hcells i j Hi Hj).
  destruct (j <? c mm) eqn:E; reflexivity.
Qed.

Lemma Concat_then_At_witness :
  exists h',
    Concat 0%nat 0%nat [matrix 2 1 [1; 2]] = Done 0%nat h' /\
    At 0%nat 1 1 h' = Done (fl 2) h'.
Proof.
  exact (Concat_then_At [matrix 2 1 [1; 2]] 0%nat 0%nat
    (matrix 2 1 [1; 2]) (matrix 2 1 [1; 2]) 1 1 eq_refl eq_refl
    ltac:(concrete_wf) ltac:(concrete_wf) eq_refl
    ltac:(unfold GoInt.max_int; simpl; lia) ltac:(simpl; lia) ltac:(simpl; lia)).
Defined.

(** ** Arguments of the wrong shape *)

(** [AppendRow], [AppendCol], [Concat] and [Dot] test the shape of their
    argument before they touch anything: on a mismatch the program exits
    and no matrix has changed. *)
Theorem shape_mismatch_exits (grow : bool) (h : heap) (m n : loc) (mm mn : Mat)
    (v : list float64) :
  h !! m = Some mm -> h !! n = Some mn ->
  (len v <> c mm -> AppendRow grow m v h = Exit ShapeMismatch h) /\
  (len v <> r mm -> AppendCol m v h = Exit ShapeMismatch h) /\
  (r mn <> r mm -> Concat m n h = Exit ShapeMismatch h) /\
  (r mn <> c mm -> Dot m n h = Exit ShapeMismatch h).
Proof.
  intros Hm Hn. repeat split; intros Hne.
  - unfold AppendRow. run (get_c_at _ _ _ Hm).
    rewrite (bind_exit _ _ _ _ _
      (exit_if_fail (negb (c mm =? len v)) ShapeMismatch h ltac:(lia))).
    reflexivity.
  - unfold AppendCol. run (get_r_at _ _ _ Hm).
    rewrite (bind_exit _ _ _ _ _
      (exit_if_fail (negb (r mm =? len v)) ShapeMismatch h ltac:(lia))).
    reflexivity.
  - unfold Concat. run (get_r_at _ _ _ Hm). run (get_r_at _ _ _ Hn).
    rewrite (bind_exit _ _ _ _ _
      (exit_if_fail (negb (r mm =? r mn)) ShapeMismatch h ltac:(lia))).
    reflexivity.
  - unfold Dot. run (get_c_at _ _ _ Hm). run (get_r_at _ _ _ Hn).
    rewrite (bind_exit _ _ _ _ _
      (exit_if_fail (negb (c mm =? r mn)) ShapeMismatch h ltac:(lia))).
    reflexivity.
Qed.

Lemma shape_mismatch_exits_witness :
  AppendRow true 0%nat [fl 1] [matrix 2 2 [1; 2; 3; 4]; matrix 1 3 [5; 6; 7]]
  = Exit ShapeMismatch [matrix 2 2 [1; 2; 3; 4]; matrix 1 3 [5; 6; 7]] /\
  Dot 0%nat 1%nat [matrix 2 2 [1; 2; 3; 4]; matrix 1 3 [5; 6; 7]]
  = Exit ShapeMismatch [matrix 2 2 [1; 2; 3; 4]; matrix 1 3 [5; 6; 7]].
Proof.
  destruct (shape_mismatch_exits true
    [matrix 2 2 [1; 2; 3; 4]; matrix 1 3 [5; 6; 7]] 0%nat 1%nat
    (matrix 2 2 [1; 2; 3; 4]) (matrix 1 3 [5; 6; 7]) [fl 1] eq_refl eq_refl)
    as (Hrow & _ & _ & Hdot).
  split; [apply Hrow | apply Hdot]; unfold len; simpl; lia.
Defined.

(** ** [Reshape] *)

(** [Reshape] changes the two dimensions and nothing else: the values stay
    as they are, reshaping back restores the matrix, and dimensions of
    another product are refused with the matrix untouched (for dimensions
    whose product is an [int]). *)
Theorem Reshape_round_trip (h : heap) (m : loc) (mm : Mat) (rows cols : Z) :
  h !! m = Some mm -> wf mm ->
  0 <= rows <= GoInt.max_int -> 0 <= cols <= GoInt.max_int ->
  GoInt.in_range (rows * cols) ->
  (rows * cols = r mm * c mm ->
   (p <- Reshape m rows cols ;; d <- Dims p ;; w <- Vals p ;; ret (d, w)) h
   = Done ((rows, cols), vals mm) (<[m := mkMat rows cols (vals mm)]> h) /\
   (p <- Reshape m rows cols ;; Reshape p (r mm) (c mm)) h = Done m h) /\
  (rows * cols <> r mm * c mm -> Reshape m rows cols h = Exit ShapeMismatch h).
Proof.
  intros Hm Wm Hrows Hcols Hrange. pose proof Wm as [Hr Hc Hlen Hfit].
  assert (Hpos : 0 <= r mm * c mm) by nia.
  split.
  - intros Hprod.
    destruct (Reshape_keeps_values h m mm rows cols Hm Wm Hrange) as [Hok _].
    set (mm' := mkMat rows cols (vals mm)).
    assert (Hm' : <[m := mm']> h !! m = Some mm').
    { apply list_lookup_insert_eq. eapply lookup_lt_Some, Hm. }
    assert (Wm' : wf mm').
    { constructor; cbn [r c vals mm']; lia. }
    split.
    + run (Hok Hprod). fold mm'. run (Dims_at _ _ _ Hm').
      run (Vals_copy _ _ _ Hm'). reflexivity.
    + run (Hok Hprod). fold mm'.
      assert (Hrange' : GoInt.in_range (r mm * c mm)).
      { apply in_range_intro. unfold GoInt.max_int in *. lia. }
      destruct (Reshape_keeps_values _ m mm' (r mm) (c mm) Hm' Wm' Hrange')
        as [Hback _].
      rewrite Hback by (cbn [r c mm']; lia).
      rewrite list_insert_insert_eq. cbn [vals mm'].
      rewrite list_insert_id; [reflexivity|].
      rewrite Hm. destruct mm; reflexivity.
  - intros Hprod.
    exact (proj2 (Reshape_keeps_values h m mm rows cols Hm Wm Hrange) Hprod).
Qed.

Lemma Reshape_round_trip_witness :
  (p <- Reshape 0%nat 3 2 ;; Reshape p 2 3) [matrix 2 3 [1; 2; 3; 4; 5; 6]]
  = Done 0%nat [matrix 2 3 [1; 2; 3; 4; 5; 6]].
Proof.
  destruct (Reshape_round_trip [matrix 2 3 [1; 2; 3; 4; 5; 6]] 0%nat
    (matrix 2 3 [1; 2; 3; 4; 5; 6]) 3 2 eq_refl ltac:(concrete_wf)
    ltac:(unfold GoInt.max_int; lia) ltac:(unfold GoInt.max_int; lia)
    ltac:(apply in_range_intro; lia))
    as [Hok _].
  exact (proj2 (Hok eq_refl)).
Defined.

(** ** Flat slices *)

(** A matrix made of a flat slice holds the slice: without dimensions it is
    one row, with one dimension one column, with two the dimensions given,
    and [Vals] returns the values of the slice in each case. *)
Theorem FromData_flat_round_trip (h : heap) (v : list float64) (a b : Z) :
  2 * len v <= GoInt.max_int ->
  (m <- FromData (Flat v) [] ;; d <- Dims m ;; w <- Vals m ;; ret (d, w)) h
  = Done ((1, len v), v) (h ++ [mkMat 1 (len v) v]) /\
  (m <- FromData (Flat v) [len v] ;; d <- Dims m ;; w <- Vals m ;; ret (d, w)) h
  = Done ((len v, 1), v) (h ++ [mkMat (len v) 1 v]) /\
  (a * b = len v ->
   (m <- FromData (Flat v) [a; b] ;; d <- Dims m ;; w <- Vals m ;; ret (d, w)) h
   = Done ((a, b), v) (h ++ [mkMat a b v])).
Proof.
  intros Hfit.
  assert (Hl : 0 <= len v) by (unfold len; lia).
  assert (E2 : len v *! 2 = len v * 2).
  { apply mul_small, in_range_intro. unfold GoInt.max_int in *. lia. }
  assert (Hread : forall x y,
    (d <- Dims (length h) ;; w <- Vals (length h) ;; ret (d, w)) (h ++ [mkMat x y v])
    = Done ((x, y), v) (h ++ [mkMat x y v])).
  { intros x y. run (Dims_at _ _ _ (new_object h (mkMat x y v))).
    run (Vals_copy _ _ _ (new_object h (mkMat x y v))). reflexivity. }
  repeat split.
  - assert (Hrun : FromData (Flat v) [] h = Done (length h) (h ++ [mkMat 1 (len v) v])).
    { unfold FromData. run (New_empty h). rewrite E2.
      apply FromData_flat_fill; [reflexivity | lia]. }
    run Hrun. apply Hread.
  - destruct (FromData_flat h v (len v) 1 Hfit) as (Hrun & _).
    { apply in_range_intro. unfold GoInt.max_int in *. lia. }
    run (Hrun eq_refl). apply Hread.
  - intros Hprod.
    destruct (FromData_flat h v a b Hfit) as (_ & _ & Hrun & _).
    { apply in_range_intro. unfold GoInt.max_int in *. lia. }
    run (Hrun Hprod). apply Hread.
Qed.

Lemma FromData_flat_round_trip_witness :
  (m <- FromData (Flat [fl 1; fl 2; fl 3; fl 4; fl 5; fl 6]) [2; 3] ;;
   d <- Dims m ;; w <- Vals m ;; ret (d, w)) []
  = Done ((2, 3), [fl 1; fl 2; fl 3; fl 4; fl 5; fl 6])
      [matrix 2 3 [1; 2; 3; 4; 5; 6]].
Proof.
  destruct (FromData_flat_round_trip [] [fl 1; fl 2; fl 3; fl 4; fl 5; fl 6] 2 3
    ltac:(unfold GoInt.max_int, len; simpl; lia)) as (_ & _ & Hrun).
  exact (Hrun eq_refl).
Defined.

(** ** Scalars *)

(** With a [float64] argument each of [Add], [Sub], [Mul] and [Div]
    combines every value of the receiver with the scalar, in place and
    whatever the shape; with an argument of another type it exits. *)
Theorem scalar_operand_broadcast (h : heap) (m : loc) (mm : Mat) (v : float64) :
  h !! m = Some mm ->
  Forall (fun mo : (loc -> operand -> M loc) * (float64 -> float64 -> float64) =>
      fst mo m (OFloat v) h
      = Done m (<[m := mkMat (r mm) (c mm)
                         (map (fun x => snd mo x v) (vals mm))]> h) /\
      fst mo m OOther h = Exit InvalidArgument h)
    operators.
Proof.
  intros Hm. unfold operators.
  repeat constructor; cbn [fst snd]; apply (arith_scalar _ h m mm v Hm).
Qed.

Lemma scalar_operand_broadcast_witness :
  Mul 0%nat (OFloat (fl 2)) [matrix 1 3 [1; 2; 3]]
  = Done 0%nat [matrix 1 3 [2; 4; 6]].
Proof.
  pose proof (scalar_operand_broadcast [matrix 1 3 [1; 2; 3]] 0%nat
    (matrix 1 3 [1; 2; 3]) (fl 2) eq_refl) as Hall.
  unfold operators in Hall.
  apply Forall_cons in Hall as [_ Hall]. apply Forall_cons in Hall as [_ Hall].
  apply Forall_cons in Hall as [[Hmul _] _].
  cbn [fst snd] in Hmul. rewrite Hmul. vm_compute. reflexivity.
Defined.

(** ** Scans *)

Lemma All_loop (h : heap) (p : loc) (mp : Mat) (f : float64 -> bool)
    (k : nat) (i0 : Z) :
  h !! p = Some mp -> 0 <= i0 -> i0 + Z.of_nat k = len (vals mp) ->
  for_return k i0 (fun i =>
      x <- load p i ;;
      if negb (f x) then ret (Some false) else ret None)
    (ret true) h
  = Done (forallb f (drop (Z.to_nat i0) (vals mp))) h.
Proof.
  intros Hp. revert i0. induction k as [|k IH]; intros i0 H0 Hk; unfold len in Hk.
  - rewrite drop_ge by lia. reflexivity.
  - destruct (lookup_lt_is_Some_2 (vals mp) (Z.to_nat i0)) as [x Hx]; [lia|].
    rewrite (drop_S _ _ _ Hx). cbn [for_return forallb].
    assert (Hbody :
      (x <- load p i0 ;; if negb (f x) then ret (Some false) else ret None) h
      = Done (if negb (f x) then Some false else None) h).
    { run (load_at _ _ _ _ _ Hp H0 Hx). destruct (f x); reflexivity. }
    run Hbody. destruct (f x); [|reflexivity]. cbn [negb andb].
    rewrite IH by (unfold len; lia).
    replace (Z.to_nat (i0 + 1)) with (Datatypes.S (Z.to_nat i0)) by lia.
    reflexivity.
Qed.

Lemma All_forall (h : heap) (p : loc) (mp : Mat) (f : float64 -> bool) :
  h !! p = Some mp -> All p f h = Done (forallb f (vals mp)) h.
Proof.
  intros Hp. unfold All. run (get_vals_at _ _ _ Hp).
  rewrite (All_loop h p mp f (length (vals mp)) 0 Hp); [reflexivity | lia | reflexivity].
Qed.

(** [All] and [Any] scan the values of the matrix and change nothing; a
    predicate holds of all values exactly when its negation holds of none,
    so that on a matrix without values [All] is true and [Any] false. *)
Theorem All_Any_dual (h : heap) (m : loc) (mm : Mat) (f : float64 -> bool) :
  h !! m = Some mm ->
  All m f h = Done (forallb f (vals mm)) h /\
  Any m f h = Done (existsb f (vals mm)) h /\
  All m f h = (b <- Any m (fun x => negb (f x)) ;; ret (negb b)) h.
Proof.
  intros Hm. split; [exact (All_forall h m mm f Hm)|].
  split; [exact (Any_exists h m mm f Hm)|].
  rewrite (All_forall h m mm f Hm).
  run (Any_exists h m mm (fun x => negb (f x)) Hm).
  unfold ret. f_equal.
  induction (vals mm) as [|x l IH]; [reflexivity|].
  cbn [forallb existsb]. rewrite IH. destruct (f x); reflexivity.
Qed.

Lemma All_Any_dual_witness :
  All 0%nat Positive [matrix 1 3 [1; 2; 3]] = Done true [matrix 1 3 [1; 2; 3]].
Proof.
  destruct (All_Any_dual [matrix 1 3 [1; 2; 3]] 0%nat (matrix 1 3 [1; 2; 3])
    Positive eq_refl) as (Hall & _).
  rewrite Hall. vm_compute. reflexivity.
Defined.

(** ** In-place maps *)

Lemma Foreach_map (h : heap) (m : loc) (mm : Mat) (f : float64 -> float64) :
  h !! m = Some mm -> wf mm ->
  Foreach m f h = Done m (<[m := mkMat (r mm) (c mm) (map f (vals mm))]> h).
Proof.
  intros Hm [Hr Hc Hlen Hfit]. unfold Foreach.
  run (get_r_at _ _ _ Hm). run (get_c_at _ _ _ Hm).
  assert (Hpos : 0 <= r mm * c mm) by nia.
  rewrite mul_small by (apply in_range_intro; unfold GoInt.max_int in *; lia).
  assert (Hbody : forall i l x hk, 0 <= i ->
    hk !! m = Some (mkMat (r mm) (c mm) l) -> l !! Z.to_nat i = Some x ->
    (fun i (_ : unit) => x <- load m i ;; store m i (f x)) i tt hk
    = Done tt (<[m := mkMat (r mm) (c mm) (<[Z.to_nat i := f x]> l)]> hk)).
  { intros i l x hk Hi Hobj Hx. cbv beta.
    run (load_at _ _ _ _ _ Hobj Hi Hx).
    apply (store_at _ _ _ _ _ Hobj). cbn [vals].
    apply lookup_lt_Some in Hx. unfold len. lia. }
  pose proof (map_loop f _ h m mm Hm Hbody) as Hloop.
  unfold for_range in Hloop. unfold for_upto.
  replace (Z.to_nat (r mm * c mm)) with (length (vals mm))
    by (unfold len in Hlen; lia).
  run Hloop. reflexivity.
Qed.

(** [Foreach(f)] replaces every value by what [f] makes of it, in place;
    two passes are one pass with the composed function. *)
Theorem Foreach_composes (h : heap) (m : loc) (mm : Mat) (f g : float64 -> float64) :
  h !! m = Some mm -> wf mm ->
  Foreach m f h = Done m (<[m := mkMat (r mm) (c mm) (map f (vals mm))]> h) /\
  (p <- Foreach m f ;; Foreach p g) h = Foreach m (fun x => g (f x)) h.
Proof.
  intros Hm Wm. pose proof Wm as [Hr Hc Hlen Hfit].
  split; [exact (Foreach_map h m mm f Hm Wm)|].
  run (Foreach_map h m mm f Hm Wm).
  set (mm' := mkMat (r mm) (c mm) (map f (vals mm))).
  assert (Hm' : <[m := mm']> h !! m = Some mm').
  { apply list_lookup_insert_eq. eapply lookup_lt_Some, Hm. }
  assert (Wm' : wf mm').
  { constructor; cbn [r c vals mm']; try assumption.
    unfold len in *. rewrite length_map. exact Hlen. }
  rewrite (Foreach_map _ m mm' g Hm' Wm').
  rewrite (Foreach_map h m mm (fun x => g (f x)) Hm Wm).
  rewrite list_insert_insert_eq. cbn [r c vals mm'].
  rewrite map_map. reflexivity.
Qed.

Lemma Foreach_composes_witness :
  Foreach 0%nat (F64.add (fl 1)) [matrix 2 1 [1; 2]]
  = Done 0%nat [matrix 2 1 [2; 3]].
Proof.
  destruct (Foreach_composes [matrix 2 1 [1; 2]] 0%nat (matrix 2 1 [1; 2])
    (F64.add (fl 1)) (F64.add (fl 1)) eq_refl ltac:(concrete_wf)) as [Hrun _].
  rewrite Hrun. vm_compute. reflexivity.
Defined.

(** [Scale] of the first revision, [Mul] with a scalar of the last one and
    [Foreach] with the multiplication do the same to a matrix; [SetAll] is
    [Foreach] with a constant function. *)
Theorem Scale_is_scalar_Mul (h : heap) (m : loc) (mm : Mat) (f : float64) :
  h !! m = Some mm -> wf mm ->
  Legacy.Scale m f h = Mul m (OFloat f) h /\
  Foreach m (fun x => F64.mul x f) h = Mul m (OFloat f) h /\
  SetAll m f h = Foreach m (fun _ => f) h.
Proof.
  intros Hm Wm.
  assert (Hscale : Legacy.Scale m f h = Foreach m (fun x => F64.mul x f) h)
    by reflexivity.
  rewrite Hscale, (Foreach_map h m mm _ Hm Wm), (Foreach_map h m mm _ Hm Wm).
  unfold Mul. rewrite (arith_scalar F64.mul h m mm f Hm).
  rewrite (SetAll_sets h m mm f Hm). repeat split.
Qed.

Lemma Scale_is_scalar_Mul_witness :
  Legacy.Scale 0%nat (fl 3) [matrix 1 2 [1; 2]]
  = Mul 0%nat (OFloat (fl 3)) [matrix 1 2 [1; 2]].
Proof.
  exact (proj1 (Scale_is_scalar_Mul [matrix 1 2 [1; 2]] 0%nat (matrix 1 2 [1; 2])
    (fl 3) eq_refl ltac:(concrete_wf))).
Defined.

(** ** Reductions *)

Section Reductions.

Variables (h : heap) (m : loc) (mm : Mat).
Hypothesis Hm : h !! m = Some mm.
Hypothesis Wm : wf mm.

(** The loop over a row and the loop over a column, for any accumulation. *)
Lemma fold_row (f : float64 -> float64 -> float64) (s0 : float64) (s : Z) :
  0 <= s < r mm ->
  for_upto (c mm) (fun i acc =>
      mc <- get_c m ;;
      x <- load m (s *! mc +! i) ;;
      ret (f acc x)) s0 h
  = Done (fold_left f (row_of mm s) s0) h.
Proof.
  intros Hs. pose proof Wm as [Hr Hc Hlen Hfit].
  rewrite (reduce_loop h m mm (fun i mc => s *! mc +! i) f (c mm) s0 Hm
             ltac:(lia) (fun i Hi => proj1 (row_cells mm Wm s Hs i Hi))).
  rewrite (row_of_elems mm s (fun i mc => s *! mc +! i))
    by (intros i Hi; apply (row_cells mm Wm s Hs i Hi)).
  reflexivity.
Qed.

Lemma fold_col (f : float64 -> float64 -> float64) (s0 : float64) (s : Z) :
  0 <= s < c mm ->
  for_upto (r mm) (fun i acc =>
      mc <- get_c m ;;
      x <- load m (i *! mc +! s) ;;
      ret (f acc x)) s0 h
  = Done (fold_left f (col_of mm s) s0) h.
Proof.
  intros Hs. pose proof Wm as [Hr Hc Hlen Hfit].
  rewrite (reduce_loop h m mm (fun i mc => i *! mc +! s) f (r mm) s0 Hm
             ltac:(lia) (fun i Hi => proj1 (col_cells mm Wm s Hs i Hi))).
  rewrite (col_of_elems mm s (fun i mc => i *! mc +! s))
    by (intros i Hi; apply (col_cells mm Wm s Hs i Hi)).
  reflexivity.
Qed.

Lemma Sum_whole : Sum m [] h = Done (fsum (vals mm)) h.
Proof.
  unfold Sum. run (get_vals_at _ _ _ Hm).
  apply (reduce_all h m mm F64.add F64.zero Hm).
Qed.

Lemma Sum_row (s : Z) :
  0 <= s < r mm -> Sum m [0; s] h = Done (fsum (row_of mm s)) h.
Proof.
  intros Hs. unfold Sum. cbn [Z.eqb].
  run (get_r_at _ _ _ Hm).
  run (exit_if_pass ((s >=? r mm) || (s <? 0)) IndexOutOfRange h ltac:(lia)).
  run (get_c_at _ _ _ Hm).
  apply (fold_row F64.add F64.zero s Hs).
Qed.

Lemma Sum_col (s : Z) :
  0 <= s < c mm -> Sum m [1; s] h = Done (fsum (col_of mm s)) h.
Proof.
  intros Hs. unfold Sum. cbn [Z.eqb Pos.eqb].
  run (get_c_at _ _ _ Hm).
  run (exit_if_pass ((s >=? c mm) || (s <? 0)) IndexOutOfRange h ltac:(lia)).
  run (get_r_at _ _ _ Hm).
  apply (fold_col F64.add F64.zero s Hs).
Qed.

Lemma Prd_whole : Prd m [] h = Done (fold_left F64.mul (vals mm) one) h.
Proof.
  unfold Prd. run (get_vals_at _ _ _ Hm).
  apply (reduce_all h m mm F64.mul one Hm).
Qed.

Lemma Prd_row (s : Z) :
  0 <= s < r mm -> Prd m [0; s] h = Done (fold_left F64.mul (row_of mm s) one) h.
Proof.
  intros Hs. unfold Prd. cbn [Z.eqb].
  run (get_r_at _ _ _ Hm).
  run (exit_if_pass ((s >=? r mm) || (s <? 0)) IndexOutOfRange h ltac:(lia)).
  run (get_c_at _ _ _ Hm).
  apply (fold_row F64.mul one s Hs).
Qed.

Lemma Prd_col (s : Z) :
  0 <= s < c mm -> Prd m [1; s] h = Done (fold_left F64.mul (col_of mm s) one) h.
Proof.
  intros Hs. unfold Prd. cbn [Z.eqb Pos.eqb].
  run (get_c_at _ _ _ Hm).
  run (exit_if_pass ((s >=? c mm) || (s <? 0)) IndexOutOfRange h ltac:(lia)).
  run (get_r_at _ _ _ Hm).
  apply (fold_col F64.mul one s Hs).
Qed.

End Reductions.

(** [Sum] adds, and [Prd] multiplies, from left to right: all the values
    without arguments, the values of row [s] with [(0, s)], of column [s]
    with [(1, s)]; the matrix is only read. *)
Theorem Sum_Prd_of_slices (h : heap) (m : loc) (mm : Mat) (s : Z) :
  h !! m = Some mm -> wf mm ->
  (Sum m [] h = Done (fold_left F64.add (vals mm) F64.zero) h /\
   Prd m [] h = Done (fold_left F64.mul (vals mm) one) h) /\
  (0 <= s < r mm ->
   Sum m [0; s] h = Done (fold_left F64.add (row_of mm s) F64.zero) h /\
   Prd m [0; s] h = Done (fold_left F64.mul (row_of mm s) one) h) /\
  (0 <= s < c mm ->
   Sum m [1; s] h = Done (fold_left F64.add (col_of mm s) F64.zero) h /\
   Prd m [1; s] h = Done (fold_left F64.mul (col_of mm s) one) h).
Proof.
  intros Hm Wm. split; [|split].
  - split; [apply (Sum_whole h m mm Hm) | apply (Prd_whole h m mm Hm)].
  - intros Hs.
    split; [apply (Sum_row h m mm Hm Wm s Hs) | apply (Prd_row h m mm Hm Wm s Hs)].
  - intros Hs.
    split; [apply (Sum_col h m mm Hm Wm s Hs) | apply (Prd_col h m mm Hm Wm s Hs)].
Qed.

Lemma Sum_Prd_of_slices_witness :
  Sum 0%nat [1; 2] [matrix 2 3 [1; 2; 3; 4; 5; 6]]
  = Done (fl 9) [matrix 2 3 [1; 2; 3; 4; 5; 6]] /\
  Prd 0%nat [0; 1] [matrix 2 3 [1; 2; 3; 4; 5; 6]]
  = Done (fl 120) [matrix 2 3 [1; 2; 3; 4; 5; 6]].
Proof.
  destruct (Sum_Prd_of_slices [matrix 2 3 [1; 2; 3; 4; 5; 6]] 0%nat
    (matrix 2 3 [1; 2; 3; 4; 5; 6]) 2 eq_refl ltac:(concrete_wf))
    as (_ & _ & Hcol).
  destruct (Sum_Prd_of_slices [matrix 2 3 [1; 2; 3; 4; 5; 6]] 0%nat
    (matrix 2 3 [1; 2; 3; 4; 5; 6]) 1 eq_refl ltac:(concrete_wf))
    as (_ & Hrow & _).
  destruct (Hcol ltac:(simpl; lia)) as [Hsum _].
  destruct (Hrow ltac:(simpl; lia)) as [_ Hprd].
  rewrite Hsum, Hprd. split; vm_compute; reflexivity.
Defined.

(** [Avg] is [Sum] over the number of values added: the number of values of
    the matrix, the number of columns for a row, the number of rows for a
    column. *)
Theorem Avg_is_Sum_over_count (h : heap) (m : loc) (mm : Mat) (s : Z) :
  h !! m = Some mm -> wf mm ->
  Avg m [] h
  = (x <- Sum m [] ;; ret (F64.div x (F64.of_int (r mm * c mm)))) h /\
  (0 <= s < r mm ->
   Avg m [0; s] h
   = (x <- Sum m [0; s] ;; ret (F64.div x (F64.of_int (c mm)))) h) /\
  (0 <= s < c mm ->
   Avg m [1; s] h
   = (x <- Sum m [1; s] ;; ret (F64.div x (F64.of_int (r mm)))) h).
Proof.
  intros Hm Wm. pose proof Wm as [Hr Hc Hlen Hfit]. split; [|split].
  - rewrite (Avg_whole h m mm Hm). run (Sum_whole h m mm Hm).
    unfold mean. rewrite Hlen. reflexivity.
  - intros Hs. rewrite (Avg_row h m mm Hm Wm s Hs).
    run (Sum_row h m mm Hm Wm s Hs).
    unfold mean. rewrite len_row_of by lia. reflexivity.
  - intros Hs. rewrite (Avg_col h m mm Hm Wm s Hs).
    run (Sum_col h m mm Hm Wm s Hs).
    unfold mean. rewrite len_col_of by lia. reflexivity.
Qed.

Lemma Avg_is_Sum_over_count_witness :
  Avg 0%nat [0; 1] [matrix 2 3 [1; 2; 3; 4; 5; 6]]
  = Done (fl 5) [matrix 2 3 [1; 2; 3; 4; 5; 6]].
Proof.
  destruct (Avg_is_Sum_over_count [matrix 2 3 [1; 2; 3; 4; 5; 6]] 0%nat
    (matrix 2 3 [1; 2; 3; 4; 5; 6]) 1 eq_refl ltac:(concrete_wf))
    as (_ & Hrow & _).
  rewrite (Hrow ltac:(simpl; lia)). vm_compute. reflexivity.
Defined.

(** The four reductions accept no arguments or an axis and a slice: an axis
    other than 0 and 1, a slice outside of the matrix (negative slices are
    not counted from the end here) and any other number of arguments make
    the program exit, with the matrix as it was. *)
Theorem reductions_reject_bad_arguments (h : heap) (m : loc) (mm : Mat)
    (axis s x : Z) (rest : list Z) :
  h !! m = Some mm ->
  Forall (fun red : loc -> list Z -> M float64 =>
      (axis <> 0 -> axis <> 1 -> red m [axis; s] h = Exit InvalidArgument h) /\
      (s < 0 \/ r mm <= s -> red m [0; s] h = Exit IndexOutOfRange h) /\
      (s < 0 \/ c mm <= s -> red m [1; s] h = Exit IndexOutOfRange h) /\
      red m [axis] h = Exit InvalidArgument h /\
      red m (axis :: s :: x :: rest) h = Exit InvalidArgument h)
    [Sum; Avg; Prd; Std].
Proof.
  intros Hm.
  assert (Hrows : s < 0 \/ r mm <= s ->
    forall A (k : unit -> M A),
      (mr <- get_r m ;;
       u <- exit_if ((s >=? mr) || (s <? 0)) IndexOutOfRange ;; k u) h
      = Exit IndexOutOfRange h).
  { intros Hs A k. run (get_r_at _ _ _ Hm).
    apply bind_exit, exit_if_fail. lia. }
  assert (Hcols : s < 0 \/ c mm <= s ->
    forall A (k : unit -> M A),
      (mc <- get_c m ;;
       u <- exit_if ((s >=? mc) || (s <? 0)) IndexOutOfRange ;; k u) h
      = Exit IndexOutOfRange h).
  { intros Hs A k. run (get_c_at _ _ _ Hm).
    apply bind_exit, exit_if_fail. lia. }
  repeat apply List.Forall_cons; try apply List.Forall_nil;
    (split; [intros H0 H1 | split; [intros Hs | split; [intros Hs | split]]]);
    try reflexivity.
  all: try (unfold Sum, Avg, Prd, Std;
            destruct (axis =? 0) eqn:E0; [lia|];
            destruct (axis =? 1) eqn:E1; [lia|]; reflexivity).
  all: try (unfold Sum, Avg, Prd, Std; cbn [Z.eqb]; apply (Hrows Hs)).
  all: unfold Sum, Avg, Prd, Std; cbn [Z.eqb Pos.eqb]; apply (Hcols Hs).
Qed.

Lemma reductions_reject_bad_arguments_witness :
  Sum 0%nat [0; -1] [matrix 2 2 [1; 2; 3; 4]]
  = Exit IndexOutOfRange [matrix 2 2 [1; 2; 3; 4]].
Proof.
  pose proof (reductions_reject_bad_arguments [matrix 2 2 [1; 2; 3; 4]] 0%nat
    (matrix 2 2 [1; 2; 3; 4]) 2 (-1) 0 [] eq_refl) as Hall.
  apply Forall_cons in Hall as [(_ & Hrow & _) _].
  apply Hrow. left. lia.
Defined.

(** ** The deviation of a matrix with one row or one column *)

Lemma single_row (mm : Mat) : wf mm -> r mm = 1 -> row_of mm 0 = vals mm.
Proof.
  intros Wm H1. pose proof Wm as [Hr Hc Hlen Hfit].
  apply row_of_is; [exact Wm | lia | lia |].
  intros j Hj. unfold cell. f_equal; lia.
Qed.

Lemma single_col (mm : Mat) : wf mm -> c mm = 1 -> col_of mm 0 = vals mm.
Proof.
  intros Wm H1. pose proof Wm as [Hr Hc Hlen Hfit].
  apply col_of_is; [exact Wm | lia | lia |].
  intros i Hi. unfold cell. rewrite H1. f_equal; lia.
Qed.

(** [Std()] divides the sum of the squared distances to [Avg()] by the
    number of values of the matrix; on a matrix of one row, [Std(0, 0)] is
    that same number, and so is [Std(1, 0)] on a matrix of one column. *)
Theorem Std_single_slice (h : heap) (m : loc) (mm : Mat) :
  h !! m = Some mm -> wf mm ->
  Std m [] h
  = Done (F64.sqrt (F64.div
            (fold_left (sq_dev (mean (vals mm))) (vals mm) F64.zero)
            (F64.of_int (len (vals mm))))) h /\
  (r mm = 1 -> Std m [0; 0] h = Std m [] h) /\
  (c mm = 1 -> Std m [1; 0] h = Std m [] h).
Proof.
  intros Hm Wm. pose proof Wm as [Hr Hc Hlen Hfit].
  split; [exact (Std_whole h m mm Hm)|]. split.
  - intros H1. rewrite (Std_row h m mm Hm Wm 0 ltac:(lia)), (Std_whole h m mm Hm).
    rewrite (single_row mm Wm H1), Hlen. reflexivity.
  - intros H1. rewrite (Std_col h m mm Hm Wm 0 ltac:(lia)), (Std_whole h m mm Hm).
    rewrite (single_col mm Wm H1), Hlen. reflexivity.
Qed.

Lemma Std_single_slice_witness :
  Std 0%nat [0; 0] [matrix 1 4 [1; 2; 3; 4]] = Std 0%nat [] [matrix 1 4 [1; 2; 3; 4]].
Proof.
  destruct (Std_single_slice [matrix 1 4 [1; 2; 3; 4]] 0%nat
    (matrix 1 4 [1; 2; 3; 4]) eq_refl ltac:(concrete_wf)) as (_ & Hrow & _).
  apply Hrow. reflexivity.
Defined.

(** ** The division of the first revision *)

(** [Div] of the first revision looks for a zero in the divisor first: with
    one, of either sign, the program exits and nothing is divided; without,
    it divides as [Div] of the last revision does. *)
Theorem Legacy_Div_checked (h : heap) (m n : loc) (mm mn : Mat) :
  h !! m = Some mm -> h !! n = Some mn -> wf mm -> shaped mn ->
  r mm = r mn -> c mm = c mn ->
  Legacy.Div m n h
  = if existsb (fun x => F64.eqb x F64.zero) (vals mn)
    then Exit DivisionByZero h
    else Div m (OMat n) h.
Proof.
  intros Hm Hn Wm Sn Er Ec. pose proof Wm as [Hr Hc Hlen Hfit].
  destruct (existsb (fun x => F64.eqb x F64.zero) (vals mn)) eqn:Hany.
  - apply (Legacy_Div_zero h m n mm mn Hm Hn Er Ec).
    apply existsb_exists in Hany as (x & Hin & Hz).
    apply list_elem_of_In, list_elem_of_lookup_1 in Hin as [i Hi].
    exists i, x. split; assumption.
  - rewrite (Div_always_divides h m n mm mn Hm Hn Hlen Sn ltac:(lia) ltac:(lia)).
    unfold Legacy.Div.
    run (get_r_at _ _ _ Hm). run (get_r_at _ _ _ Hn).
    run (exit_if_pass (negb (r mm =? r mn)) ShapeMismatch h
           ltac:(rewrite Er, Z.eqb_refl; reflexivity)).
    run (get_c_at _ _ _ Hm). run (get_c_at _ _ _ Hn).
    run (exit_if_pass (negb (c mm =? c mn)) ShapeMismatch h
           ltac:(rewrite Ec, Z.eqb_refl; reflexivity)).
    run (Any_exists h n mn (fun x => F64.eqb x F64.zero) Hn).
    rewrite Hany.
    run (exit_if_pass false DivisionByZero h eq_refl).
    run (get_r_at _ _ _ Hm). run (get_c_at _ _ _ Hm).
    assert (Hpos : 0 <= r mm * c mm) by nia.
    rewrite mul_small by (apply in_range_intro; unfold GoInt.max_int in *; lia).
    assert (Hsame : length (vals mm) = length (vals mn)).
    { unfold shaped, len in *. rewrite Er, Ec in Hlen. lia. }
    pose proof (arith_matrix_loop F64.div h m n mm mn Hm Hn Hsame) as Hloop.
    unfold for_range in Hloop. unfold for_upto.
    replace (Z.to_nat (r mm * c mm)) with (length (vals mm))
      by (unfold len in Hlen; lia).
    run Hloop. reflexivity.
Qed.

Lemma Legacy_Div_checked_witness :
  Legacy.Div 0%nat 1%nat [matrix 1 2 [6; 8]; matrix 1 2 [2; 0]]
  = Exit DivisionByZero [matrix 1 2 [6; 8]; matrix 1 2 [2; 0]].
Proof.
  exact (Legacy_Div_checked [matrix 1 2 [6; 8]; matrix 1 2 [2; 0]] 0%nat 1%nat
    (matrix 1 2 [6; 8]) (matrix 1 2 [2; 0]) eq_refl eq_refl ltac:(concrete_wf)
    eq_refl eq_refl eq_refl).
Defined.

(** ** The constructors of the first revision *)

(** [From1DSlice] and [From2DSlice] of the first revision build what
    [FromData] without dimensions builds of the same slice. *)
Theorem Legacy_constructors_agree (h : heap) (s : list float64)
    (v : list (list float64)) (w : Z) :
  (2 * len s <= GoInt.max_int ->
   Legacy.From1DSlice s h = FromData (Flat s) [] h /\
   Legacy.From1DSlice s h = Done (length h) (h ++ [mkMat 1 (len s) s])) /\
  (rectangular v w -> 0 < len v -> 2 * (len v * w) <= GoInt.max_int ->
   Legacy.From2DSlice v h = FromData (Nested v) [] h).
Proof.
  split.
  - intros Hfit.
    assert (Hl : 0 <= len s) by (unfold len; lia).
    assert (E2 : len s *! 2 = len s * 2).
    { apply mul_small, in_range_intro. unfold GoInt.max_int in *. lia. }
    assert (Hnew : FromData (Flat s) [] h = Done (length h) (h ++ [mkMat 1 (len s) s])).
    { unfold FromData. run (New_empty h). rewrite E2.
      apply FromData_flat_fill; [reflexivity | lia]. }
    assert (Hold : Legacy.From1DSlice s h = Done (length h) (h ++ [mkMat 1 (len s) s])).
    { unfold Legacy.From1DSlice.
      run (New_rect h 1 (len s) ltac:(lia) Hl ltac:(lia)).
      run (get_vals_at _ _ _ (new_object h
             (mkMat 1 (len s) (replicate (Z.to_nat (1 * len s)) F64.zero)))).
      cbn [vals].
      run (set_vals_at _ _ _ (copy (replicate (Z.to_nat (1 * len s)) F64.zero) s)
             (new_object h
               (mkMat 1 (len s) (replicate (Z.to_nat (1 * len s)) F64.zero)))).
      rewrite new_object_insert. cbn [r c].
      rewrite copy_same_length; [reflexivity|].
      rewrite length_replicate. unfold len. lia. }
    rewrite Hnew, Hold. split; reflexivity.
  - intros Hrect Hn Hfit.
    assert (Hw : 0 <= w).
    { destruct (rectangular_rows v w Hrect 0 ltac:(lia)) as (v0 & _ & <- & _).
      unfold len. lia. }
    destruct (FromData_nested_plain h v w (nested_el v) Hw Hn Hfit
      (rectangular_rows v w Hrect)) as (l & Hrun & Hl & Hcells).
    rewrite Hrun.
    destruct (rectangular_rows v w Hrect 0 ltac:(lia)) as (v0 & Hv0 & Hv0w & _).
    assert (Hprod : 0 <= len v * w) by nia.
    assert (E1 : len v *! w = len v * w).
    { apply mul_small, in_range_intro. unfold GoInt.max_int in *. lia. }
    assert (E2 : len v * w *! 2 = len v * w * 2).
    { apply mul_small, in_range_intro. unfold GoInt.max_int in *. lia. }
    set (z := replicate (Z.to_nat (len v * w)) F64.zero).
    assert (Hobj : (h ++ [mkMat (len v) w z]) !! length h = Some (mkMat (len v) w z))
      by apply new_object.
    destruct (fill_nested_fills (h ++ [mkMat (len v) w z]) (length h)
      (mkMat (len v) w z) v w (nested_el v) Hobj Hw) as (l' & Hfill & Hl' & Hcells');
      cbn [r c vals].
    + unfold z. apply len_replicate. exact Hprod.
    + unfold GoInt.max_int in *. lia.
    + exact (rectangular_rows v w Hrect).
    + rewrite new_object_insert in Hfill. cbn [r c] in Hfill.
      unfold Legacy.From2DSlice.
      run (index_at v 0 v0 h ltac:(lia) Hv0).
      rewrite Hv0w.
      assert (Hnew : New [len v; w; len v *! w *! 2] h
                     = Done (length h) (h ++ [mkMat (len v) w z])).
      { unfold New. rewrite E1, E2.
        run (make_ok (len v * w) (len v * w * 2) h ltac:(lia)). reflexivity. }
      run Hnew. run Hfill.
      unfold ret. do 4 f_equal.
      apply (same_cells (len v) w); [lia | lia | exact Hl' | exact Hl |].
      intros i j Hi Hj. rewrite (Hcells i j Hi Hj), (Hcells' i j Hi Hj). reflexivity.
Qed.

Lemma Legacy_constructors_agree_witness :
  Legacy.From2DSlice [[fl 1; fl 2]; [fl 3; fl 4]] []
  = FromData (Nested [[fl 1; fl 2]; [fl 3; fl 4]]) [] [].
Proof.
  destruct (Legacy_constructors_agree [] [] [[fl 1; fl 2]; [fl 3; fl 4]] 2)
    as [_ Hnested].
  apply Hnested.
  - intros i vi.
    do 2 (destruct i as [|i]; [intros [= <-]; reflexivity|]). discriminate.
  - unfold len. simpl. lia.
  - unfold GoInt.max_int, len. simpl. lia.
Defined.

(** ** Comparison in both directions *)

Lemma eqb_sym (x y : float64) : F64.eqb x y = F64.eqb y x.
Proof.
  unfold F64.eqb, SFeqb.
  destruct x as [sx|sx| |sx mx ex], y as [sy|sy| |sy my ey]; simpl;
    try reflexivity; try (destruct sx, sy; reflexivity).
  destruct sx, sy; try reflexivity;
    rewrite (Z.compare_antisym ex ey); destruct (ex ?= ey); simpl; try reflexivity;
    change (PosDef.Pos.compare_cont Eq mx my) with (Pos.compare mx my);
    change (PosDef.Pos.compare_cont Eq my mx) with (Pos.compare my mx);
    rewrite (Pos.compare_antisym mx my); destruct (mx ?= my)%positive; reflexivity.
Qed.

(** [m.Equals(n)] and [n.Equals(m)] give the same answer, and neither
    changes a matrix. *)
Theorem Equals_symmetric (h : heap) (p q : loc) (mp mq : Mat) :
  h !! p = Some mp -> h !! q = Some mq -> wf mp -> wf mq ->
  Equals p q h = Equals q p h /\
  exists b, Equals p q h = Done b h.
Proof.
  intros Hp Hq Wp Wq.
  destruct (Equals_iff h p q mp mq Hp Hq Wp Wq) as (b & Hb & Hiff).
  destruct (Equals_iff h q p mq mp Hq Hp Wq Wp) as (b' & Hb' & Hiff').
  split; [|exists b; exact Hb].
  rewrite Hb, Hb'. f_equal.
  apply eq_true_iff_eq. rewrite Hiff, Hiff'. split.
  - intros (Er & Ec & Hall). split; [lia|]. split; [lia|].
    intros i x y Hx Hy. rewrite eqb_sym. exact (Hall i y x Hy Hx).
  - intros (Er & Ec & Hall). split; [lia|]. split; [lia|].
    intros i x y Hx Hy. rewrite eqb_sym. exact (Hall i y x Hy Hx).
Qed.

Lemma Equals_symmetric_witness :
  Equals 0%nat 1%nat [matrix 1 2 [1; 2]; matrix 1 2 [1; 3]]
  = Equals 1%nat 0%nat [matrix 1 2 [1; 2]; matrix 1 2 [1; 3]].
Proof.
  exact (proj1 (Equals_symmetric [matrix 1 2 [1; 2]; matrix 1 2 [1; 3]]
    0%nat 1%nat (matrix 1 2 [1; 2]) (matrix 1 2 [1; 3]) eq_refl eq_refl
    ltac:(concrete_wf) ltac:(concrete_wf))).
Defined.

(** ** New matrices *)

(** [New(a, b)] is a new matrix of zeros and leaves the others as they
    are; [New(a)] is [New(a, a)]; dimensions of a negative product make
    [make] panic, and more than three dimensions make the program exit. *)
Theorem New_zero_matrix (h : heap) (a b i j : Z) (rest : list Z) :
  (0 <= a -> 0 <= b -> 2 * (a * b) <= GoInt.max_int ->
   0 <= i < a -> 0 <= j < b ->
   (m <- New [a; b] ;; At m i j) h
   = Done F64.zero
       (h ++ [mkMat a b (replicate (Z.to_nat (a * b)) F64.zero)])) /\
  New [a] h = New [a; a] h /\
  (GoInt.in_range (a * b) -> a * b < 0 -> New [a; b] h = Exit RuntimePanic h) /\
  New (a :: b :: i :: j :: rest) h = Exit InvalidArgument h.
Proof.
  split; [|split; [reflexivity | split; [|reflexivity]]].
  - intros Ha Hb Hfit Hi Hj.
    run (New_rect h a b Ha Hb Hfit).
    set (mm := mkMat a b (replicate (Z.to_nat (a * b)) F64.zero)).
    assert (Wm : wf mm).
    { assert (0 <= a * b) by nia. assert (a <= a * b) by nia.
      assert (b <= a * b) by nia.
      constructor; cbn [r c vals mm]; try lia.
      apply len_replicate. lia. }
    rewrite (At_cell _ _ mm i j (new_object h mm) Wm Hi Hj). f_equal.
    unfold el, cell. cbn [c vals mm].
    destruct (cell_bounds a b i j Hi Hj) as (B1 & B2 & B3).
    rewrite lookup_replicate_2 by lia. reflexivity.
  - intros Hrange Hneg. unfold New.
    rewrite (mul_small a b Hrange). unfold make.
    replace (a * b <? 0) with true by lia. reflexivity.
Qed.

Lemma New_zero_matrix_witness :
  (m <- New [2; 3] ;; At m 1 2) [] = Done F64.zero [matrix 2 3 [0; 0; 0; 0; 0; 0]].
Proof.
  destruct (New_zero_matrix [] 2 3 1 2 []) as (Hnew & _).
  rewrite Hnew by (unfold GoInt.max_int; lia). reflexivity.
Defined.

(** ** The operators of the revision in between *)

(** In the revision in between, an operator works on a copy: the result is
    a new matrix, and the receiver and the argument are as they were.  The
    copy is made before the type of the argument is looked at. *)
Theorem Copying_arith_fresh (op : float64 -> float64 -> float64)
    (h : heap) (m n : loc) (mm mn : Mat) (v : float64) :
  h !! m = Some mm -> h !! n = Some mn -> wf mm ->
  Copying.arith op m (OFloat v) h
  = Done (length h)
      (h ++ [mkMat (r mm) (c mm) (map (fun x => op x v) (vals mm))]) /\
  (shaped mn -> r mn = r mm -> c mn = c mm ->
   Copying.arith op m (OMat n) h
   = Done (length h)
       (h ++ [mkMat (r mm) (c mm) (zip_with op (vals mm) (vals mn))])) /\
  (r mn <> r mm \/ c mn <> c mm ->
   Copying.arith op m (OMat n) h = Exit ShapeMismatch (h ++ [mm])) /\
  Copying.arith op m OOther h = Exit InvalidArgument (h ++ [mm]).
Proof.
  intros Hm Hn Wm. pose proof Wm as [Hr Hc Hlen Hfit].
  assert (Hcopy : Copy m h = Done (length h) (h ++ [mm])).
  { rewrite (Copy_copies h m mm Hm Wm). destruct mm; reflexivity. }
  assert (Hstep : forall a,
    Copying.arith op m a h = arith op (length h) a (h ++ [mm])).
  { intros a. unfold Copying.arith. run Hcopy. destruct a; reflexivity. }
  assert (Hn' : (h ++ [mm]) !! n = Some mn) by (apply lookup_app_l_Some; exact Hn).
  rewrite !Hstep. split; [|split; [|split]].
  - rewrite (arith_scalar op _ _ mm v (new_object h mm)).
    rewrite new_object_insert. reflexivity.
  - intros Sn Er Ec.
    rewrite (arith_same_shape op _ _ n mm mn (new_object h mm) Hn' Hlen Sn Er Ec).
    rewrite new_object_insert. reflexivity.
  - intros Hne.
    apply (arith_other_shape op _ _ n mm mn (new_object h mm) Hn' Hne).
  - reflexivity.
Qed.

Lemma Copying_arith_fresh_witness :
  Copying.Add 0%nat (OMat 0%nat) [matrix 1 2 [1; 2]]
  = Done 1%nat [matrix 1 2 [1; 2]; matrix 1 2 [2; 4]].
Proof.
  destruct (Copying_arith_fresh F64.add [matrix 1 2 [1; 2]] 0%nat 0%nat
    (matrix 1 2 [1; 2]) (matrix 1 2 [1; 2]) (fl 0) eq_refl eq_refl
    ltac:(concrete_wf)) as (_ & Hmat & _).
  unfold Copying.Add. rewrite Hmat by reflexivity. vm_compute. reflexivity.
Defined.

(** ** The cells of a transpose *)

(** [T] makes a new matrix of [c] rows and [r] columns whose cell [(j, i)]
    is the cell [(i, j)] of the receiver, which it leaves as it was. *)
Theorem T_then_At (h : heap) (m : loc) (mm : Mat) (i j : Z) :
  h !! m = Some mm -> wf mm -> 0 <= i < r mm -> 0 <= j < c mm ->
  exists t,
    T m h = Done (length h) (h ++ [t]) /\
    r t = c mm /\ c t = r mm /\ shaped t /\
    (n <- T m ;; At n j i) h = At m i j (h ++ [t]).
Proof.
  intros Hm Wm Hi Hj. pose proof Wm as [Hr Hc Hlen Hfit].
  destruct (T_transposes h m mm Hm Wm) as (t & Hrun & Hrt & Hct & Hlt & Hcells).
  exists t. split; [exact Hrun|]. split; [exact Hrt|]. split; [exact Hct|].
  split; [unfold shaped; rewrite Hrt, Hct; lia|].
  assert (Wt : wf t) by (apply (T_wf mm t Wm Hrt Hct Hlt)).
  run Hrun.
  rewrite (At_cell _ _ t j i (new_object h t) Wt ltac:(lia) ltac:(lia)).
  rewrite (At_cell _ m mm i j (lookup_app_l_Some _ _ _ _ Hm) Wm Hi Hj).
  unfold el. rewrite (Hcells i j Hi Hj). reflexivity.
Qed.

Lemma T_then_At_witness :
  exists t,
    T 0%nat [matrix 2 3 [1; 2; 3; 4; 5; 6]]
    = Done 1%nat [matrix 2 3 [1; 2; 3; 4; 5; 6]; t] /\
    r t = 3 /\ c t = 2 /\ shaped t /\
    (n <- T 0%nat ;; At n 2 1) [matrix 2 3 [1; 2; 3; 4; 5; 6]]
    = At 0%nat 1 2 [matrix 2 3 [1; 2; 3; 4; 5; 6]; t].
Proof.
  exact (T_then_At [matrix 2 3 [1; 2; 3; 4; 5; 6]] 0%nat
    (matrix 2 3 [1; 2; 3; 4; 5; 6]) 1 2 eq_refl ltac:(concrete_wf)
    ltac:(simpl; lia) ltac:(simpl; lia)).
Defined.

(** ** The predicates on signs *)

Lemma Positive_not_Negative (x : float64) : Positive x = true -> Negative x = false.
Proof.
  unfold Positive, Negative, SFltb, F64.zero.
  destruct x as [s|s| |s mx ex]; try destruct s; simpl; intros H;
    try reflexivity; try discriminate.
Qed.

(** A matrix all of whose values are [Positive] has no [Negative]
    value. *)
Theorem All_Positive_no_Negative (h : heap) (m : loc) (mm : Mat) :
  h !! m = Some mm ->
  All m Positive h = Done true h -> Any m Negative h = Done false h.
Proof.
  intros Hm Hall. rewrite (All_forall h m mm Positive Hm) in Hall.
  rewrite (Any_exists h m mm Negative Hm). f_equal.
  injection Hall as Hall.
  induction (vals mm) as [|x l IH]; [reflexivity|].
  cbn [forallb existsb] in *. apply andb_prop in Hall as [Hx Hl].
  rewrite (Positive_not_Negative x Hx), (IH Hl). reflexivity.
Qed.

Lemma All_Positive_no_Negative_witness :
  Any 0%nat Negative [matrix 1 3 [1; 2; 3]] = Done false [matrix 1 3 [1; 2; 3]].
Proof.
  exact (All_Positive_no_Negative [matrix 1 3 [1; 2; 3]] 0%nat
    (matrix 1 3 [1; 2; 3]) eq_refl eq_refl).
Defined.

(** ** The reductions of the first revision *)

Lemma bind_assoc {A B C : Type} (m : M A) (k : A -> M B) (k' : B -> M C)
    (h : heap) :
  (y <- (x <- m ;; k x) ;; k' y) h = (x <- m ;; y <- k x ;; k' y) h.
Proof. unfold bind. destruct (m h); reflexivity. Qed.

(** [Sum] and [Average] of the first revision are [Sum] and [Avg] of the
    last one with an axis and a slice, for every axis and every slice: the
    same tests in the same order, then the same loop. *)
Theorem Legacy_Sum_Average_agree (h : heap) (m : loc) (mm : Mat) (axis s : Z) :
  h !! m = Some mm ->
  Legacy.Sum m axis s h = Sum m [axis; s] h /\
  Legacy.Average m axis s h = Avg m [axis; s] h.
Proof.
  intros Hm.
  unfold Legacy.Sum, Legacy.Average, Legacy.precheck, Legacy.precheckedAverage,
    Legacy.precheckedSum, Sum, Avg.
  destruct (axis =? 0) eqn:E0; [|destruct (axis =? 1) eqn:E1]; cbn [negb andb].
  - split.
    + rewrite bind_assoc. run (exit_if_pass false InvalidArgument h eq_refl).
      rewrite bind_assoc. reflexivity.
    + rewrite bind_assoc. run (exit_if_pass false InvalidArgument h eq_refl).
      rewrite bind_assoc. rewrite !(bind_done _ _ _ _ _ (get_r_at _ _ _ Hm)).
      destruct ((s >=? r mm) || (s <? 0)); [reflexivity|].
      rewrite !(bind_done _ _ _ _ _ (exit_if_pass false IndexOutOfRange h eq_refl)).
      rewrite bind_assoc. reflexivity.
  - split.
    + rewrite bind_assoc. run (exit_if_pass false InvalidArgument h eq_refl).
      rewrite bind_assoc. reflexivity.
    + rewrite bind_assoc. run (exit_if_pass false InvalidArgument h eq_refl).
      rewrite bind_assoc. rewrite !(bind_done _ _ _ _ _ (get_c_at _ _ _ Hm)).
      destruct ((s >=? c mm) || (s <? 0)); [reflexivity|].
      rewrite !(bind_done _ _ _ _ _ (exit_if_pass false IndexOutOfRange h eq_refl)).
      rewrite bind_assoc. reflexivity.
  - split; reflexivity.
Qed.

Lemma Legacy_Sum_Average_agree_witness :
  Legacy.Average 0%nat 1 0 [matrix 2 2 [1; 2; 3; 4]]
  = Avg 0%nat [1; 0] [matrix 2 2 [1; 2; 3; 4]].
Proof.
  exact (proj2 (Legacy_Sum_Average_agree [matrix 2 2 [1; 2; 3; 4]] 0%nat
    (matrix 2 2 [1; 2; 3; 4]) 1 0 eq_refl)).
Defined.

(** The loop of [Std] that fills a local slice with the squared distances
    to the average. *)
Lemma squares_loop (h : heap) (m : loc) (mm : Mat) (g : Z -> Z -> Z)
    (avg : float64) (n : Z) :
  h !! m = Some mm -> 0 <= n ->
  (forall i, 0 <= i < n -> 0 <= g i (c mm) < len (vals mm)) ->
  for_upto n (fun i s =>
      mc <- get_c m ;;
      e <- load m (g i mc) ;;
      s <- update s i (F64.sub avg e) ;;
      si <- index s i ;;
      update s i (F64.mul si si)) (replicate (Z.to_nat n) F64.zero) h
  = Done (map (fun x => F64.mul (F64.sub avg x) (F64.sub avg x))
            (map (fun i => default F64.zero
                             (vals mm !! Z.to_nat (g (Z.of_nat i) (c mm))))
                 (seq 0 (Z.to_nat n)))) h.
Proof.
  intros Hm Hn Hg.
  set (z := replicate (Z.to_nat n) F64.zero).
  set (E := fun i : nat =>
    let x := default F64.zero (vals mm !! Z.to_nat (g (Z.of_nat i) (c mm))) in
    F64.mul (F64.sub avg x) (F64.sub avg x)).
  assert (Hz : length z = Z.to_nat n) by apply length_replicate.
  destruct (for_upto_inv
    (fun k s hk => hk = h /\
       s = map E (seq 0 (Z.to_nat k)) ++ drop (Z.to_nat k) z)
    (fun i s =>
      mc <- get_c m ;;
      e <- load m (g i mc) ;;
      s <- update s i (F64.sub avg e) ;;
      si <- index s i ;;
      update s i (F64.mul si si)) n z h Hn) as (s' & h' & Hrun & -> & ->).
  - split; [reflexivity|]. change (Z.to_nat 0) with 0%nat. simpl.
    rewrite drop_0. reflexivity.
  - intros k s hk Hk (-> & ->).
    destruct (Hg k Hk) as [G0 G1]. unfold len in G1.
    destruct (lookup_lt_is_Some_2 (vals mm) (Z.to_nat (g k (c mm)))) as [x Hx]; [lia|].
    set (s := map E (seq 0 (Z.to_nat k)) ++ drop (Z.to_nat k) z).
    assert (Hs : len s = n).
    { unfold len, s. rewrite length_app, length_map, length_seq, length_drop. lia. }
    eexists. exists h. split.
    + run (get_c_at _ _ _ Hm). run (load_at _ _ _ _ _ Hm G0 Hx).
      run (update_at s k (F64.sub avg x) h ltac:(lia)).
      run (index_at (<[Z.to_nat k := F64.sub avg x]> s) k (F64.sub avg x) h
             ltac:(lia)
             ltac:(apply list_lookup_insert_eq; unfold len in Hs; lia)).
      apply update_at. rewrite len_insert. lia.
    + split; [reflexivity|]. rewrite list_insert_insert_eq.
      replace (F64.mul (F64.sub avg x) (F64.sub avg x)) with (E (Z.to_nat k)).
      * unfold s. rewrite filled_step by lia.
        replace (Z.to_nat (k + 1)) with (Datatypes.S (Z.to_nat k)) by lia.
        reflexivity.
      * unfold E. rewrite Z2Nat.id by lia. rewrite Hx. reflexivity.
  - rewrite Hrun. rewrite drop_ge by lia. rewrite app_nil_r.
    unfold E. rewrite map_map. reflexivity.
Qed.

(** The loop that adds the values of a local slice. *)
Lemma fold_local (f : float64 -> float64 -> float64) (s : list float64)
    (s0 : float64) (h : heap) :
  for_range s (fun i sum => si <- index s i ;; ret (f sum si)) s0 h
  = Done (fold_left f s s0) h.
Proof.
  destruct (for_range_inv
    (fun k acc hk => hk = h /\ acc = fold_left f (take (Z.to_nat k) s) s0)
    s (fun i sum => si <- index s i ;; ret (f sum si)) s0 h)
    as (s' & h' & Hrun & -> & ->).
  - split; reflexivity.
  - intros k acc hk Hk (-> & ->). unfold len in Hk.
    destruct (lookup_lt_is_Some_2 s (Z.to_nat k)) as [x Hx]; [lia|].
    eexists. exists h. split.
    + run (index_at s k x h (proj1 Hk) Hx). reflexivity.
    + split; [reflexivity|].
      replace (Z.to_nat (k + 1)) with (Datatypes.S (Z.to_nat k)) by lia.
      rewrite (take_S_r _ _ _ Hx), fold_left_app. reflexivity.
  - rewrite Hrun. unfold len. rewrite Nat2Z.id, firstn_all. reflexivity.
Qed.

Lemma fold_squares (avg : float64) (xs : list float64) (s0 : float64) :
  fold_left F64.add
    (map (fun x => F64.mul (F64.sub avg x) (F64.sub avg x)) xs) s0
  = fold_left (sq_dev avg) xs s0.
Proof.
  revert s0. induction xs as [|x xs IH]; intros s0; [reflexivity|].
  simpl. rewrite IH. reflexivity.
Qed.

Lemma Legacy_precheckedAverage_row (h : heap) (m : loc) (mm : Mat) (s : Z) :
  h !! m = Some mm -> wf mm -> 0 <= s < r mm ->
  Legacy.precheckedAverage m 0 s h = Done (mean (row_of mm s)) h.
Proof.
  intros Hm Wm Hs. pose proof Wm as [Hr Hc Hlen Hfit].
  unfold Legacy.precheckedAverage, Legacy.precheckedSum. cbn [Z.eqb].
  rewrite bind_assoc. run (get_c_at _ _ _ Hm).
  run (fold_row h m mm Hm Wm F64.add F64.zero s Hs).
  run (get_c_at _ _ _ Hm).
  unfold mean, fsum. rewrite len_row_of by lia. reflexivity.
Qed.

Lemma Legacy_precheckedAverage_col (h : heap) (m : loc) (mm : Mat) (s : Z) :
  h !! m = Some mm -> wf mm -> 0 <= s < c mm ->
  Legacy.precheckedAverage m 1 s h = Done (mean (col_of mm s)) h.
Proof.
  intros Hm Wm Hs. pose proof Wm as [Hr Hc Hlen Hfit].
  unfold Legacy.precheckedAverage, Legacy.precheckedSum. cbn [Z.eqb Pos.eqb].
  rewrite bind_assoc. run (get_r_at _ _ _ Hm).
  run (fold_col h m mm Hm Wm F64.add F64.zero s Hs).
  run (get_r_at _ _ _ Hm).
  unfold mean, fsum. rewrite len_col_of by lia. reflexivity.
Qed.

(** [Std] of the first revision divides the sum of the squared distances
    by the number of values of the row or of the column. *)
Theorem Legacy_Std_of_slice (h : heap) (m : loc) (mm : Mat) (s : Z) :
  h !! m = Some mm -> wf mm ->
  (0 <= s < r mm ->
   Legacy.Std m 0 s h
   = Done (F64.sqrt (F64.div
             (fold_left (sq_dev (mean (row_of mm s))) (row_of mm s) F64.zero)
             (F64.of_int (c mm)))) h) /\
  (0 <= s < c mm ->
   Legacy.Std m 1 s h
   = Done (F64.sqrt (F64.div
             (fold_left (sq_dev (mean (col_of mm s))) (col_of mm s) F64.zero)
             (F64.of_int (r mm)))) h).
Proof.
  intros Hm Wm. pose proof Wm as [Hr Hc Hlen Hfit]. split; intros Hs.
  - unfold Legacy.Std. cbn [Z.eqb negb andb].
    run (exit_if_pass false InvalidArgument h eq_refl).
    rewrite bind_assoc. run (get_r_at _ _ _ Hm).
    run (exit_if_pass ((s >=? r mm) || (s <? 0)) IndexOutOfRange h ltac:(lia)).
    run (Legacy_precheckedAverage_row h m mm s Hm Wm Hs).
    rewrite bind_assoc. run (get_c_at _ _ _ Hm).
    rewrite bind_assoc. run (make_ok (c mm) (c mm) h ltac:(lia)).
    run (squares_loop h m mm (fun i mc => s *! mc +! i) (mean (row_of mm s))
           (c mm) Hm ltac:(lia) (fun i Hi => proj1 (row_cells mm Wm s Hs i Hi))).
    rewrite (row_of_elems mm s (fun i mc => s *! mc +! i))
      by (intros i Hi; apply (row_cells mm Wm s Hs i Hi)).
    run (fold_local F64.add
           (map (fun x => F64.mul (F64.sub (mean (row_of mm s)) x)
                            (F64.sub (mean (row_of mm s)) x)) (row_of mm s))
           F64.zero h).
    rewrite fold_squares. unfold ret, len. rewrite length_map.
    fold (len (row_of mm s)). rewrite len_row_of by lia. reflexivity.
  - unfold Legacy.Std. cbn [Z.eqb Pos.eqb negb andb].
    run (exit_if_pass false InvalidArgument h eq_refl).
    rewrite bind_assoc. run (get_c_at _ _ _ Hm).
    run (exit_if_pass ((s >=? c mm) || (s <? 0)) IndexOutOfRange h ltac:(lia)).
    run (Legacy_precheckedAverage_col h m mm s Hm Wm Hs).
    rewrite bind_assoc. run (get_r_at _ _ _ Hm).
    rewrite bind_assoc. run (make_ok (r mm) (r mm) h ltac:(lia)).
    run (squares_loop h m mm (fun i mc => i *! mc +! s) (mean (col_of mm s))
           (r mm) Hm ltac:(lia) (fun i Hi => proj1 (col_cells mm Wm s Hs i Hi))).
    rewrite (col_of_elems mm s (fun i mc => i *! mc +! s))
      by (intros i Hi; apply (col_cells mm Wm s Hs i Hi)).
    run (fold_local F64.add
           (map (fun x => F64.mul (F64.sub (mean (col_of mm s)) x)
                            (F64.sub (mean (col_of mm s)) x)) (col_of mm s))
           F64.zero h).
    rewrite fold_squares. unfold ret, len. rewrite length_map.
    fold (len (col_of mm s)). rewrite len_col_of by lia. reflexivity.
Qed.

Lemma Legacy_Std_of_slice_witness :
  Legacy.Std 0%nat 0 0 [matrix 2 2 [1; 3; 5; 7]]
  = Done (fl 1) [matrix 2 2 [1; 3; 5; 7]].
Proof.
  destruct (Legacy_Std_of_slice [matrix 2 2 [1; 3; 5; 7]] 0%nat
    (matrix 2 2 [1; 3; 5; 7]) 0 eq_refl ltac:(concrete_wf)) as [Hrow _].
  rewrite Hrow by (simpl; lia). vm_compute. reflexivity.
Defined.
